(** * AI Research Scout: the deterministic sanitizers, the post-processing
      hooks and the searches of [src/executor.py], the run log of
      [src/memory.py]

    A shallow embedding of [src/executor.py] (sanitizers, callbacks, paper
    and repository search) and of [src/memory.py], together with the pieces
    of the Python standard library they lean on ([str] methods, the [json]
    decoder and encoders, [datetime], [int]), followed by the properties of
    the specification that were checked against them and by further
    properties of the code.

    Conventions.
    - A Python [str] is a list of Unicode code points ([N]).
    - A function that may raise returns a [result] (an [outcome] for the
      repository search, which has two exceptions more).
    - A value that a function updates in place and returns ([_sanitize_links]
      on the freshly decoded value, the callbacks on the state) is modelled
      by the updated value; nothing else refers to the value meanwhile.
    - What a function prints and writes is threaded through a [world].
    - The network is a parameter: a provider answers a request with the
      parsed response or with the exception of the request.
    - The [json] scanner accepts what the accelerated scanner of CPython
      accepts (ASCII digits, four hexadecimal digits after \u); the wording
      of its error messages is that of [json/decoder.py].
    - Binary64 floats and the table of non-ASCII decimal digits are taken
      from the interpreter as they are ([PyLib], [PyFloat]).
    - Interpreter resource limits (recursion depth, the digit limit of [int],
      memory) are not part of the model. *)

From Stdlib Require Import String Ascii ZArith NArith List Bool Lia.
From Stdlib Require DecimalZ DecimalN DecimalPos DecimalFacts.
From Stdlib Require Permutation.
Import ListNotations.

(* ------------------------------------------------------------------ *)
(** * Python strings *)
(* ------------------------------------------------------------------ *)

Abbreviation str := (list N).

(** [lit "abc"] is the Python string 'abc'. *)
Definition lit (s : string) : str :=
  List.map N_of_ascii (list_ascii_of_string s).

(** [jlit] reads a literal in which the apostrophe stands for the double
    quote: [jlit "{'a':1}"] is the Python string '{"a":1}'. *)
Definition jlit (s : string) : str :=
  List.map (fun c => if N.eqb c 39 then 34%N else c) (lit s).

Definition nl : str := [10%N].

Fixpoint str_eqb (a b : str) : bool :=
  match a, b with
  | [], [] => true
  | x :: a', y :: b' => N.eqb x y && str_eqb a' b'
  | _, _ => false
  end.

Definition in_range (lo hi c : N) : bool := N.leb lo c && N.leb c hi.

(** [str.isspace] on one code point. *)
Definition isspace (c : N) : bool :=
  in_range 9 13 c || in_range 28 32 c || N.eqb c 133 || N.eqb c 160
  || N.eqb c 5760 || in_range 8192 8202 c || N.eqb c 8232 || N.eqb c 8233
  || N.eqb c 8239 || N.eqb c 8287 || N.eqb c 12288.

Fixpoint lstrip (s : str) : str :=
  match s with
  | [] => []
  | c :: s' => if isspace c then lstrip s' else s
  end.

Definition rstrip (s : str) : str := rev (lstrip (rev s)).

Definition strip (s : str) : str := rstrip (lstrip s).

Fixpoint startswith (p s : str) : bool :=
  match p, s with
  | [], _ => true
  | x :: p', y :: s' => N.eqb x y && startswith p' s'
  | _ :: _, [] => false
  end.

Definition endswith (p s : str) : bool := startswith (rev p) (rev s).

(** [s.find(c)] for a one-character needle: the first index, or -1. *)
Fixpoint find (c : N) (s : str) : Z :=
  match s with
  | [] => (-1)%Z
  | x :: s' =>
      if N.eqb x c then 0%Z
      else let r := find c s' in if Z.eqb r (-1) then (-1)%Z else (r + 1)%Z
  end.

(** [s.replace(old, new, 1)]: the first occurrence only ([old] non-empty). *)
Fixpoint replace_first (old new s : str) : str :=
  if startswith old s then new ++ skipn (length old) s
  else match s with
       | [] => []
       | c :: s' => c :: replace_first old new s'
       end.

(** [s[n:]] and [s[:-n]]. *)
Definition slice_from (n : nat) (s : str) : str := skipn n s.
Definition slice_drop_last (n : nat) (s : str) : str :=
  firstn (length s - n) s.
Definition slice_to (n : nat) (s : str) : str := firstn n s.

Definition mem (c : N) (l : list N) : bool := existsb (N.eqb c) l.

(* ------------------------------------------------------------------ *)
(** * Exceptions *)
(* ------------------------------------------------------------------ *)

Inductive exn : Type :=
| ValueError (msg : string)
| JSONDecodeError (msg : string)   (* a subclass of ValueError *)
| StopIteration
| AttributeError (msg : string)
| OverflowError
| RequestError
| OutOfFuel.                        (* never raised by [raw_decode], see
                                       [raw_decode_fuel] *)

Inductive result (A : Type) : Type :=
| Ok (a : A)
| Raise (e : exn).
Arguments Ok {A} a.
Arguments Raise {A} e.

Definition bind {A B} (r : result A) (k : A -> result B) : result B :=
  match r with
  | Ok a => k a
  | Raise e => Raise e
  end.

Notation "' p <- r ;; k" := (bind r (fun p => k))
  (at level 61, p pattern, r at next level, right associativity).

(** [except StopIteration: raise JSONDecodeError("Expecting value")]. *)
Definition expecting_value {A} (r : result A) : result A :=
  match r with
  | Raise StopIteration => Raise (JSONDecodeError "Expecting value")
  | _ => r
  end.

(* ------------------------------------------------------------------ *)
(** * Python values *)
(* ------------------------------------------------------------------ *)

(** What the embedding takes from the interpreter without looking inside:
    binary64 floats (only ever parsed from a JSON number and printed back)
    and the table of the non-ASCII decimal digits that the regular
    expression class \d accepts. *)
Class PyLib : Type := {
  float : Type;
  (** [float(s)] for [s] a JSON number with a fraction or an exponent *)
  float_of_literal : str -> float;
  (** the constants behind NaN, Infinity and -Infinity *)
  float_nan : float;
  float_inf : float;
  float_neg_inf : float;
  (** [json.encoder]'s [floatstr]: NaN, Infinity, -Infinity or [repr] *)
  floatstr : float -> str;
  (** the value of a non-ASCII code point of category Nd, if it is one *)
  unicode_nd : N -> option N
}.

Section Values.
Context {L : PyLib}.

(** The values JSON decoding produces; a [dict] keeps insertion order and
    has string keys. *)
#[local] Unset Elimination Schemes.
Inductive pyval : Type :=
| PNone
| PBool (b : bool)
| PInt (z : Z)
| PFloat (f : float)
| PStr (s : str)
| PList (l : list pyval)
| PDict (d : list (str * pyval)).
#[local] Set Elimination Schemes.

(** [d.get(k)] *)
Fixpoint dict_get (k : str) (d : list (str * pyval)) : option pyval :=
  match d with
  | [] => None
  | (k', v) :: d' => if str_eqb k k' then Some v else dict_get k d'
  end.

(** [d[k] = v]: an existing key keeps its position, a new one goes last. *)
Fixpoint dict_set (k : str) (v : pyval) (d : list (str * pyval)) : list (str * pyval) :=
  match d with
  | [] => [(k, v)]
  | (k', v') :: d' =>
      if str_eqb k k' then (k', v) :: d' else (k', v') :: dict_set k v d'
  end.

(** [dict(pairs)] *)
Definition dict_of_pairs (pairs : list (str * pyval)) : list (str * pyval) :=
  fold_left (fun d kv => dict_set (fst kv) (snd kv) d) pairs [].

(* ------------------------------------------------------------------ *)
(** * [json.decoder]: the scanner behind [JSONDecoder().raw_decode] *)
(* ------------------------------------------------------------------ *)

Definition is_json_ws (c : N) : bool :=
  N.eqb c 32 || N.eqb c 9 || N.eqb c 10 || N.eqb c 13.

(** [WHITESPACE.match(s, end).end()] *)
Fixpoint skip_ws (s : str) : str :=
  match s with
  | [] => []
  | c :: s' => if is_json_ws c then skip_ws s' else s
  end.

Definition is_digit (c : N) : bool := in_range 48 57 c.

Definition hex_value (c : N) : option N :=
  if in_range 48 57 c then Some (c - 48)%N
  else if in_range 97 102 c then Some (c - 87)%N
  else if in_range 65 70 c then Some (c - 55)%N
  else None.

(** Four hexadecimal digits of a \uXXXX escape. *)
Definition decode_uXXXX (a b c d : N) : option N :=
  match hex_value a, hex_value b, hex_value c, hex_value d with
  | Some x, Some y, Some z, Some w =>
      Some (((x * 16 + y) * 16 + z) * 16 + w)%N
  | _, _, _, _ => None
  end.

(** The BACKSLASH table. *)
Definition backslash (c : N) : option N :=
  if N.eqb c 34 then Some 34%N            (* double quote *)
  else if N.eqb c 92 then Some 92%N       (* backslash *)
  else if N.eqb c 47 then Some 47%N       (* / *)
  else if N.eqb c 98 then Some 8%N        (* b *)
  else if N.eqb c 102 then Some 12%N      (* f *)
  else if N.eqb c 110 then Some 10%N      (* n *)
  else if N.eqb c 114 then Some 13%N      (* r *)
  else if N.eqb c 116 then Some 9%N       (* t *)
  else None.

Definition is_high_surrogate (u : N) : bool := in_range 55296 56319 u.
Definition is_low_surrogate (u : N) : bool := in_range 56320 57343 u.
Definition join_surrogates (hi lo : N) : N :=
  (65536 + N.lor (N.shiftl (hi - 55296) 10) (lo - 56320))%N.

(** [scanstring(s, end)] in strict mode, [s] being what follows the opening
    quote and [acc] the characters read so far, last first. *)
Fixpoint scanstring (s : str) (acc : str) : result (str * str) :=
  match s with
  | [] => Raise (JSONDecodeError "Unterminated string starting at")
  | c :: s1 =>
      if N.eqb c 34 then Ok (rev acc, s1)
      else if N.eqb c 92 then
        match s1 with
        | [] => Raise (JSONDecodeError "Unterminated string starting at")
        | e :: s2 =>
            if N.eqb e 117 then
              match s2 with
              | h1 :: h2 :: h3 :: h4 :: s3 =>
                  match decode_uXXXX h1 h2 h3 h4 with
                  | None => Raise (JSONDecodeError "Invalid \uXXXX escape")
                  | Some uni =>
                      if is_high_surrogate uni then
                        match s3 with
                        | b1 :: u1 :: k1 :: k2 :: k3 :: k4 :: s4 =>
                            if N.eqb b1 92 && N.eqb u1 117 then
                              match decode_uXXXX k1 k2 k3 k4 with
                              | None =>
                                  Raise
                                    (JSONDecodeError "Invalid \uXXXX escape")
                              | Some uni2 =>
                                  if is_low_surrogate uni2
                                  then scanstring s4
                                         (join_surrogates uni uni2 :: acc)
                                  else scanstring s3 (uni :: acc)
                              end
                            else scanstring s3 (uni :: acc)
                        | _ => scanstring s3 (uni :: acc)
                        end
                      else scanstring s3 (uni :: acc)
                  end
              | _ => Raise (JSONDecodeError "Invalid \uXXXX escape")
              end
            else
              match backslash e with
              | None => Raise (JSONDecodeError "Invalid \escape")
              | Some ch => scanstring s2 (ch :: acc)
              end
        end
      else if N.ltb c 32 then
        Raise (JSONDecodeError "Invalid control character at")
      else scanstring s1 (c :: acc)
  end.

(** The longest run of ASCII digits at the head of [s], and what follows. *)
Fixpoint span_digits (s : str) : str * str :=
  match s with
  | [] => ([], [])
  | c :: s' =>
      if is_digit c
      then let '(ds, r) := span_digits s' in (c :: ds, r)
      else ([], s)
  end.

(** The three groups of NUMBER_RE and the rest: an optional minus sign
    followed by 0 or by a non-zero digit and further digits; optionally a
    dot and digits; optionally e or E, an optional sign, and digits. *)
Definition match_integer_after (sign s : str) : option (str * str) :=
  match s with
  | c :: s1 =>
      if N.eqb c 48 then Some (sign ++ [c], s1)
      else if in_range 49 57 c
      then let '(ds, r) := span_digits s1 in Some (sign ++ c :: ds, r)
      else None
  | [] => None
  end.

Definition match_integer (s : str) : option (str * str) :=
  match s with
  | c :: s1 =>
      if N.eqb c 45 then match_integer_after [45%N] s1
      else match_integer_after [] s
  | [] => None
  end.

Definition match_frac (s : str) : str * str :=
  match s with
  | c :: s1 =>
      if N.eqb c 46 then
        match span_digits s1 with
        | ([], _) => ([], s)
        | (ds, r) => (c :: ds, r)
        end
      else ([], s)
  | [] => ([], s)
  end.

Definition match_exp (s : str) : str * str :=
  match s with
  | c :: s1 =>
      if N.eqb c 101 || N.eqb c 69 then
        let '(sign, s2) :=
          match s1 with
          | g :: s' =>
              if N.eqb g 45 || N.eqb g 43 then ([g], s') else ([], s1)
          | [] => ([], s1)
          end in
        match span_digits s2 with
        | ([], _) => ([], s)
        | (ds, r) => (c :: sign ++ ds, r)
        end
      else ([], s)
  | [] => ([], s)
  end.

Definition match_number (s : str) : option (str * str * str * str) :=
  match match_integer s with
  | None => None
  | Some (integer, s1) =>
      let '(frac, s2) := match_frac s1 in
      let '(exp, s3) := match_exp s2 in
      Some (integer, frac, exp, s3)
  end.

Definition digit_of_char (c : N) : Decimal.uint -> Decimal.uint :=
  match (c - 48)%N with
  | 0 => Decimal.D0 | 1 => Decimal.D1 | 2 => Decimal.D2 | 3 => Decimal.D3
  | 4 => Decimal.D4 | 5 => Decimal.D5 | 6 => Decimal.D6 | 7 => Decimal.D7
  | 8 => Decimal.D8 | _ => Decimal.D9
  end%N.

Definition uint_of_digits (ds : str) : Decimal.uint :=
  fold_right digit_of_char Decimal.Nil ds.

(** [int(s)] for [s] matched by the first group of NUMBER_RE. *)
Definition int_of_literal (s : str) : Z :=
  match s with
  | c :: ds =>
      if N.eqb c 45 then Z.of_int (Decimal.Neg (uint_of_digits ds))
      else Z.of_int (Decimal.Pos (uint_of_digits s))
  | [] => 0%Z
  end.

(** [JSONArray]: the loop over the items, [s] being at the next value;
    [fuel] bounds the iterations, each of which consumes input. *)
Fixpoint array_items (scan_once : str -> result (pyval * str))
    (fuel : nat) (values : list pyval) (s : str) : result (pyval * str) :=
  match fuel with
  | O => Raise OutOfFuel
  | S fuel' =>
      ' (value, s1) <- expecting_value (scan_once s) ;;
      let values := values ++ [value] in
      match skip_ws s1 with
      | c :: s2 =>
          if N.eqb c 93 then Ok (PList values, s2)
          else if N.eqb c 44 then
            array_items scan_once fuel' values (skip_ws s2)
          else Raise (JSONDecodeError "Expecting ',' delimiter")
      | [] => Raise (JSONDecodeError "Expecting ',' delimiter")
      end
  end.

Definition JSONArray (scan_once : str -> result (pyval * str)) (s : str)
  : result (pyval * str) :=
  match skip_ws s with
  | c :: s1 =>
      if N.eqb c 93 then Ok (PList [], s1)
      else array_items scan_once (S (length s)) [] (skip_ws s)
  | [] => array_items scan_once (S (length s)) [] (skip_ws s)
  end.

Definition property_name_expected : exn :=
  JSONDecodeError "Expecting property name enclosed in double quotes".

(** [JSONObject]: the loop over the members, [s] being what follows the
    opening quote of the next key. *)
Fixpoint object_members (scan_once : str -> result (pyval * str))
    (fuel : nat) (pairs : list (str * pyval)) (s : str)
  : result (pyval * str) :=
  match fuel with
  | O => Raise OutOfFuel
  | S fuel' =>
      ' (key, s1) <- scanstring s [] ;;
      match skip_ws s1 with
      | c :: s2 =>
          if N.eqb c 58 then
            ' (value, s3) <- expecting_value (scan_once (skip_ws s2)) ;;
            let pairs := pairs ++ [(key, value)] in
            match skip_ws s3 with
            | c' :: s4 =>
                if N.eqb c' 125 then Ok (PDict (dict_of_pairs pairs), s4)
                else if N.eqb c' 44 then
                  match skip_ws s4 with
                  | q :: s5 =>
                      if N.eqb q 34
                      then object_members scan_once fuel' pairs s5
                      else Raise property_name_expected
                  | [] => Raise property_name_expected
                  end
                else Raise (JSONDecodeError "Expecting ',' delimiter")
            | [] => Raise (JSONDecodeError "Expecting ',' delimiter")
            end
          else Raise (JSONDecodeError "Expecting ':' delimiter")
      | [] => Raise (JSONDecodeError "Expecting ':' delimiter")
      end
  end.

Definition JSONObject (scan_once : str -> result (pyval * str)) (s : str)
  : result (pyval * str) :=
  match skip_ws s with
  | c :: s1 =>
      if N.eqb c 125 then Ok (PDict [], s1)
      else if N.eqb c 34 then object_members scan_once (S (length s)) [] s1
      else Raise property_name_expected
  | [] => Raise property_name_expected
  end.

(** The branches of [scan_once] for the values that are not strings,
    objects or arrays: null, true, false, a number, NaN and the
    infinities. *)
Definition scan_literal (s : str) : result (pyval * str) :=
  if startswith (lit "null") s then Ok (PNone, skipn 4 s)
  else if startswith (lit "true") s then Ok (PBool true, skipn 4 s)
  else if startswith (lit "false") s then Ok (PBool false, skipn 5 s)
  else
    match match_number s with
    | Some (integer, frac, exp, r) =>
        match frac, exp with
        | [], [] => Ok (PInt (int_of_literal integer), r)
        | _, _ => Ok (PFloat (float_of_literal (integer ++ frac ++ exp)), r)
        end
    | None =>
        if startswith (lit "NaN") s then Ok (PFloat float_nan, skipn 3 s)
        else if startswith (lit "Infinity") s
        then Ok (PFloat float_inf, skipn 8 s)
        else if startswith (lit "-Infinity") s
        then Ok (PFloat float_neg_inf, skipn 9 s)
        else Raise StopIteration
    end.

(** [scan_once(string, idx)]; [depth] bounds the nesting of containers. *)
Fixpoint scan_once (depth : nat) (s : str) : result (pyval * str) :=
  match depth with
  | O => Raise OutOfFuel
  | S depth' =>
      match s with
      | [] => Raise StopIteration
      | c :: s1 =>
          if N.eqb c 34 then
            ' (x, r) <- scanstring s1 [] ;; Ok (PStr x, r)
          else if N.eqb c 123 then JSONObject (scan_once depth') s1
          else if N.eqb c 91 then JSONArray (scan_once depth') s1
          else scan_literal s
      end
  end.

(** [JSONDecoder().raw_decode(s)]: the value and the text after it. *)
Definition raw_decode (s : str) : result (pyval * str) :=
  expecting_value (scan_once (S (length s)) s).

(* ------------------------------------------------------------------ *)
(** * [json.encoder]: [json.dumps(obj, ensure_ascii=False,
      separators=(",", ":"))] *)
(* ------------------------------------------------------------------ *)

Definition hex_digit (n : N) : N :=
  if N.ltb n 10 then (48 + n)%N else (87 + n)%N.

(** ESCAPE_DCT: what [encode_basestring] writes for one character. *)
Definition escape_char (c : N) : str :=
  if N.eqb c 92 then [92; 92]%N
  else if N.eqb c 34 then [92; 34]%N
  else if N.eqb c 8 then [92; 98]%N
  else if N.eqb c 12 then [92; 102]%N
  else if N.eqb c 10 then [92; 110]%N
  else if N.eqb c 13 then [92; 114]%N
  else if N.eqb c 9 then [92; 116]%N
  else if N.ltb c 32
  then [92; 117; 48; 48; hex_digit (c / 16); hex_digit (c mod 16)]%N
  else [c].

Definition encode_basestring (s : str) : str :=
  [34%N] ++ flat_map escape_char s ++ [34%N].

Fixpoint uint_digits (u : Decimal.uint) : str :=
  match u with
  | Decimal.Nil => []
  | Decimal.D0 u' => 48%N :: uint_digits u'
  | Decimal.D1 u' => 49%N :: uint_digits u'
  | Decimal.D2 u' => 50%N :: uint_digits u'
  | Decimal.D3 u' => 51%N :: uint_digits u'
  | Decimal.D4 u' => 52%N :: uint_digits u'
  | Decimal.D5 u' => 53%N :: uint_digits u'
  | Decimal.D6 u' => 54%N :: uint_digits u'
  | Decimal.D7 u' => 55%N :: uint_digits u'
  | Decimal.D8 u' => 56%N :: uint_digits u'
  | Decimal.D9 u' => 57%N :: uint_digits u'
  end.

(** [int.__repr__] *)
Definition int_repr (z : Z) : str :=
  match Z.to_int z with
  | Decimal.Pos u => uint_digits u
  | Decimal.Neg u => 45%N :: uint_digits u
  end.

(** [sep.join(parts)] *)
Fixpoint join (sep : str) (parts : list str) : str :=
  match parts with
  | [] => []
  | [p] => p
  | p :: ps => p ++ sep ++ join sep ps
  end.

Fixpoint dumps (obj : pyval) : str :=
  match obj with
  | PNone => lit "null"
  | PBool true => lit "true"
  | PBool false => lit "false"
  | PInt z => int_repr z
  | PFloat f => floatstr f
  | PStr s => encode_basestring s
  | PList l => [91%N] ++ join [44%N] (List.map dumps l) ++ [93%N]
  | PDict d =>
      [123%N]
      ++ join [44%N]
           (List.map (fun kv => let '(k, v) := kv in
                                encode_basestring k ++ [58%N] ++ dumps v) d)
      ++ [125%N]
  end.

(* ------------------------------------------------------------------ *)
(** * [src/executor.py]: the deterministic sanitizers *)
(* ------------------------------------------------------------------ *)

Definition fence : str := lit "```".
Definition json_fence : str := lit "```json".

(** The text after the fences are removed (lines 41-49). *)
Definition strip_fences (text : str) : str :=
  let s := strip text in
  let s := if startswith fence s
           then lstrip (slice_from 3 (replace_first json_fence fence s))
           else s in
  if endswith fence s then rstrip (slice_drop_last 3 s) else s.

Definition extract_first_json_value (text : pyval) : result pyval :=
  match text with
  | PStr (c :: t) =>
      let s := strip_fences (c :: t) in
      let first_curly := find 123 s in
      let first_square := find 91 s in
      let starts :=
        filter (fun p => negb (Z.eqb p (-1))) [first_curly; first_square] in
      match starts with
      | [] => Raise (ValueError "no JSON start found")
      | p :: ps =>
          let start := fold_left Z.min ps p in
          let s := slice_from (Z.to_nat start) s in
          ' (obj, _) <- raw_decode s ;;
          Ok obj
      end
  | _ => Raise (ValueError "empty/non-string text")
  end.

Definition trailing_punctuation : list N := [41; 93; 46; 44; 59; 34; 39]%N.

(** The while loop of [_normalize_url]; it runs at most [len(u)] times. *)
Fixpoint strip_trailing (fuel : nat) (u : str) : str :=
  match fuel with
  | O => u
  | S fuel' =>
      match u with
      | [] => u
      | _ :: _ =>
          if mem (last u 0%N) trailing_punctuation
          then strip_trailing fuel' (removelast u)
          else u
      end
  end.

(** [u] is a [str], or [None] for an absent one. *)
Definition normalize_url (u : option str) : str :=
  let u := strip (match u with Some s => s | None => [] end) in
  let u := strip_trailing (length u) u in
  strip u.

Definition url_key : str := lit "url".

(** What the loop body of [_sanitize_links] stores under key [k]. *)
Definition sanitize_entry (rec : pyval -> pyval) (k : str) (v : pyval)
  : pyval :=
  if str_eqb k url_key then
    match v with
    | PStr s => PStr (normalize_url (Some s))
    | _ => rec v
    end
  else rec v.

Fixpoint sanitize_links (obj : pyval) : pyval :=
  match obj with
  | PDict d =>
      PDict (fold_left
               (fun acc kv => let '(k, v) := kv in
                              dict_set k (sanitize_entry sanitize_links k v) acc)
               d d)
  | PList l => PList (List.map sanitize_links l)
  | _ => obj
  end.

Definition is_blank (s : str) : bool :=
  match strip s with [] => true | _ => false end.

Definition sanitize_json_str (raw : pyval) : pyval :=
  match raw with
  | PStr s =>
      if is_blank s then raw
      else
        match (' obj <- extract_first_json_value raw ;;
               Ok (PStr (dumps (sanitize_links obj)))) with
        | Ok out => out
        | Raise _ => raw
        end
  | _ => raw
  end.

(* ------------------------------------------------------------------ *)
(** * [src/executor.py]: the after-agent callbacks *)
(* ------------------------------------------------------------------ *)

(** An agent as the callbacks see it: its [output_key], if it has one. *)
Record agent : Type := { output_key : option str }.

(** A callback context: [agent] ([None] when absent) and [state]. *)
Record callback_context : Type := {
  ctx_agent : option agent;
  ctx_state : pyval
}.

(** The callbacks return [None]; what they do is to the state, which is
    what the model returns. *)
Definition after_agent_sanitize_json (cc : callback_context) : pyval :=
  match ctx_agent cc, ctx_state cc with
  | Some a, PDict state =>
      match output_key a with
      | Some (c :: k) =>
          match dict_get (c :: k) state with
          | Some (PStr raw) =>
              PDict (dict_set (c :: k) (sanitize_json_str (PStr raw)) state)
          | _ => PDict state
          end
      | _ => PDict state
      end
  | _, state => state
  end.

Definition final_summary_key : str := lit "final_summary".

Definition after_agent_trim_final_summary (cc : callback_context) : pyval :=
  match ctx_state cc with
  | PDict state =>
      match dict_get final_summary_key state with
      | Some (PStr fs) => PDict (dict_set final_summary_key (PStr (strip fs)) state)
      | _ => PDict state
      end
  | state => state
  end.

End Values.

(* ------------------------------------------------------------------ *)
(** * [datetime]: dates, [strptime(_, "%Y-%m-%d")], instants *)
(* ------------------------------------------------------------------ *)

Record date : Type := { year : Z; month : Z; day : Z }.

(** A naive [datetime]: its date and the microseconds since midnight. *)
Record datetime : Type := { dt_date : date; dt_micros : Z }.

Definition is_leap (y : Z) : bool :=
  Z.eqb (y mod 4) 0 && (negb (Z.eqb (y mod 100) 0) || Z.eqb (y mod 400) 0).

Definition days_in_month (y m : Z) : Z :=
  if Z.eqb m 2 then (if is_leap y then 29 else 28)%Z
  else if Z.eqb m 4 || Z.eqb m 6 || Z.eqb m 9 || Z.eqb m 11 then 30%Z
  else 31%Z.

Definition days_before_year (y : Z) : Z :=
  let y := (y - 1)%Z in (y * 365 + y / 4 - y / 100 + y / 400)%Z.

Definition days_before_month (y m : Z) : Z :=
  (nth (Z.to_nat m) [0; 0; 31; 59; 90; 120; 151; 181; 212; 243; 273; 304; 334] 0
   + (if Z.ltb 2 m && is_leap y then 1 else 0))%Z.

(** [date.toordinal()]: 1 for 0001-01-01. *)
Definition toordinal (d : date) : Z :=
  (days_before_year (year d) + days_before_month (year d) (month d) + day d)%Z.

(** [date(y, m, d)] raises ValueError outside these bounds. *)
Definition valid_date (d : date) : bool :=
  Z.leb 1 (year d) && Z.leb (year d) 9999
  && Z.leb 1 (month d) && Z.leb (month d) 12
  && Z.leb 1 (day d) && Z.leb (day d) (days_in_month (year d) (month d)).

(** An instant on the time line on which naive datetimes are compared:
    the ordinal of the day and the microseconds since midnight. *)
Definition instant : Type := (Z * Z)%type.

Definition instant_lt (a b : instant) : bool :=
  Z.ltb (fst a) (fst b) || (Z.eqb (fst a) (fst b) && Z.ltb (snd a) (snd b)).

Definition max_ordinal : Z := 3652059.     (* 9999-12-31 *)

(** [t - datetime.timedelta(days=n)], as an instant. *)
Definition minus_days (t : datetime) (n : Z) : result instant :=
  if Z.ltb 999999999 (Z.abs n) then Raise OverflowError
  else
    let o := (toordinal (dt_date t) - n)%Z in
    if Z.ltb 0 o && Z.leb o max_ordinal then Ok (o, dt_micros t)
    else Raise OverflowError.

Section Papers.
Context {L : PyLib}.

(** The class \d of a [str] pattern: a decimal digit of any script. *)
Definition decimal_value (c : N) : option Z :=
  if is_digit c then Some (Z.of_N (c - 48))
  else if N.ltb c 128 then None
  else option_map Z.of_N (unicode_nd c).

(** (?P<Y>\d\d\d\d) *)
Definition match_Y (s : str) : option (Z * str) :=
  match s with
  | a :: b :: c :: d :: r =>
      match decimal_value a, decimal_value b, decimal_value c,
            decimal_value d with
      | Some x, Some y, Some z, Some w =>
          Some ((((x * 10 + y) * 10 + z) * 10 + w)%Z, r)
      | _, _, _, _ => None
      end
  | _ => None
  end.

(** (?P<m>1[0-2]|0[1-9]|[1-9]) followed by the hyphen of the format. *)
Definition match_m_hyphen (s : str) : option (Z * str) :=
  match s with
  | a :: b :: c :: r =>
      if N.eqb a 49 && in_range 48 50 b && N.eqb c 45
      then Some ((10 + Z.of_N (b - 48))%Z, r)
      else if N.eqb a 48 && in_range 49 57 b && N.eqb c 45
      then Some (Z.of_N (b - 48), r)
      else if in_range 49 57 a && N.eqb b 45
      then Some (Z.of_N (a - 48), c :: r)
      else None
  | [a; b] =>
      if in_range 49 57 a && N.eqb b 45 then Some (Z.of_N (a - 48), [])
      else None
  | _ => None
  end.

(** (?P<d>3[0-1]|[1-2]\d|0[1-9]|[1-9]| [1-9]): the first alternative that
    matches, and what it leaves. *)
Definition match_d (s : str) : option (Z * str) :=
  match s with
  | [] => None
  | a :: s1 =>
      let two :=
        match s1 with
        | b :: r =>
            if N.eqb a 51 && in_range 48 49 b
            then Some ((30 + Z.of_N (b - 48))%Z, r)
            else if in_range 49 50 a then
              match decimal_value b with
              | Some y => Some ((Z.of_N (a - 48) * 10 + y)%Z, r)
              | None => None
              end
            else if N.eqb a 48 && in_range 49 57 b
            then Some (Z.of_N (b - 48), r)
            else None
        | [] => None
        end in
      match two with
      | Some m => Some m
      | None =>
          if in_range 49 57 a then Some (Z.of_N (a - 48), s1)
          else
            match s1 with
            | b :: r =>
                if N.eqb a 32 && in_range 49 57 b
                then Some (Z.of_N (b - 48), r)
                else None
            | [] => None
            end
      end
  end.

(** [datetime.strptime(s, "%Y-%m-%d")], [None] when it raises; the result
    is at midnight, so only its date is kept. *)
Definition strptime_ymd (s : str) : option date :=
  match match_Y s with
  | Some (y, h :: s1) =>
      if N.eqb h 45 then
        match match_m_hyphen s1 with
        | Some (m, s2) =>
            match match_d s2 with
            | Some (d, []) =>
                let dt := {| year := y; month := m; day := d |} in
                if valid_date dt then Some dt else None
            | _ => None
            end
        | None => None
        end
      else None
  | _ => None
  end.

(* ------------------------------------------------------------------ *)
(** * [src/executor.py]: [search_papers_func] *)
(* ------------------------------------------------------------------ *)

(** An author of a feed entry ([a.name] fails when the key is missing). *)
Record author : Type := { author_name : option str }.

(** A feed entry: the five keys the function reads, [None] when the entry
    does not have the key. *)
Record entry : Type := {
  published : option str;
  title : option str;
  authors : option (list author);
  link : option str;
  summary : option str
}.

(** [entry.get(key, default)] *)
Definition get {A} (field : option A) (default : A) : A :=
  match field with Some x => x | None => default end.

(** [x or ""] for [x] a [str]: the empty string is the only falsy one. *)
Definition or_empty (x : str) : str :=
  match x with [] => [] | _ :: _ => x end.

(** [a.name] *)
Definition name (a : author) : result str :=
  match author_name a with
  | Some n => Ok n
  | None => Raise (AttributeError "object has no attribute 'name'")
  end.

(** [[a.name for a in l]] *)
Fixpoint names (l : list author) : result (list pyval) :=
  match l with
  | [] => Ok []
  | a :: l' =>
      ' n <- name a ;;
      ' ns <- names l' ;;
      Ok (PStr n :: ns)
  end.

(** The [try] around [strptime]: [None] on any failure. *)
Definition published_dt (e : entry) : option date :=
  strptime_ymd (slice_to 10 (get (published e) [])).

(** [published_dt and published_dt < cutoff_date] *)
Definition too_old (p : option date) (cutoff_date : instant) : bool :=
  match p with
  | Some d => instant_lt (toordinal d, 0%Z) cutoff_date
  | None => false
  end.

(** The record appended for an entry that is kept. *)
Definition paper (e : entry) (y : Z) (who : list pyval) : pyval :=
  PDict [ (lit "title", PStr (strip (or_empty (get (title e) []))));
          (lit "authors", PList who);
          (lit "year", PInt y);
          (lit "venue", PStr (lit "arXiv"));
          (lit "url", PStr (or_empty (get (link e) [])));
          (lit "summary", PStr (strip (or_empty (get (summary e) [])))) ].

(** The loop over [feed.entries]. *)
Fixpoint collect_papers (now : datetime) (cutoff_date : instant)
    (entries : list entry) (papers : list pyval) : result (list pyval) :=
  match entries with
  | [] => Ok papers
  | e :: rest =>
      let p := published_dt e in
      if too_old p cutoff_date then
        collect_papers now cutoff_date rest papers
      else
        let y := match p with
                 | Some d => year d
                 | None => year (dt_date now)
                 end in
        ' who <- names (get (authors e) []) ;;
        collect_papers now cutoff_date rest (papers ++ [paper e y who])
  end.

(** [provider search_query max_results] stands for the request and the
    parsing of the feed: the entries, or the exception of [httpx.get] or
    [raise_for_status]. [now] is the reading of [utcnow()]. *)
Definition search_papers_func
    (provider : str -> Z -> result (list entry)) (now : datetime)
    (query : str) (days_back max_results : Z) : result pyval :=
  let search_query :=
    lit "all:" ++ List.map (fun c => if N.eqb c 32 then 43%N else c) query in
  let max_results := Z.max 1 (Z.min max_results 20) in
  ' entries <- provider search_query max_results ;;
  ' cutoff_date <- minus_days now days_back ;;
  ' papers <- collect_papers now cutoff_date entries [] ;;
  Ok (PDict [(lit "papers", PList papers)]).

End Papers.

(* ------------------------------------------------------------------ *)
(** * [src/executor.py]: the agents, as the callbacks see them *)
(* ------------------------------------------------------------------ *)

Definition paper_agent : agent := {| output_key := Some (lit "papers_result") |}.
Definition repo_agent : agent := {| output_key := Some (lit "repos_result") |}.
Definition blog_agent : agent := {| output_key := Some (lit "blogs_result") |}.
Definition analyst_agent : agent := {| output_key := Some (lit "final_summary") |}.

(** [parallel_research_agent.sub_agents] *)
Definition parallel_research_agents : list agent :=
  [paper_agent; repo_agent; blog_agent].

(* ------------------------------------------------------------------ *)
(** * [os.getenv] and [get_model] *)
(* ------------------------------------------------------------------ *)

(** [os.getenv(name)], [None] when the variable is not set. *)
Fixpoint getenv (environ : list (str * str)) (name : str) : option str :=
  match environ with
  | [] => None
  | (k, v) :: environ' => if str_eqb name k then Some v else getenv environ' name
  end.

Definition get_model (environ : list (str * str)) (name_env default : str) : str :=
  match getenv environ name_env with Some v => v | None => default end.

(* ------------------------------------------------------------------ *)
(** * [src/executor.py]: [search_repos_func] *)
(* ------------------------------------------------------------------ *)

(** The exceptions of the repository search: those above and two more. *)
Inductive fault : Type :=
| Exn (e : exn)
| TypeError (msg : string)
| DictSlice.      (* [d[:n]] for a dict: TypeError up to Python 3.11,
                     KeyError from 3.12 on, where a slice can be hashed *)

Inductive outcome (A : Type) : Type :=
| Done (a : A)
| Failed (f : fault).
Arguments Done {A} a.
Arguments Failed {A} f.

Definition and_then {A B} (r : outcome A) (k : A -> outcome B) : outcome B :=
  match r with
  | Done a => k a
  | Failed f => Failed f
  end.

Notation "' p <~ r ;; k" := (and_then r (fun p => k))
  (at level 61, p pattern, r at next level, right associativity).

Definition lift {A} (r : result A) : outcome A :=
  match r with
  | Ok a => Done a
  | Raise e => Failed (Exn e)
  end.

(** What the repository search needs of a float besides [PyLib]: its truth
    value and [int(f)], which raises ValueError for NaN and OverflowError
    for the infinities. *)
Class PyFloat (L : PyLib) : Type := {
  float_bool : float -> bool;
  int_of_float : float -> result Z
}.

Section Repos.
Context {L : PyLib} {F : PyFloat L}.

(** [bool(v)] *)
Definition truthy (v : pyval) : bool :=
  match v with
  | PNone => false
  | PBool b => b
  | PInt z => negb (Z.eqb z 0)
  | PFloat f => float_bool f
  | PStr s => match s with [] => false | _ :: _ => true end
  | PList l => match l with [] => false | _ :: _ => true end
  | PDict d => match d with [] => false | _ :: _ => true end
  end.

(** [x or y] *)
Definition or_else (x y : pyval) : pyval := if truthy x then x else y.

(** [obj.get(key, default)]: only a dict has the method. *)
Definition get_or (obj : pyval) (key : str) (default : pyval) : outcome pyval :=
  match obj with
  | PDict d =>
      Done (match dict_get key d with Some v => v | None => default end)
  | _ => Failed (Exn (AttributeError "object has no attribute 'get'"))
  end.

(** The characters [int(s)] skips at both ends: the ASCII whitespace, and
    the other whitespace of Unicode, which it first turns into spaces. *)
Definition int_space (c : N) : bool :=
  if N.ltb c 127 then in_range 9 13 c || N.eqb c 32 else isspace c.

Fixpoint skip_int_space (s : str) : str :=
  match s with
  | [] => []
  | c :: s' => if int_space c then skip_int_space s' else s
  end.

(** The digits after the first one, single underscores allowed between
    two digits; [acc] is the value read so far. *)
Fixpoint int_digits (s : str) (acc : Z) : option (Z * str) :=
  match s with
  | [] => Some (acc, [])
  | c :: s1 =>
      match decimal_value c with
      | Some d => int_digits s1 (acc * 10 + d)%Z
      | None =>
          if N.eqb c 95 then
            match s1 with
            | c2 :: s2 =>
                match decimal_value c2 with
                | Some d => int_digits s2 (acc * 10 + d)%Z
                | None => None
                end
            | [] => None
            end
          else Some (acc, s)
      end
  end.

Definition int_unsigned (s : str) : option Z :=
  match s with
  | c :: s1 =>
      match decimal_value c with
      | Some d =>
          match int_digits s1 d with
          | Some (z, r) =>
              match skip_int_space r with [] => Some z | _ :: _ => None end
          | None => None
          end
      | None => None
      end
  | [] => None
  end.

(** [int(s)] for a [str], in base 10; [None] for ValueError. *)
Definition int_of_str (s : str) : option Z :=
  match skip_int_space s with
  | c :: s1 =>
      if N.eqb c 45 then option_map Z.opp (int_unsigned s1)
      else if N.eqb c 43 then int_unsigned s1
      else int_unsigned (c :: s1)
  | [] => None
  end.

(** [int(v)] *)
Definition py_int (v : pyval) : outcome Z :=
  match v with
  | PInt z => Done z
  | PBool b => Done (if b then 1 else 0)%Z
  | PFloat f => lift (int_of_float f)
  | PStr s =>
      match int_of_str s with
      | Some z => Done z
      | None => Failed (Exn (ValueError "invalid literal for int() with base 10"))
      end
  | PNone | PList _ | PDict _ =>
      Failed (TypeError "int() argument must be a string, a bytes-like object or a real number")
  end.

(** The record appended for one item. *)
Definition repo (item : pyval) : outcome pyval :=
  ' full_name <~ get_or item (lit "full_name") PNone ;;
  ' html_url <~ get_or item (lit "html_url") PNone ;;
  ' description <~ get_or item (lit "description") PNone ;;
  ' stargazers_count <~ get_or item (lit "stargazers_count") (PInt 0) ;;
  ' stars <~ py_int (or_else stargazers_count (PInt 0)) ;;
  ' updated_at <~ get_or item (lit "updated_at") PNone ;;
  Done (PDict [ (lit "name", or_else full_name (PStr []));
                (lit "url", or_else html_url (PStr []));
                (lit "description", or_else description (PStr []));
                (lit "stars", PInt stars);
                (lit "last_updated", or_else updated_at (PStr [])) ]).

(** [items[:n]] as the sequence the loop runs over: a slice of a list, the
    characters of a slice of a [str]. *)
Definition slice_items (items : pyval) (n : nat) : outcome (list pyval) :=
  match items with
  | PList l => Done (firstn n l)
  | PStr s => Done (List.map (fun c => PStr [c]) (firstn n s))
  | PDict _ => Failed DictSlice
  | PNone | PBool _ | PInt _ | PFloat _ =>
      Failed (TypeError "object is not subscriptable")
  end.

(** The loop over [items[:max_results]]. *)
Fixpoint collect_repos (items : list pyval) (repos : list pyval)
  : outcome (list pyval) :=
  match items with
  | [] => Done repos
  | item :: rest =>
      ' r <~ repo item ;;
      collect_repos rest (repos ++ [r])
  end.

(** [provider params headers] stands for the request and [resp.json()]:
    the decoded body, or the exception of [httpx.get], [raise_for_status]
    or [json]. *)
Definition search_repos_func
    (provider : list (str * pyval) -> list (str * pyval) -> result pyval)
    (environ : list (str * str)) (query : str) (max_results : Z)
  : outcome pyval :=
  let max_results := Z.max 1 (Z.min max_results 10) in
  let token := getenv environ (lit "GITHUB_TOKEN") in
  let headers :=
    [ (lit "Accept", PStr (lit "application/vnd.github+json"));
      (lit "User-Agent", PStr (lit "ai-research-scout")) ] in
  let headers :=
    match token with
    | Some (c :: t) =>
        dict_set (lit "Authorization") (PStr (lit "Bearer " ++ c :: t)) headers
    | _ => headers
    end in
  let params :=
    [ (lit "q", PStr query); (lit "sort", PStr (lit "stars"));
      (lit "order", PStr (lit "desc")); (lit "per_page", PInt max_results) ] in
  ' data <~ lift (provider params headers) ;;
  ' items <~ get_or data (lit "items") (PList []) ;;
  ' first <~ slice_items items (Z.to_nat max_results) ;;
  ' repos <~ collect_repos first [] ;;
  Done (PDict [(lit "repos", PList repos)]).

End Repos.

(* ------------------------------------------------------------------ *)
(** * [json.encoder]: [json.dumps(obj)] and [json.dumps(obj, indent=2)] *)
(* ------------------------------------------------------------------ *)

(** Four lower-case hexadecimal digits. *)
Definition hex4 (n : N) : str :=
  [ hex_digit (n / 4096); hex_digit ((n / 256) mod 16);
    hex_digit ((n / 16) mod 16); hex_digit (n mod 16) ]%N.

(** What [encode_basestring_ascii] writes for one character: the characters
    from the space to the tilde stand for themselves, but for the backslash
    and the double quote, which have their entries in ESCAPE_DCT like the
    control characters; anything else is written as \uXXXX, as a pair of
    surrogates from U+10000 on. *)
Definition escape_char_ascii (c : N) : str :=
  if N.ltb c 127 then escape_char c
  else if N.ltb c 65536 then [92; 117]%N ++ hex4 c
  else
    let n := (c - 65536)%N in
    let s1 := N.lor 55296 (N.land (N.shiftr n 10) 1023) in
    let s2 := N.lor 56320 (N.land n 1023) in
    [92; 117]%N ++ hex4 s1 ++ [92; 117]%N ++ hex4 s2.

Definition encode_basestring_ascii (s : str) : str :=
  [34%N] ++ flat_map escape_char_ascii s ++ [34%N].

Section Encoders.
Context {L : PyLib}.

(** [json.dumps(obj)]: ensure_ascii, separators ", " and ": ". *)
Fixpoint dumps_default (obj : pyval) : str :=
  match obj with
  | PNone => lit "null"
  | PBool true => lit "true"
  | PBool false => lit "false"
  | PInt z => int_repr z
  | PFloat f => floatstr f
  | PStr s => encode_basestring_ascii s
  | PList l =>
      [91%N] ++ join [44; 32]%N (List.map dumps_default l) ++ [93%N]
  | PDict d =>
      [123%N]
      ++ join [44; 32]%N
           (List.map (fun kv => let '(k, v) := kv in
                        encode_basestring_ascii k ++ [58; 32]%N
                        ++ dumps_default v) d)
      ++ [125%N]
  end.

(** A newline and the indentation of [level], two spaces a level. *)
Definition newline_indent (level : nat) : str :=
  nl ++ repeat 32%N (2 * level).

(** [json.dumps(obj, indent=2)], [level] being the current indentation
    level: an empty list or dict on one line, the items of another one each
    on a line of its own. *)
Fixpoint dumps_indent (level : nat) (obj : pyval) : str :=
  match obj with
  | PNone => lit "null"
  | PBool true => lit "true"
  | PBool false => lit "false"
  | PInt z => int_repr z
  | PFloat f => floatstr f
  | PStr s => encode_basestring_ascii s
  | PList [] => lit "[]"
  | PList l =>
      [91%N] ++ newline_indent (S level)
      ++ join ([44%N] ++ newline_indent (S level))
           (List.map (dumps_indent (S level)) l)
      ++ newline_indent level ++ [93%N]
  | PDict [] => lit "{}"
  | PDict d =>
      [123%N] ++ newline_indent (S level)
      ++ join ([44%N] ++ newline_indent (S level))
           (List.map (fun kv => let '(k, v) := kv in
                        encode_basestring_ascii k ++ [58; 32]%N
                        ++ dumps_indent (S level) v) d)
      ++ newline_indent level ++ [125%N]
  end.

End Encoders.

(* ------------------------------------------------------------------ *)
(** * [datetime.isoformat] *)
(* ------------------------------------------------------------------ *)

(** The decimal digit of [n] at the position of [unit] (1, 10, 100, ...). *)
Definition digit_at (unit n : Z) : N := Z.to_N (48 + (n / unit) mod 10).

(** %02d, %04d and %06d, for the numbers of a date and a time. *)
Definition two_digits (n : Z) : str := [digit_at 10 n; digit_at 1 n].
Definition four_digits (n : Z) : str :=
  [digit_at 1000 n; digit_at 100 n; digit_at 10 n; digit_at 1 n].
Definition six_digits (n : Z) : str :=
  [ digit_at 100000 n; digit_at 10000 n; digit_at 1000 n; digit_at 100 n;
    digit_at 10 n; digit_at 1 n ].

(** [date.isoformat()] *)
Definition isoformat_date (d : date) : str :=
  four_digits (year d) ++ [45%N] ++ two_digits (month d) ++ [45%N]
  ++ two_digits (day d).

(** [datetime.isoformat()] of a naive datetime: the microseconds are
    written when they are not zero. *)
Definition isoformat (t : datetime) : str :=
  let us := dt_micros t in
  isoformat_date (dt_date t) ++ [84%N]
  ++ two_digits (us / 3600000000)%Z ++ [58%N]
  ++ two_digits ((us / 60000000) mod 60)%Z ++ [58%N]
  ++ two_digits ((us / 1000000) mod 60)%Z
  ++ (if Z.eqb (us mod 1000000) 0 then []
      else [46%N] ++ six_digits (us mod 1000000)%Z).

(* ------------------------------------------------------------------ *)
(** * [src/memory.py]: [log_state] *)
(* ------------------------------------------------------------------ *)

(** What [log_state] acts on: the text printed so far, the files that exist
    with their contents, and, for a path that cannot be opened for
    appending, the text of the exception that [open] raises. A file that
    was opened is written in full. *)
Record world : Type := {
  stdout : str;
  files : list (str * str);
  open_error : str -> option str
}.

(** [print(text)] *)
Definition print (text : str) (w : world) : world :=
  {| stdout := stdout w ++ text ++ nl;
     files := files w;
     open_error := open_error w |}.

(** The files after [text] was appended to the file at [path], which is
    created when it does not exist. *)
Fixpoint file_append (path text : str) (fs : list (str * str))
  : list (str * str) :=
  match fs with
  | [] => [(path, text)]
  | (p, content) :: fs' =>
      if str_eqb path p then (p, content ++ text) :: fs'
      else (p, content) :: file_append path text fs'
  end.

Fixpoint file_content (path : str) (fs : list (str * str)) : option str :=
  match fs with
  | [] => None
  | (p, content) :: fs' =>
      if str_eqb path p then Some content else file_content path fs'
  end.

Section Memory.
Context {L : PyLib}.

(** [final_state.get(key, "N/A")] *)
Definition get_or_na (final_state : list (str * pyval)) (key : str) : pyval :=
  match dict_get key final_state with
  | Some v => v
  | None => PStr (lit "N/A")
  end.

Definition log_entry (now : datetime) (user_request : str)
    (final_state : list (str * pyval)) : pyval :=
  PDict [ (lit "timestamp", PStr (isoformat now));
          (lit "user_request", PStr user_request);
          (lit "final_summary", get_or_na final_state (lit "final_summary"));
          (lit "plan_generated", get_or_na final_state (lit "plan_json")) ].

(** [now] is the reading of [datetime.datetime.now()]. *)
Definition log_state (now : datetime) (user_request : str)
    (final_state : list (str * pyval)) (logfile : str) (w : world) : world :=
  let entry := log_entry now user_request final_state in
  let w := print (nl ++ lit "--- [memory.py] Logging run details ---") w in
  let w := print (slice_to 1000 (dumps_indent 0 entry) ++ lit "...") w in
  match open_error w logfile with
  | None =>
      {| stdout := stdout w;
         files := file_append logfile (dumps_default entry ++ nl) (files w);
         open_error := open_error w |}
  | Some e =>
      print (lit "[memory.py] Warning: could not write to " ++ logfile
             ++ lit ": " ++ e) w
  end.

End Memory.

(* ------------------------------------------------------------------ *)
(** * The vocabulary of the properties *)
(* ------------------------------------------------------------------ *)

(** [t] is [s] without its leading and trailing whitespace. *)
Definition trimmed (s t : str) : Prop :=
  exists l r,
    s = l ++ t ++ r
    /\ Forall (fun c => isspace c = true) l
    /\ Forall (fun c => isspace c = true) r
    /\ (t = [] \/ (isspace (hd 0%N t) = false /\ isspace (last t 0%N) = false)).

(** [t] is [s] without its longest suffix made of the characters of
    [chars]. *)
Definition suffix_stripped (chars : list N) (s t : str) : Prop :=
  exists p,
    s = t ++ p
    /\ Forall (fun c => In c chars) p
    /\ (t = [] \/ ~ In (last t 0%N) chars).

(** The punctuation set as the data model of the specification lists it:
    ) { ] . space , ; double quote, apostrophe. *)
Definition listed_punctuation : list N :=
  [41; 123; 93; 46; 32; 44; 59; 34; 39]%N.

(** Whitespace stands directly before the run of punctuation that ends the
    trimmed [u]: the case in which the second trim of [_normalize_url]
    uncovers punctuation again. *)
Definition space_before_punctuation (u : str) : bool :=
  let a := strip u in
  let b := strip_trailing (length a) a in
  match b with
  | [] => false
  | _ :: _ => isspace (last b 0%N)
  end.

(** What may follow a value inside a compact JSON text. *)
Definition delimited (rest : str) : Prop :=
  match rest with
  | [] => True
  | c :: _ => c = 44%N \/ c = 93%N \/ c = 125%N
  end.

(** What a text that [scan_once] accepts can start with: no JSON
    whitespace, no closing bracket or brace, no comma. *)
Definition value_head (s : str) : Prop :=
  match s with
  | [] => False
  | c :: _ =>
      is_json_ws c = false /\ c <> 93%N /\ c <> 125%N /\ c <> 44%N
  end.

(** What [scanstring] finds after a high surrogate escape: a low surrogate
    escape to pair it with ([Some (Some lo)]), nothing to pair it with
    ([Some None]), or a broken escape ([None]). *)
Definition surrogate_lookahead (s : str) : option (option N) :=
  match s with
  | b1 :: u1 :: k1 :: k2 :: k3 :: k4 :: _ =>
      if N.eqb b1 92 && N.eqb u1 117 then
        match decode_uXXXX k1 k2 k3 k4 with
        | None => None
        | Some uni2 => if is_low_surrogate uni2 then Some (Some uni2)
                       else Some None
        end
      else Some None
  | _ => Some None
  end.

(** What may follow a value inside a JSON text: whitespace, a comma, or a
    closing bracket or brace. *)
Definition closes (t : str) : Prop :=
  match t with
  | [] => False
  | c :: _ => is_json_ws c = true \/ c = 44%N \/ c = 93%N \/ c = 125%N
  end.

Definition no_digit_ahead (t : str) : Prop :=
  match t with [] => True | c :: _ => is_digit c = false end.

(** A code point of a Python [str]. *)
Definition code_point (c : N) : bool := N.ltb c 1114112.

(** A code point of a well-formed text: no surrogate. *)
Definition scalar_value (c : N) : bool :=
  N.ltb c 1114112 && negb (in_range 55296 57343 c).

(** A printable ASCII character. *)
Definition printable (c : N) : bool := in_range 32 126 c.

(** [needle in s] *)
Fixpoint contains (needle s : str) : bool :=
  startswith needle s
  || match s with
     | [] => false
     | _ :: s' => contains needle s'
     end.

Section Vocabulary.
Context {L : PyLib}.

(** The strings stored under a key equal to url, at any depth. *)
Fixpoint url_strings (v : pyval) : list str :=
  match v with
  | PDict d =>
      flat_map (fun kv => let '(k, x) := kv in
                  (if str_eqb k url_key
                   then match x with PStr s => [s] | _ => [] end
                   else [])
                  ++ url_strings x) d
  | PList l => flat_map url_strings l
  | _ => []
  end.

(** The floats of a value. *)
Fixpoint floats_of (v : pyval) : list float :=
  match v with
  | PFloat f => [f]
  | PDict d => flat_map (fun kv => let '(_, x) := kv in floats_of x) d
  | PList l => flat_map floats_of l
  | _ => []
  end.

(** The keys of every [dict] of a value are pairwise distinct, as they are
    in any Python [dict]. *)
Fixpoint unique_keys (v : pyval) : Prop :=
  match v with
  | PDict d =>
      NoDup (List.map fst d)
      /\ fold_right (fun kv acc => let '(_, x) := kv in unique_keys x /\ acc)
           True d
  | PList l => fold_right (fun x acc => unique_keys x /\ acc) True l
  | _ => True
  end.

(** The text [floatstr] writes for [f] reads back as [f], which [repr]
    guarantees of every binary64 float. *)
Definition float_rereads (f : float) : Prop :=
  forall rest, delimited rest ->
    scan_once 1 (floatstr f ++ rest) = Ok (PFloat f, rest).

(** [scan] reads the compact text of [x] back as [x]. *)
Definition reads (scan : str -> result (pyval * str)) (x : pyval) : Prop :=
  value_head (dumps x)
  /\ forall rest, delimited rest -> scan (dumps x ++ rest) = Ok (x, rest).

(** The text [dumps] writes for one member of an object. *)
Definition member_text (kv : str * pyval) : str :=
  let '(k, v) := kv in encode_basestring k ++ [58%N] ++ dumps v.

(** On texts of at most [n] characters [scan] does not run out of budget
    and leaves less than it was given. *)
Definition progresses (scan : str -> result (pyval * str)) (n : nat) : Prop :=
  forall s, length s <= n ->
    match scan s with
    | Ok (_, r) => length r < length s
    | Raise e => e <> OutOfFuel
    end.

(** The values that end with a character of their own. *)
Definition self_delimited (v : pyval) : bool :=
  match v with PStr _ | PList _ | PDict _ => true | _ => false end.

(** On texts of at most [n] characters, what [scan] returns depends on
    the characters it consumed only, provided a number or a literal is
    followed by something that may follow a value. *)
Definition stable (scan : str -> result (pyval * str)) (n : nat) : Prop :=
  forall s v r,
    length s <= n -> scan s = Ok (v, r) ->
    exists p,
      p <> [] /\ s = p ++ r
      /\ forall t, length (p ++ t) <= n ->
           self_delimited v = true \/ closes t ->
           scan (p ++ t) = Ok (v, t).

(** [normalize_url] has nothing left to do on the normalised strings. *)
Definition urls_settled (v : pyval) : Prop :=
  Forall (fun u => normalize_url (Some (normalize_url (Some u)))
                   = normalize_url (Some u)) (url_strings v).

Definition is_container (v : pyval) : bool :=
  match v with PList _ | PDict _ => true | _ => false end.

(** The state a callback sees under key [k]. *)
Definition state_get (k : str) (state : pyval) : option pyval :=
  match state with
  | PDict d => dict_get k d
  | _ => None
  end.

Definition state_keys (state : pyval) : list str :=
  match state with
  | PDict d => List.map fst d
  | _ => []
  end.

(** [v] with every string under a url key replaced by the empty string:
    what [_sanitize_links] has no business with. *)
Fixpoint without_urls (v : pyval) : pyval :=
  match v with
  | PDict d =>
      PDict (List.map (fun kv => let '(k, x) := kv in
                (k, if str_eqb k url_key
                    then match x with PStr _ => PStr [] | _ => without_urls x end
                    else without_urls x)) d)
  | PList l => PList (List.map without_urls l)
  | _ => v
  end.

(** The context a callback of agent [a] is given when the state is
    [state]. *)
Definition context_for (a : agent) (state : pyval) : callback_context :=
  {| ctx_agent := Some a; ctx_state := state |}.

(** The sanitising callbacks of [agents] run one after another, in the
    order of the list. *)
Definition run_sanitize_hooks (agents : list agent) (state : pyval) : pyval :=
  fold_left (fun st a => after_agent_sanitize_json (context_for a st))
    agents state.

(** What a callback that rewrites the string under [k] with [f] does to a
    state that is a dict. *)
Definition rewrite_at (k : str) (f : str -> pyval) (d : list (str * pyval))
  : list (str * pyval) :=
  match dict_get k d with
  | Some (PStr raw) => dict_set k (f raw) d
  | _ => d
  end.

(** The entries the recency filter keeps. *)
Definition recent (cutoff : instant) (e : entry) : bool :=
  negb (too_old (published_dt e) cutoff).

(** The record of an entry all of whose authors have a name. *)
Definition paper_record (now : datetime) (e : entry) : pyval :=
  paper e
    (match published_dt e with
     | Some d => year d
     | None => year (dt_date now)
     end)
    (List.map (fun a => PStr (get (author_name a) [])) (get (authors e) [])).

(** Every character of every string and key of [v] satisfies [P]. *)
Fixpoint texts (P : N -> bool) (v : pyval) : Prop :=
  match v with
  | PStr s => Forall (fun c => P c = true) s
  | PList l => fold_right (fun x acc => texts P x /\ acc) True l
  | PDict d =>
      fold_right (fun kv acc => let '(k, x) := kv in
                    Forall (fun c => P c = true) k /\ texts P x /\ acc) True d
  | _ => True
  end.

(** What [floatstr] writes for [f] is printable ASCII, as [repr] is. *)
Definition float_printable (f : float) : Prop :=
  Forall (fun c => printable c = true) (floatstr f).

(** [scan] reads the default text of [x] back as [x]. *)
Definition reads_default (scan : str -> result (pyval * str)) (x : pyval) : Prop :=
  value_head (dumps_default x)
  /\ forall rest, delimited rest -> scan (dumps_default x ++ rest) = Ok (x, rest).

(** The text [dumps_default] writes for one member of an object. *)
Definition member_text_default (kv : str * pyval) : str :=
  let '(k, v) := kv in
  encode_basestring_ascii k ++ [58; 32]%N ++ dumps_default v.

(** A text in the JSON Lines format: lines ended by a newline, each of
    them a JSON text. *)
Definition json_lines (content : str) : Prop :=
  exists lines,
    content = flat_map (fun l => l ++ nl) lines
    /\ Forall (fun l => ~ In 10%N l /\ exists v, raw_decode l = Ok (v, []))
         lines.

(** The length of the compact text of [v], each float counted as one
    character. *)
Fixpoint compact_size (v : pyval) : nat :=
  match v with
  | PNone => 4
  | PBool true => 4
  | PBool false => 5
  | PInt z => length (int_repr z)
  | PFloat _ => 1
  | PStr s => length (encode_basestring s)
  | PList l =>
      match l with
      | [] => 2
      | _ :: _ => 1 + fold_right (fun x acc => compact_size x + 1 + acc) 0 l
      end
  | PDict d =>
      match d with
      | [] => 2
      | _ :: _ =>
          1 + fold_right (fun kv acc => let '(k, x) := kv in
                            length (encode_basestring k) + 1 + compact_size x
                            + 1 + acc) 0 d
      end
  end.

(** The sizes of the items of a list, and of the members of a dict, each
    with the comma or the bracket that follows it. *)
Definition items_size (l : list pyval) : nat :=
  fold_right (fun x acc => compact_size x + 1 + acc) 0 l.

Definition members_size (d : list (str * pyval)) : nat :=
  fold_right (fun kv acc => let '(k, x) := kv in
                length (encode_basestring k) + 1 + compact_size x + 1 + acc)
    0 d.

(** On every text, what [scan] leaves and the compact size of what it
    returns are together no longer than the text. *)
Definition thrifty (scan : str -> result (pyval * str)) : Prop :=
  forall s v r, scan s = Ok (v, r) -> compact_size v + length r <= length s.

End Vocabulary.

Section RepoVocabulary.
Context {L : PyLib} {F : PyFloat L}.

(** A record of the repository search: the five keys in their order, the
    number of stars an [int]. *)
Definition repo_record (r : pyval) : Prop :=
  exists name url description stars last_updated,
    r = PDict [ (lit "name", name); (lit "url", url);
                (lit "description", description); (lit "stars", PInt stars);
                (lit "last_updated", last_updated) ].

(** [d.get(key) or ""] *)
Definition field_or_empty (d : list (str * pyval)) (key : str) : pyval :=
  or_else (match dict_get key d with Some v => v | None => PNone end) (PStr []).

(** The star count of an item of the GitHub schema: an integer, or null or
    missing, which count as 0. *)
Definition star_count (d : list (str * pyval)) : option Z :=
  match dict_get (lit "stargazers_count") d with
  | None | Some PNone => Some 0%Z
  | Some (PInt z) => Some z
  | Some _ => None
  end.

(** The record made of the item [d] with [stars] stars. *)
Definition repo_of (d : list (str * pyval)) (stars : Z) : pyval :=
  PDict [ (lit "name", field_or_empty d (lit "full_name"));
          (lit "url", field_or_empty d (lit "html_url"));
          (lit "description", field_or_empty d (lit "description"));
          (lit "stars", PInt stars);
          (lit "last_updated", field_or_empty d (lit "updated_at")) ].

(** [item] is an object with a star count, and [r] the record of it. *)
Definition repo_for (item r : pyval) : Prop :=
  exists d stars,
    item = PDict d /\ star_count d = Some stars /\ r = repo_of d stars.

(** The items of a response body: the list under items, none when the key
    is missing. *)
Definition items_of (data : list (str * pyval)) (l : list pyval) : Prop :=
  dict_get (lit "items") data = Some (PList l)
  \/ (dict_get (lit "items") data = None /\ l = []).

(** The request of the repository search for [query] in the environment
    [environ]: between 1 and 10 results a page, most stars first, and the
    token, when there is one, as a bearer token. *)
Definition repo_request (environ : list (str * str)) (query : str)
    (params headers : list (str * pyval)) : Prop :=
  dict_get (lit "q") params = Some (PStr query)
  /\ dict_get (lit "sort") params = Some (PStr (lit "stars"))
  /\ dict_get (lit "order") params = Some (PStr (lit "desc"))
  /\ (exists n, dict_get (lit "per_page") params = Some (PInt n)
                /\ (1 <= n <= 10)%Z)
  /\ dict_get (lit "Authorization") headers
     = match getenv environ (lit "GITHUB_TOKEN") with
       | Some (c :: t) => Some (PStr (lit "Bearer " ++ c :: t))
       | _ => None
       end.

End RepoVocabulary.

(** An interpreter for the concrete evaluations below, none of which
    involves a float or a non-ASCII digit: floats are kept as the text they
    were read from. *)
Definition text_floats : PyLib :=
  {| float := str;
     float_of_literal := fun s => s;
     float_nan := lit "NaN";
     float_inf := lit "Infinity";
     float_neg_inf := lit "-Infinity";
     floatstr := fun s => s;
     unicode_nd := fun _ => None |}.

(** ** The inputs of the concrete evaluations *)

(** A url string in which whitespace stands before the last full stop. *)
Definition spaced_url : pyval (L := text_floats) :=
  PDict [(lit "url", PStr (lit "a. ."))].

Definition spaced_links : pyval (L := text_floats) :=
  PDict [ (lit "url", PStr (lit "a. ."));
          (lit "more", PList [PDict [(lit "url", PStr (lit "a{"))]]) ].

(** A fenced answer with two url fields. *)
Definition fenced_links : str :=
  jlit "```json {'url':'https://example.com/page).', 'refs':[{'url':' x '}, 1]} ```".

(** Today is 2024-03-31, 05:00. *)
Definition today : datetime :=
  {| dt_date := {| year := 2024; month := 3; day := 31 |};
     dt_micros := 18000000000 |}.

Definition entry_31_days_old : entry :=
  {| published := Some (lit "2024-02-29T09:00:00Z");
     title := Some (lit "Old paper");
     authors := Some [ {| author_name := Some (lit "Ada") |} ];
     link := Some (lit "http://arxiv.org/abs/1");
     summary := Some (lit "old") |}.

Definition entry_29_days_old : entry :=
  {| published := Some (lit "2024-03-02T09:00:00Z");
     title := Some (lit " Recent paper ");
     authors := Some [ {| author_name := Some (lit "Ada") |} ];
     link := Some (lit "http://arxiv.org/abs/2");
     summary := None |}.

Definition entry_undated : entry :=
  {| published := Some (lit "last week");
     title := None;
     authors := None;
     link := None;
     summary := None |}.

Definition entry_nameless_author : entry :=
  {| published := Some (lit "2024-03-30T09:00:00Z");
     title := Some (lit "Fresh paper");
     authors := Some [ {| author_name := None |} ];
     link := Some (lit "http://arxiv.org/abs/3");
     summary := Some (lit "fresh") |}.

(** The state after the paper stage has written its output. *)
Definition state_after_papers : pyval (L := text_floats) :=
  PDict [ (lit "plan_json", PStr (jlit "{'days_back':28}"));
          (lit "papers_result",
            PStr (lit "```json" ++ nl ++ jlit "{'papers':[]}" ++ nl ++ lit "```"));
          (lit "final_summary", PStr (lit "  # Executive Summary  ")) ].

Definition paper_stage_context : callback_context (L := text_floats) :=
  {| ctx_agent := Some {| output_key := Some (lit "papers_result") |};
     ctx_state := state_after_papers |}.

(** For the same evaluations, none of which involves a float: the truth
    value and the integer of a float kept as text. *)
Definition text_float_ops : PyFloat text_floats :=
  {| float_bool := fun _ => true;
     int_of_float := fun _ => Raise OverflowError |}.

(** A chatty answer around one object. *)
Definition chatty_answer : str :=
  jlit "Here you go: {'a':[1,2]} - anything else?".

(** A value whose url string is clean. *)
Definition clean_links : pyval (L := text_floats) :=
  PDict [ (lit "url", PStr (lit "https://example.com/page"));
          (lit "stars", PInt 3) ].

(** The state after the three research agents have written their
    outputs. *)
Definition state_after_research : pyval (L := text_floats) :=
  PDict [ (lit "plan_json", PStr (jlit "{'days_back':28}"));
          (lit "papers_result", PStr (jlit "```json {'papers':[]} ```"));
          (lit "repos_result", PStr (jlit "noise {'repos':[{'url':'https://x.org/.'}]}"));
          (lit "final_summary", PStr (lit "  # Executive Summary  ")) ].

(** A feed of three entries, answered to any request. *)
Definition feed (search_query : str) (n : Z) : result (list entry) :=
  Ok [entry_31_days_old; entry_29_days_old; entry_undated].

(** Two items of the GitHub schema, the second with most fields missing
    or null, and a null in the place of a third. *)
Definition item_full : pyval (L := text_floats) :=
  PDict [ (lit "full_name", PStr (lit "owner/project"));
          (lit "html_url", PStr (lit "https://github.com/owner/project"));
          (lit "description", PNone);
          (lit "stargazers_count", PInt 42);
          (lit "updated_at", PStr (lit "2024-05-04T01:44:09Z")) ].

Definition item_bare : pyval (L := text_floats) :=
  PDict [ (lit "full_name", PStr (lit "a/b"));
          (lit "stargazers_count", PNone) ].

Definition github_response : list (str * pyval (L := text_floats)) :=
  [ (lit "total_count", PInt 3);
    (lit "items", PList [item_full; item_bare; PNone]) ].

Definition github (params headers : list (str * pyval (L := text_floats)))
  : result (pyval (L := text_floats)) :=
  Ok (PDict github_response).

(** A response without the null. *)
Definition github_short (params headers : list (str * pyval (L := text_floats)))
  : result (pyval (L := text_floats)) :=
  Ok (PDict [(lit "items", PList [item_full; item_bare])]).

(** A provider that refuses a request for more than 10 results a page. *)
Definition github_strict (params headers : list (str * pyval (L := text_floats)))
  : result (pyval (L := text_floats)) :=
  match dict_get (lit "per_page") params with
  | Some (PInt n) => if Z.leb n 10 then github params headers
                     else Raise RequestError
  | _ => Raise RequestError
  end.

(** A feed that refuses a request for more than 20 results. *)
Definition feed_strict (search_query : str) (n : Z) : result (list entry) :=
  if Z.leb n 20 then feed search_query n else Raise RequestError.

(** A world with a log of one line, in which every file can be opened. *)
Definition one_line_logged : world :=
  {| stdout := [];
     files := [(lit "run_log.jsonl", jlit "{'timestamp': 'earlier'}" ++ nl)];
     open_error := fun _ => None |}.

(** The final state of a run that has no plan. *)
Definition final_state_without_plan : list (str * pyval (L := text_floats)) :=
  [ (lit "final_summary", PStr (lit "# Executive Summary" ++ nl ++ [233%N])) ].

(* ------------------------------------------------------------------ *)
(** * Tactics *)
(* ------------------------------------------------------------------ *)

(** Closes the cases of the frame property in which nothing is written. *)
Ltac frame_trivial :=
  repeat (cbn [state_get state_keys output_key] in *;
          match goal with
          | H : Some _ = Some _ |- _ => inversion H; clear H; subst
          | H : _ \/ _ |- _ => destruct H
          end);
  cbn [state_get state_keys output_key] in *;
  try reflexivity; try congruence.

(** Lengths of concatenations, then linear arithmetic. *)
Ltac lengths :=
  repeat (progress (rewrite ?length_app in *; cbn [length] in *)); lia.

(* ------------------------------------------------------------------ *)
(** * Strings *)
(* ------------------------------------------------------------------ *)

Lemma str_eqb_eq (a b : str) : str_eqb a b = true <-> a = b.
Proof.
  revert b; induction a as [|x a IH]; intros [|y b]; simpl;
    try (split; (discriminate || reflexivity)).
  rewrite andb_true_iff, N.eqb_eq, IH.
  split; [intros [-> ->]; reflexivity | intros H; inversion H; auto].
Qed.

Lemma str_eqb_refl (a : str) : str_eqb a a = true.
Proof. apply str_eqb_eq; reflexivity. Qed.

Lemma str_eqb_neq (a b : str) : str_eqb a b = false <-> a <> b.
Proof.
  rewrite <- str_eqb_eq. destruct (str_eqb a b); split; congruence.
Qed.

Lemma mem_In (c : N) (l : list N) : mem c l = true <-> In c l.
Proof.
  unfold mem. rewrite existsb_exists. split.
  - intros (x & Hx & E). apply N.eqb_eq in E. subst. exact Hx.
  - intros H. exists c. split; [exact H | apply N.eqb_refl].
Qed.

Lemma lstrip_split (s : str) :
  exists l, s = l ++ lstrip s /\ Forall (fun c => isspace c = true) l.
Proof.
  induction s as [|c s (l & E & F)]; simpl.
  - exists []. split; [reflexivity | constructor].
  - destruct (isspace c) eqn:W.
    + exists (c :: l). split; [simpl; f_equal; exact E | constructor; assumption].
    + exists []. split; [reflexivity | constructor].
Qed.

Lemma lstrip_head (s : str) :
  lstrip s = [] \/ isspace (hd 0%N (lstrip s)) = false.
Proof.
  induction s as [|c s IH]; simpl; [left; reflexivity|].
  destruct (isspace c) eqn:W; [exact IH | right; exact W].
Qed.

Lemma lstrip_fixed (s : str) :
  s = [] \/ isspace (hd 0%N s) = false -> lstrip s = s.
Proof.
  destruct s as [|c s]; simpl; [reflexivity|].
  intros [H|H]; [discriminate | rewrite H; reflexivity].
Qed.

Lemma last_rev_hd (s : str) (d : N) : last s d = hd d (rev s).
Proof.
  induction s as [|c s IH] using rev_ind; [reflexivity|].
  rewrite last_last, rev_app_distr. reflexivity.
Qed.

Lemma hd_app (a b : str) (d : N) : a <> [] -> hd d (a ++ b) = hd d a.
Proof. destruct a; [congruence | reflexivity]. Qed.

Lemma rstrip_split (s : str) :
  exists r, s = rstrip s ++ r /\ Forall (fun c => isspace c = true) r.
Proof.
  unfold rstrip. destruct (lstrip_split (rev s)) as (l & E & F).
  exists (rev l). split.
  - rewrite <- rev_app_distr, <- E, rev_involutive. reflexivity.
  - apply Forall_rev. exact F.
Qed.

Lemma rstrip_last (s : str) :
  rstrip s = [] \/ isspace (last (rstrip s) 0%N) = false.
Proof.
  unfold rstrip. rewrite last_rev_hd, rev_involutive.
  destruct (lstrip_head (rev s)) as [H|H]; [left; rewrite H; reflexivity|right; exact H].
Qed.

Lemma rstrip_fixed (s : str) :
  s = [] \/ isspace (last s 0%N) = false -> rstrip s = s.
Proof.
  intros H. unfold rstrip. rewrite lstrip_fixed, rev_involutive; [reflexivity|].
  destruct H as [->|H]; [left; reflexivity|right].
  rewrite <- last_rev_hd. exact H.
Qed.

Lemma rstrip_hd (s : str) :
  rstrip s <> [] -> hd 0%N (rstrip s) = hd 0%N s.
Proof.
  intros NE. destruct (rstrip_split s) as (r & E & _).
  rewrite E at 2. symmetry. apply hd_app. exact NE.
Qed.

(** [strip] removes exactly the whitespace at both ends. *)
Lemma strip_trimmed (s : str) : trimmed s (strip s).
Proof.
  unfold trimmed, strip.
  destruct (lstrip_split s) as (l & El & Fl).
  destruct (rstrip_split (lstrip s)) as (r & Er & Fr).
  exists l, r. repeat split; try assumption.
  - rewrite <- Er. exact El.
  - destruct (rstrip_last (lstrip s)) as [H|H]; [left; exact H|].
    destruct (rstrip (lstrip s)) as [|c t] eqn:E; [left; reflexivity|right].
    split; [|exact H].
    rewrite <- E, rstrip_hd by (rewrite E; discriminate).
    destruct (lstrip_head s) as [H0|H0]; [|exact H0].
    rewrite H0 in E. discriminate.
Qed.

Lemma strip_fixed (s : str) :
  s = [] \/ (isspace (hd 0%N s) = false /\ isspace (last s 0%N) = false) ->
  strip s = s.
Proof.
  intros H. unfold strip.
  rewrite lstrip_fixed by (destruct H as [H|[H _]]; auto).
  apply rstrip_fixed. destruct H as [H|[_ H]]; auto.
Qed.

(* ------------------------------------------------------------------ *)
(** * [_normalize_url] *)
(* ------------------------------------------------------------------ *)

Lemma removelast_length (u : str) : u <> [] -> S (length (removelast u)) = length u.
Proof.
  intros NE. destruct (exists_last NE) as (b & c & ->).
  rewrite removelast_last, length_app. simpl. lia.
Qed.

Lemma strip_trailing_stripped (fuel : nat) (u : str) :
  length u <= fuel ->
  suffix_stripped trailing_punctuation u (strip_trailing fuel u).
Proof.
  revert u; induction fuel as [|fuel IH]; intros u Hlen.
  - destruct u; [|simpl in Hlen; lia].
    exists []. repeat split; [constructor | left; reflexivity].
  - cbn [strip_trailing]. destruct u as [|c u'] eqn:Eu.
    + exists []. repeat split; [constructor | left; reflexivity].
    + rewrite <- Eu in *. assert (NE : u <> []) by (rewrite Eu; discriminate).
      destruct (mem (last u 0%N) trailing_punctuation) eqn:M.
      * destruct (IH (removelast u)) as (p & E & F & T).
        { pose proof (removelast_length u NE). lia. }
        exists (p ++ [last u 0%N]). repeat split.
        -- rewrite app_assoc, <- E. apply app_removelast_last. exact NE.
        -- apply Forall_app. split; [exact F|]. constructor; [|constructor].
           apply mem_In. exact M.
        -- exact T.
      * exists []. repeat split.
        -- rewrite app_nil_r. reflexivity.
        -- constructor.
        -- right. rewrite <- mem_In. rewrite M. discriminate.
Qed.

(** C4. [normalize_url] trims the whitespace around [u] (the empty string
    for an absent [u]), removes the longest suffix made of the characters
    ) ] . , ; double quote and apostrophe, and trims again; an empty or
    absent input gives the empty string, and the trailing ")." of
    https://example.com/page). is removed. *)
Theorem normalize_url_spec :
  (forall u : option str,
      exists a b,
        trimmed (match u with Some s => s | None => [] end) a
        /\ suffix_stripped [41; 93; 46; 44; 59; 34; 39]%N a b
        /\ trimmed b (normalize_url u))
  /\ normalize_url None = []
  /\ normalize_url (Some []) = []
  /\ normalize_url (Some (lit "https://example.com/page)."))
     = lit "https://example.com/page".
Proof.
  split; [|repeat split; reflexivity].
  intros u. unfold normalize_url.
  set (s := match u with Some s => s | None => [] end).
  exists (strip s), (strip_trailing (length (strip s)) (strip s)).
  split; [apply strip_trimmed|]. split; [|apply strip_trimmed].
  apply strip_trailing_stripped. reflexivity.
Qed.

Lemma lstrip_blank (s : str) :
  Forall (fun c => isspace c = true) s -> lstrip s = [].
Proof.
  induction 1 as [|c s W _ IH]; simpl; [reflexivity|]. rewrite W. exact IH.
Qed.

Lemma strip_blank (s : str) :
  Forall (fun c => isspace c = true) s <-> strip s = [].
Proof.
  split.
  - intros F. unfold strip. rewrite lstrip_blank by exact F. reflexivity.
  - intros E. destruct (strip_trimmed s) as (l & r & Es & Fl & Fr & _).
    rewrite E in Es. simpl in Es. subst s. apply Forall_app. split; assumption.
Qed.

Section Dicts.
Context {L : PyLib}.

Lemma dict_get_set_same (k : str) (v : pyval) (d : list (str * pyval)) :
  dict_get k (dict_set k v d) = Some v.
Proof.
  induction d as [|[k' v'] d IH]; simpl.
  - rewrite str_eqb_refl. reflexivity.
  - destruct (str_eqb k k') eqn:E; simpl; rewrite E; [reflexivity | exact IH].
Qed.

Lemma dict_get_set_other (k k' : str) (v : pyval) (d : list (str * pyval)) :
  k' <> k -> dict_get k' (dict_set k v d) = dict_get k' d.
Proof.
  intros NE. induction d as [|[k0 v0] d IH]; simpl.
  - apply str_eqb_neq in NE. rewrite NE. reflexivity.
  - destruct (str_eqb k k0) eqn:E; simpl.
    + apply str_eqb_eq in E. subst k0.
      apply str_eqb_neq in NE. rewrite NE. reflexivity.
    + rewrite IH. reflexivity.
Qed.

Lemma dict_get_In (k : str) (d : list (str * pyval)) :
  dict_get k d <> None <-> In k (List.map fst d).
Proof.
  induction d as [|[k0 v0] d IH]; simpl; [split; [congruence | intros []]|].
  destruct (str_eqb k k0) eqn:E.
  - apply str_eqb_eq in E. subst. split; [auto | discriminate].
  - apply str_eqb_neq in E. rewrite IH. split; [auto | intros [H|H]; congruence].
Qed.

Lemma dict_set_keys (k : str) (v : pyval) (d : list (str * pyval)) :
  In k (List.map fst d) -> List.map fst (dict_set k v d) = List.map fst d.
Proof.
  induction d as [|[k0 v0] d IH]; simpl; [intros []|].
  intros H. destruct (str_eqb k k0) eqn:E; simpl; [reflexivity|].
  f_equal. apply IH. apply str_eqb_neq in E. destruct H; congruence.
Qed.

Lemma dict_set_keys_new (k : str) (v : pyval) (d : list (str * pyval)) :
  ~ In k (List.map fst d) ->
  dict_set k v d = d ++ [(k, v)].
Proof.
  induction d as [|[k0 v0] d IH]; simpl; [reflexivity|].
  intros H. destruct (str_eqb k k0) eqn:E.
  - apply str_eqb_eq in E. subst k0. exfalso. apply H. left. reflexivity.
  - f_equal. apply IH. intros H'. apply H. right. exact H'.
Qed.

End Dicts.

(* ------------------------------------------------------------------ *)
(** * [sanitize_json_str] and the callbacks *)
(* ------------------------------------------------------------------ *)

Section Sanitize.
Context {L : PyLib}.

Lemma sanitize_json_str_cases (raw : pyval) :
  sanitize_json_str raw = raw
  \/ exists s obj,
       raw = PStr s
       /\ strip s <> []
       /\ extract_first_json_value raw = Ok obj
       /\ sanitize_json_str raw = PStr (dumps (sanitize_links obj)).
Proof.
  destruct raw as [| | | |s| |]; try (left; reflexivity).
  unfold sanitize_json_str, is_blank.
  destruct (strip s) eqn:Es; [left; reflexivity|].
  destruct (extract_first_json_value (PStr s)) as [obj|e] eqn:E.
  - right. exists s, obj. split; [reflexivity|]. split; [rewrite Es; discriminate|].
    split; reflexivity.
  - left. reflexivity.
Qed.

(** C1. [sanitize_json_str] is total and never raises: a value that is not
    a string, or a blank string, comes back unchanged; so does any string
    on which the extraction raises; otherwise the result is the compact
    encoding of the sanitised first value. *)
Theorem sanitize_json_str_never_raises (raw : pyval) :
  ((forall s, raw <> PStr s) -> sanitize_json_str raw = raw)
  /\ (forall s, raw = PStr s -> Forall (fun c => isspace c = true) s ->
      sanitize_json_str raw = raw)
  /\ (forall e, extract_first_json_value raw = Raise e ->
      sanitize_json_str raw = raw)
  /\ (sanitize_json_str raw = raw
      \/ exists obj, extract_first_json_value raw = Ok obj
                     /\ sanitize_json_str raw = PStr (dumps (sanitize_links obj)))
  /\ sanitize_json_str (PStr (lit "not json at all"))
     = PStr (lit "not json at all").
Proof.
  repeat split.
  - intros H. destruct raw; try reflexivity. exfalso. eapply H. reflexivity.
  - intros s -> F. unfold sanitize_json_str, is_blank.
    apply strip_blank in F. rewrite F. reflexivity.
  - intros e E. destruct (sanitize_json_str_cases raw) as [H|(s & obj & _ & _ & E' & _)];
      [exact H | congruence].
  - destruct (sanitize_json_str_cases raw) as [H|(s & obj & _ & _ & E' & H)];
      [left; exact H | right; exists obj; split; assumption].
Qed.

(** C9. The callbacks touch at most one key of the state, each its own:
    [after_agent_sanitize_json] replaces the string under the agent's
    [output_key] by its [sanitize_json_str], [after_agent_trim_final_summary]
    the string under final_summary by its [strip]; the keys and their order,
    and the value under every other key, stay as they were; and with no
    string there (no agent, no key, not a dict, key missing or not a
    string) the state is left as it is. *)
Theorem callbacks_touch_own_key_only (cc : callback_context) :
  let state := ctx_state cc in
  let state1 := after_agent_sanitize_json cc in
  let state2 := after_agent_trim_final_summary cc in
  (state_keys state1 = state_keys state
   /\ (forall k, (forall a, ctx_agent cc = Some a -> output_key a <> Some k) ->
                 state_get k state1 = state_get k state)
   /\ (forall a k raw,
          ctx_agent cc = Some a -> output_key a = Some k -> k <> [] ->
          state_get k state = Some (PStr raw) ->
          state_get k state1 = Some (sanitize_json_str (PStr raw)))
   /\ (forall a k,
          ctx_agent cc = Some a -> output_key a = Some k ->
          (forall raw, state_get k state <> Some (PStr raw)) ->
          state1 = state)
   /\ (ctx_agent cc = None -> state1 = state)
   /\ (forall a, ctx_agent cc = Some a ->
                 output_key a = None \/ output_key a = Some [] ->
                 state1 = state))
  /\ (state_keys state2 = state_keys state
      /\ (forall k, k <> final_summary_key ->
                    state_get k state2 = state_get k state)
      /\ (forall fs, state_get final_summary_key state = Some (PStr fs) ->
                     state_get final_summary_key state2 = Some (PStr (strip fs)))
      /\ ((forall fs, state_get final_summary_key state <> Some (PStr fs)) ->
          state2 = state)).
Proof.
  destruct cc as [ag st]. cbn zeta. split.
  - unfold after_agent_sanitize_json. cbn [ctx_agent ctx_state output_key].
    destruct ag as [[[[|c key]|]]|]; destruct st as [| | | | | |d];
      cbn [ctx_agent ctx_state output_key];
      try (repeat split; intros; frame_trivial; fail).
    destruct (dict_get (c :: key) d) as [v|] eqn:G;
      [|repeat split; intros; frame_trivial; fail].
    assert (Hin : In (c :: key) (List.map fst d))
      by (apply dict_get_In; congruence).
    destruct v as [| | | |raw| |];
      try (repeat split; intros; frame_trivial; fail).
    repeat split; intros; frame_trivial.
    + apply dict_set_keys. exact Hin.
    + apply dict_get_set_other. intros ->. eapply H; reflexivity.
    + rewrite dict_get_set_same. congruence.
  - unfold after_agent_trim_final_summary. cbn [ctx_state].
    destruct st as [| | | | | |d];
      try (repeat split; intros; frame_trivial; fail).
    destruct (dict_get final_summary_key d) as [v|] eqn:G;
      [|repeat split; intros; frame_trivial; fail].
    assert (Hin : In final_summary_key (List.map fst d))
      by (apply dict_get_In; congruence).
    destruct v as [| | | |fs| |];
      try (repeat split; intros; frame_trivial; fail).
    repeat split; intros; frame_trivial.
    + apply dict_set_keys. exact Hin.
    + apply dict_get_set_other. exact H.
    + rewrite dict_get_set_same. congruence.
Qed.

End Sanitize.

(* ------------------------------------------------------------------ *)
(** * [_extract_first_json_value] *)
(* ------------------------------------------------------------------ *)

Lemma find_bound (c : N) (s : str) : (-1 <= find c s)%Z.
Proof.
  induction s as [|x s IH]; simpl; [lia|].
  destruct (N.eqb x c); [lia|]. destruct (Z.eqb_spec (find c s) (-1)); lia.
Qed.

Lemma find_absent (c : N) (s : str) : find c s = (-1)%Z <-> ~ In c s.
Proof.
  induction s as [|x s IH]; simpl; [split; [intros _ []|reflexivity]|].
  destruct (N.eqb_spec x c) as [->|NE].
  - split; [discriminate | intros H; exfalso; apply H; left; reflexivity].
  - pose proof (find_bound c s) as B.
    destruct (Z.eqb_spec (find c s) (-1)) as [E|E].
    + split; [|reflexivity]. intros _ [H|H]; [congruence|].
      apply IH in E. apply E. exact H.
    + split; [lia|]. intros H. exfalso. apply E, IH.
      intros H'. apply H. right. exact H'.
Qed.

Lemma find_first (c : N) (pre rest : str) :
  ~ In c pre -> find c (pre ++ c :: rest) = Z.of_nat (length pre).
Proof.
  induction pre as [|x pre IH]; intros H; simpl.
  - rewrite N.eqb_refl. reflexivity.
  - destruct (N.eqb_spec x c) as [->|NE]; [exfalso; apply H; left; reflexivity|].
    rewrite IH by (intros H'; apply H; right; exact H').
    destruct (Z.eqb_spec (Z.of_nat (length pre)) (-1)); lia.
Qed.

Lemma find_later (c c' : N) (pre rest : str) :
  c' <> c -> ~ In c' pre ->
  find c' (pre ++ c :: rest) = (-1)%Z
  \/ (Z.of_nat (length pre) < find c' (pre ++ c :: rest))%Z.
Proof.
  intros NE. induction pre as [|x pre IH]; intros H; simpl.
  - destruct (N.eqb_spec c c'); [congruence|].
    pose proof (find_bound c' rest) as B.
    destruct (Z.eqb_spec (find c' rest) (-1)); [left; reflexivity | right; lia].
  - destruct (N.eqb_spec x c') as [->|NE']; [exfalso; apply H; left; reflexivity|].
    destruct IH as [E|E]; [intros H'; apply H; right; exact H'| |].
    + rewrite E. left. reflexivity.
    + destruct (Z.eqb_spec (find c' (pre ++ c :: rest)) (-1)); [lia|right; lia].
Qed.

Lemma skipn_app_exact (pre rest : str) : skipn (length pre) (pre ++ rest) = rest.
Proof. induction pre; simpl; auto. Qed.

Section Extract.
Context {L : PyLib}.

(** What [_extract_first_json_value] does once the fences are gone and the
    earliest brace or bracket is at [pre ++ c :: rest]. *)
Lemma extract_at_first_start (text pre rest : str) (c : N) :
  text <> [] ->
  strip_fences text = pre ++ c :: rest ->
  c = 123%N \/ c = 91%N -> ~ In 123%N pre -> ~ In 91%N pre ->
  extract_first_json_value (PStr text)
  = (' (obj, _) <- raw_decode (c :: rest) ;; Ok obj).
Proof.
  intros NE E Hc H1 H2. destruct text as [|t0 text]; [congruence|].
  unfold extract_first_json_value. rewrite E.
  assert (Hskip : slice_from (Z.to_nat (Z.of_nat (length pre))) (pre ++ c :: rest)
                  = c :: rest).
  { rewrite Nat2Z.id. apply skipn_app_exact. }
  destruct Hc as [-> | ->].
  - rewrite (find_first _ _ rest H1).
    pose proof (find_later 123%N 91%N pre rest ltac:(discriminate) H2) as F.
    cbn [filter].
    destruct (Z.eqb_spec (Z.of_nat (length pre)) (-1)); [lia|].
    destruct (Z.eqb_spec (find 91%N (pre ++ 123%N :: rest)) (-1));
      cbn [negb fold_left]; rewrite ?Z.min_l by lia; rewrite Hskip; reflexivity.
  - rewrite (find_first _ _ rest H2).
    pose proof (find_later 91%N 123%N pre rest ltac:(discriminate) H1) as F.
    cbn [filter].
    destruct (Z.eqb_spec (find 123%N (pre ++ 91%N :: rest)) (-1));
      (destruct (Z.eqb_spec (Z.of_nat (length pre)) (-1)); [lia|]);
      cbn [negb fold_left]; rewrite ?Z.min_r by lia; rewrite Hskip; reflexivity.
Qed.

Lemma extract_no_start (text : str) :
  text <> [] ->
  ~ In 123%N (strip_fences text) -> ~ In 91%N (strip_fences text) ->
  extract_first_json_value (PStr text)
  = Raise (ValueError "no JSON start found").
Proof.
  intros NE H1 H2. destruct text as [|t0 text]; [congruence|].
  unfold extract_first_json_value.
  apply find_absent in H1, H2. rewrite H1, H2. reflexivity.
Qed.

End Extract.

(* ------------------------------------------------------------------ *)
(** * [search_papers_func] *)
(* ------------------------------------------------------------------ *)

Section PaperSearch.
Context {L : PyLib}.

Lemma collect_papers_dropped now cutoff e rest papers :
  too_old (published_dt e) cutoff = true ->
  collect_papers now cutoff (e :: rest) papers
  = collect_papers now cutoff rest papers.
Proof. intros H. cbn [collect_papers]. rewrite H. reflexivity. Qed.

Lemma collect_papers_kept now cutoff e rest papers who :
  too_old (published_dt e) cutoff = false ->
  names (get (authors e) []) = Ok who ->
  collect_papers now cutoff (e :: rest) papers
  = collect_papers now cutoff rest
      (papers ++ [paper e (match published_dt e with
                           | Some d => year d
                           | None => year (dt_date now)
                           end) who]).
Proof.
  intros H N. cbn [collect_papers]. rewrite H, N. reflexivity.
Qed.

Lemma collect_papers_nameless now cutoff e rest papers msg :
  too_old (published_dt e) cutoff = false ->
  names (get (authors e) []) = Raise msg ->
  collect_papers now cutoff (e :: rest) papers = Raise msg.
Proof.
  intros H N. cbn [collect_papers]. rewrite H, N. reflexivity.
Qed.

Lemma names_named (l : list author) :
  Forall (fun a => author_name a <> None) l -> exists who, names l = Ok who.
Proof.
  induction 1 as [|a l Ha _ [who IH]]; [exists []; reflexivity|].
  cbn [names]. unfold name. destruct (author_name a) as [n|]; [|congruence].
  cbn [bind]. rewrite IH. cbn [bind]. eauto.
Qed.

(** When every author has a name, the loop returns, with one record for
    each entry that is not too old. *)
Lemma collect_papers_named now cutoff entries papers :
  Forall (fun e => Forall (fun a => author_name a <> None)
                     (get (authors e) [])) entries ->
  exists added,
    collect_papers now cutoff entries papers = Ok (papers ++ added)
    /\ length added
       = length (filter (fun e => negb (too_old (published_dt e) cutoff))
                   entries).
Proof.
  intros F. revert papers. induction F as [|e rest He _ IH]; intros papers.
  - exists []. rewrite app_nil_r. split; reflexivity.
  - cbn [collect_papers filter].
    destruct (too_old (published_dt e) cutoff) eqn:T; cbn [negb].
    + apply IH.
    + destruct (names_named _ He) as [who N]. rewrite N. cbn [bind].
      destruct (IH (papers ++ [paper e (match published_dt e with
                                        | Some d => year d
                                        | None => year (dt_date now)
                                        end) who])) as (added & E & Len).
      eexists (_ :: added). rewrite E, <- app_assoc. cbn [app length].
      split; [reflexivity | congruence].
Qed.


End PaperSearch.

(* ------------------------------------------------------------------ *)
(** * Values: induction, keys, [_sanitize_links] *)
(* ------------------------------------------------------------------ *)

Section ValueFacts.
Context {L : PyLib}.

(** Induction over a value and, for a container, over its members. *)
Lemma pyval_ind (P : pyval -> Prop) :
  P PNone -> (forall b, P (PBool b)) -> (forall z, P (PInt z)) ->
  (forall f, P (PFloat f)) -> (forall s, P (PStr s)) ->
  (forall l, Forall P l -> P (PList l)) ->
  (forall d, Forall (fun kv => P (snd kv)) d -> P (PDict d)) ->
  forall v, P v.
Proof.
  intros HN HB HI HF HS HL HD.
  refine (fix IH (v : pyval) : P v :=
            match v with
            | PNone => HN
            | PBool b => HB b
            | PInt z => HI z
            | PFloat f => HF f
            | PStr s => HS s
            | PList l =>
                HL l ((fix all (l : list pyval) : Forall P l :=
                         match l with
                         | [] => Forall_nil _
                         | x :: l' => Forall_cons x (IH x) (all l')
                         end) l)
            | PDict d =>
                HD d ((fix all (d : list (str * pyval))
                        : Forall (fun kv => P (snd kv)) d :=
                         match d with
                         | [] => Forall_nil _
                         | (k, x) :: d' =>
                             Forall_cons (k, x) (IH x) (all d')
                         end) d)
            end).
Qed.

Lemma unique_keys_list (l : list pyval) :
  unique_keys (PList l) <-> Forall unique_keys l.
Proof.
  cbn [unique_keys]. induction l as [|x l IH]; cbn [fold_right].
  - split; constructor.
  - rewrite IH. split; [intros [? ?]; constructor; assumption|].
    intros H. inversion H. split; assumption.
Qed.

Lemma unique_keys_dict (d : list (str * pyval)) :
  unique_keys (PDict d)
  <-> NoDup (List.map fst d) /\ Forall (fun kv => unique_keys (snd kv)) d.
Proof.
  cbn [unique_keys].
  assert (H : fold_right (fun (kv : str * pyval) acc =>
                let '(_, x) := kv in unique_keys x /\ acc) True d
              <-> Forall (fun kv => unique_keys (snd kv)) d).
  { induction d as [|[k x] d IH]; cbn [fold_right].
    - split; constructor.
    - rewrite IH. split; [intros [? ?]; constructor; assumption|].
      intros H. inversion H. split; assumption. }
  rewrite H. reflexivity.
Qed.

Lemma dict_set_at (k : str) (v v' : pyval) (done rest : list (str * pyval)) :
  ~ In k (List.map fst done) ->
  dict_set k v' (done ++ (k, v) :: rest) = done ++ (k, v') :: rest.
Proof.
  induction done as [|[k0 v0] done IH]; intros H; cbn [dict_set app].
  - rewrite str_eqb_refl. reflexivity.
  - destruct (str_eqb k k0) eqn:E.
    + apply str_eqb_eq in E. subst. exfalso. apply H. left. reflexivity.
    + rewrite IH; [reflexivity|]. intros H'. apply H. right. exact H'.
Qed.

(** Assigning to every key of a [dict] in turn rewrites it in place. *)
Lemma assign_each (f : str -> pyval -> pyval) (done items : list (str * pyval)) :
  NoDup (List.map fst (done ++ items)) ->
  fold_left (fun acc kv => let '(k, v) := kv in dict_set k (f k v) acc)
    items (done ++ items)
  = done ++ List.map (fun kv => (fst kv, f (fst kv) (snd kv))) items.
Proof.
  revert done. induction items as [|[k v] items IH]; intros done ND.
  - reflexivity.
  - cbn [fold_left List.map fst snd].
    assert (Hk : ~ In k (List.map fst done)).
    { rewrite map_app in ND. cbn in ND. apply NoDup_remove_2 in ND.
      intros H. apply ND. apply in_or_app. left. exact H. }
    rewrite dict_set_at by exact Hk.
    change (done ++ (k, f k v) :: items) with (done ++ [(k, f k v)] ++ items).
    rewrite app_assoc. rewrite IH.
    + rewrite <- app_assoc. reflexivity.
    + rewrite <- app_assoc. cbn [app].
      rewrite map_app in ND |- *. exact ND.
Qed.

Lemma sanitize_links_dict (d : list (str * pyval)) :
  NoDup (List.map fst d) ->
  sanitize_links (PDict d)
  = PDict (List.map (fun kv => (fst kv, sanitize_entry sanitize_links (fst kv) (snd kv))) d).
Proof.
  intros ND. cbn [sanitize_links]. f_equal.
  apply (assign_each (sanitize_entry sanitize_links) [] d). exact ND.
Qed.

Lemma sanitize_links_keys (d : list (str * pyval)) :
  List.map fst
    (List.map (fun kv : str * pyval =>
                 (fst kv, sanitize_entry sanitize_links (fst kv) (snd kv))) d)
  = List.map fst d.
Proof. rewrite map_map. reflexivity. Qed.

Lemma sanitize_links_unique_keys (v : pyval) :
  unique_keys v -> unique_keys (sanitize_links v).
Proof.
  induction v as [| | | | |l IH|d IH] using pyval_ind; intros U;
    try exact U.
  - cbn [sanitize_links]. apply unique_keys_list in U. apply unique_keys_list.
    apply Forall_map. rewrite Forall_forall in *. intros x Hx. auto.
  - apply unique_keys_dict in U. destruct U as [ND U].
    rewrite sanitize_links_dict by exact ND. apply unique_keys_dict.
    rewrite sanitize_links_keys. split; [exact ND|].
    apply Forall_map. rewrite Forall_forall in *. intros [k x] Hx.
    cbn [fst snd]. specialize (IH _ Hx). specialize (U _ Hx). cbn [snd] in IH, U.
    unfold sanitize_entry. destruct (str_eqb k url_key); [|auto].
    destruct x; auto.
Qed.

Lemma sanitize_links_floats (P : float -> Prop) (v : pyval) :
  unique_keys v ->
  Forall P (floats_of v) -> Forall P (floats_of (sanitize_links v)).
Proof.
  induction v as [| | | | |l IH|d IH] using pyval_ind; intros U F;
    try exact F.
  - cbn [sanitize_links floats_of] in *. apply unique_keys_list in U.
    induction l as [|x l IHl]; [constructor|].
    cbn [List.map flat_map] in *. apply Forall_app in F. destruct F as [F1 F2].
    inversion IH; subst. inversion U; subst.
    apply Forall_app. split; auto.
  - apply unique_keys_dict in U. destruct U as [ND U].
    rewrite sanitize_links_dict by exact ND. clear ND.
    cbn [floats_of] in *.
    induction d as [|[k x] d IHd]; [constructor|].
    cbn [List.map flat_map fst snd] in *. apply Forall_app in F. destruct F as [F1 F2].
    inversion IH; subst. inversion U; subst. cbn [snd] in *.
    apply Forall_app. split; [|auto].
    unfold sanitize_entry. destruct (str_eqb k url_key); [|auto].
    destruct x; auto.
Qed.

(** Every string found under url after the pass is [normalize_url] of the
    string that was there. *)
Lemma sanitize_links_urls (v : pyval) :
  unique_keys v ->
  forall u, In u (url_strings (sanitize_links v)) ->
  exists u0, In u0 (url_strings v) /\ u = normalize_url (Some u0).
Proof.
  induction v as [| | | | |l IH|d IH] using pyval_ind; intros U u Hu;
    try (cbn in Hu; contradiction).
  - cbn [sanitize_links url_strings] in *. apply unique_keys_list in U.
    rewrite flat_map_concat_map, map_map, <- flat_map_concat_map in Hu.
    apply in_flat_map in Hu. destruct Hu as (x & Hx & Hu).
    rewrite Forall_forall in IH, U.
    destruct (IH x Hx (U x Hx) u Hu) as (u0 & H0 & E).
    exists u0. split; [|exact E]. apply in_flat_map. exists x. auto.
  - apply unique_keys_dict in U. destruct U as [ND U].
    rewrite sanitize_links_dict in Hu by exact ND.
    cbn [url_strings] in *.
    rewrite flat_map_concat_map, map_map, <- flat_map_concat_map in Hu.
    apply in_flat_map in Hu. destruct Hu as ([k x] & Hx & Hu).
    cbn [fst snd] in Hu. rewrite Forall_forall in IH, U.
    specialize (IH _ Hx). specialize (U _ Hx). cbn [snd] in IH, U.
    assert (Hrec : In u (url_strings (sanitize_links x)) ->
                   exists u0, In u0 (flat_map
                     (fun kv : str * pyval => let '(k, x) := kv in
                        (if str_eqb k url_key
                         then match x with PStr s => [s] | _ => [] end
                         else []) ++ url_strings x) d)
                     /\ u = normalize_url (Some u0)).
    { intros H. destruct (IH U u H) as (u0 & H0 & E). exists u0.
      split; [|exact E]. apply in_flat_map. exists (k, x).
      split; [exact Hx|]. apply in_or_app. right. exact H0. }
    unfold sanitize_entry in Hu. destruct (str_eqb k url_key) eqn:K.
    + destruct x as [| | | |s| |];
        try (apply in_app_or in Hu; destruct Hu as [[]|Hu]; auto; fail).
      cbn in Hu. destruct Hu as [<-|[]].
      exists s. split; [|reflexivity]. apply in_flat_map. exists (k, PStr s).
      split; [exact Hx|]. rewrite K. left. reflexivity.
    + cbn [app] in Hu. auto.
Qed.

(** A second pass changes nothing once the url strings are settled. *)
Lemma sanitize_links_idempotent (v : pyval) :
  unique_keys v -> urls_settled v ->
  sanitize_links (sanitize_links v) = sanitize_links v.
Proof.
  unfold urls_settled.
  induction v as [| | | | |l IH|d IH] using pyval_ind; intros U S;
    try reflexivity.
  - cbn [sanitize_links url_strings] in *. apply unique_keys_list in U.
    f_equal. rewrite map_map. apply map_ext_in. intros x Hx.
    rewrite Forall_forall in IH, U. apply (IH x Hx (U x Hx)).
    rewrite Forall_forall in S |- *. intros u Hu. apply S.
    apply in_flat_map. exists x. auto.
  - apply unique_keys_dict in U. destruct U as [ND U].
    rewrite sanitize_links_dict by exact ND.
    rewrite sanitize_links_dict by (rewrite sanitize_links_keys; exact ND).
    f_equal. rewrite map_map. apply map_ext_in. intros [k x] Hx.
    cbn [fst snd]. f_equal.
    rewrite Forall_forall in IH, U. specialize (IH _ Hx). specialize (U _ Hx).
    cbn [snd] in IH, U.
    assert (Sx : Forall (fun u => normalize_url (Some (normalize_url (Some u)))
                                  = normalize_url (Some u)) (url_strings x)).
    { rewrite Forall_forall in S |- *. intros u Hu. apply S.
      cbn [url_strings]. apply in_flat_map. exists (k, x).
      split; [exact Hx|]. apply in_or_app. right. exact Hu. }
    unfold sanitize_entry. destruct (str_eqb k url_key) eqn:K; [|auto].
    destruct x as [| | | |s| |]; try (cbn [sanitize_links]; reflexivity);
      try (apply (IH U Sx)).
    f_equal. rewrite Forall_forall in S. apply S.
      cbn [url_strings]. apply in_flat_map. exists (k, PStr s).
      split; [exact Hx|]. rewrite K. left. reflexivity.
Qed.

End ValueFacts.

(* ------------------------------------------------------------------ *)
(** * Reading back what the encoder writes: strings and integers *)
(* ------------------------------------------------------------------ *)

Lemma below_32 (P : N -> Prop) :
  (forall n : nat, (n < 32)%nat -> P (N.of_nat n)) ->
  forall c : N, (c < 32)%N -> P c.
Proof.
  intros H c Hc. rewrite <- (N2Nat.id c). apply H. lia.
Qed.

Lemma escape_control (c : N) :
  (c < 32)%N ->
  decode_uXXXX 48 48 (hex_digit (c / 16)) (hex_digit (c mod 16)) = Some c
  /\ is_high_surrogate c = false.
Proof.
  revert c. apply below_32. intros n Hn.
  do 32 (destruct n as [|n]; [vm_compute; split; reflexivity|]). lia.
Qed.

(** One character written by [encode_basestring] is read back as such. *)
Lemma scanstring_escape_char (c : N) (t acc : str) :
  scanstring (escape_char c ++ t) acc = scanstring t (c :: acc).
Proof.
  unfold escape_char.
  destruct (N.eqb_spec c 92) as [->|N92]; [reflexivity|].
  destruct (N.eqb_spec c 34) as [->|N34]; [reflexivity|].
  destruct (N.eqb_spec c 8) as [->|N8]; [reflexivity|].
  destruct (N.eqb_spec c 12) as [->|N12]; [reflexivity|].
  destruct (N.eqb_spec c 10) as [->|N10]; [reflexivity|].
  destruct (N.eqb_spec c 13) as [->|N13]; [reflexivity|].
  destruct (N.eqb_spec c 9) as [->|N9]; [reflexivity|].
  destruct (N.ltb_spec c 32) as [Lt|Ge].
  - destruct (escape_control c Lt) as [D H].
    cbn [app scanstring]. cbn [N.eqb Pos.eqb].
    rewrite D, H. reflexivity.
  - cbn [app scanstring].
    destruct (N.eqb_spec c 34); [congruence|].
    destruct (N.eqb_spec c 92); [congruence|].
    destruct (N.ltb_spec c 32); [lia|]. reflexivity.
Qed.

Lemma scanstring_escaped (s t acc : str) :
  scanstring (flat_map escape_char s ++ 34%N :: t) acc = Ok (rev acc ++ s, t).
Proof.
  revert acc. induction s as [|c s IH]; intros acc.
  - cbn. rewrite app_nil_r. reflexivity.
  - cbn [flat_map]. rewrite <- app_assoc, scanstring_escape_char, IH.
    cbn [rev]. rewrite <- app_assoc. reflexivity.
Qed.

Lemma scan_once_string (depth : nat) (s t : str) {L : PyLib} :
  scan_once (S depth) (encode_basestring s ++ t) = Ok (PStr s, t).
Proof.
  unfold encode_basestring. cbn [app scan_once]. cbn [N.eqb Pos.eqb].
  rewrite <- app_assoc. cbn [app]. rewrite scanstring_escaped. reflexivity.
Qed.

(** Decimal digits. *)
Lemma uint_of_digits_digits (u : Decimal.uint) :
  uint_of_digits (uint_digits u) = u.
Proof.
  induction u; cbn [uint_digits uint_of_digits fold_right];
    try reflexivity; fold (uint_of_digits (uint_digits u)); rewrite IHu;
    reflexivity.
Qed.

Lemma uint_digits_are_digits (u : Decimal.uint) :
  Forall (fun c => is_digit c = true) (uint_digits u).
Proof. induction u; cbn [uint_digits]; constructor; auto. Qed.

Lemma span_digits_all (ds rest : str) :
  Forall (fun c => is_digit c = true) ds ->
  match rest with [] => True | c :: _ => is_digit c = false end ->
  span_digits (ds ++ rest) = (ds, rest).
Proof.
  intros F R. induction F as [|c ds Hc F IH]; cbn [app].
  - destruct rest as [|c rest]; [reflexivity|].
    cbn [span_digits]. rewrite R. reflexivity.
  - cbn [span_digits]. rewrite Hc, IH. reflexivity.
Qed.

Lemma nzhead_head (u : Decimal.uint) :
  match Decimal.nzhead u with Decimal.D0 _ => False | _ => True end.
Proof. induction u; cbn; auto. Qed.

Lemma pos_to_uint_head (p : positive) :
  match Pos.to_uint p with
  | Decimal.Nil | Decimal.D0 _ => False
  | _ => True
  end.
Proof.
  pose proof (DecimalPos.Unsigned.to_of (Pos.to_uint p)) as H.
  rewrite DecimalPos.Unsigned.of_to in H. cbn [N.to_uint] in H.
  pose proof (DecimalPos.Unsigned.to_uint_nonzero p) as NZ.
  pose proof (nzhead_head (Pos.to_uint p)) as NH.
  unfold Decimal.unorm in H.
  destruct (Decimal.nzhead (Pos.to_uint p)) eqn:E; rewrite H; try exact I.
  - apply NZ. exact H.
  - exact NH.
Qed.

(** The digits of [int_repr] are matched as one integer and nothing else
    when what follows cannot continue a number. *)
Lemma match_number_int_repr (z : Z) (rest : str) :
  delimited rest ->
  match_number (int_repr z ++ rest) = Some (int_repr z, [], [], rest).
Proof.
  intros D.
  assert (R : match rest with [] => True | c :: _ => is_digit c = false end).
  { destruct rest as [|c rest]; [exact I|].
    destruct D as [->|[->| ->]]; reflexivity. }
  assert (F : forall r, r = rest -> match_frac r = ([], r)).
  { intros r ->. destruct rest as [|c rest]; [reflexivity|].
    destruct D as [->|[->| ->]]; reflexivity. }
  assert (E : forall r, r = rest -> match_exp r = ([], r)).
  { intros r ->. destruct rest as [|c rest]; [reflexivity|].
    destruct D as [->|[->| ->]]; reflexivity. }
  assert (U : forall sign p,
             match_integer_after sign (uint_digits (Pos.to_uint p) ++ rest)
             = Some (sign ++ uint_digits (Pos.to_uint p), rest)).
  { intros sign p. pose proof (pos_to_uint_head p) as H.
    pose proof (uint_digits_are_digits (Pos.to_uint p)) as A.
    destruct (Pos.to_uint p) as [|u|u|u|u|u|u|u|u|u|u]; try contradiction;
      cbn [uint_digits app match_integer_after] in *;
      cbn [N.eqb Pos.eqb in_range N.leb N.compare Pos.compare Pos.compare_cont andb];
      inversion A; subst;
      rewrite span_digits_all by assumption; reflexivity. }
  unfold match_number, match_integer, int_repr.
  destruct z as [|p|p]; cbn [Z.to_int].
  - cbn. rewrite (F rest eq_refl), (E rest eq_refl). reflexivity.
  - pose proof (pos_to_uint_head p) as H.
    destruct (uint_digits (Pos.to_uint p)) as [|c ds] eqn:Eu.
    { destruct (Pos.to_uint p); try contradiction; discriminate. }
    assert (c <> 45%N).
    { pose proof (uint_digits_are_digits (Pos.to_uint p)) as A.
      rewrite Eu in A. inversion A; subst. intros ->. discriminate. }
    cbn [app]. destruct (N.eqb_spec c 45); [congruence|].
    rewrite <- Eu. change (c :: ds ++ rest) with ((c :: ds) ++ rest).
    rewrite <- Eu, (U [] p). cbn [app].
    rewrite (F rest eq_refl), (E rest eq_refl). reflexivity.
  - cbn [app N.eqb Pos.eqb]. rewrite (U [45%N] p). cbn [app].
    rewrite (F rest eq_refl), (E rest eq_refl). reflexivity.
Qed.

Lemma int_of_literal_repr (z : Z) : int_of_literal (int_repr z) = z.
Proof.
  unfold int_repr, int_of_literal.
  destruct (Z.to_int z) as [u|u] eqn:E.
  - destruct (uint_digits u) as [|c ds] eqn:Eu.
    + destruct u; try discriminate. destruct z; try discriminate.
      cbn in E. inversion E as [E']. exfalso.
      revert E'. apply DecimalPos.Unsigned.to_uint_nonnil.
    + assert (c <> 45%N).
      { pose proof (uint_digits_are_digits u) as A.
        rewrite Eu in A. inversion A; subst. intros ->. discriminate. }
      destruct (N.eqb_spec c 45); [congruence|].
      rewrite <- Eu, uint_of_digits_digits, <- E. apply DecimalZ.of_to.
  - cbn [N.eqb Pos.eqb]. rewrite uint_of_digits_digits, <- E.
    apply DecimalZ.of_to.
Qed.

(* ------------------------------------------------------------------ *)
(** * Reading back what the encoder writes: values *)
(* ------------------------------------------------------------------ *)

Section ReadBack.
Context {L : PyLib}.

Lemma skip_ws_value_head (s t : str) :
  value_head s -> skip_ws (s ++ t) = s ++ t.
Proof.
  destruct s as [|c s]; [intros []|]. intros (W & _).
  cbn [app skip_ws]. rewrite W. reflexivity.
Qed.

Lemma startswith_head (x c : N) (p t : str) :
  startswith (x :: p) (c :: t) = true -> x = c.
Proof. cbn [startswith]. intros H. apply andb_true_iff in H. apply N.eqb_eq, H. Qed.

Lemma scan_literal_value_head (s : str) (v : pyval) (r : str) :
  scan_literal s = Ok (v, r) -> value_head s.
Proof.
  destruct s as [|c t]; [discriminate|]. intros H. cbn [value_head].
  assert (Bad : is_json_ws c = true \/ c = 93%N \/ c = 125%N \/ c = 44%N ->
                False).
  { unfold is_json_ws. rewrite !orb_true_iff, !N.eqb_eq.
    intros [[[[->| ->]| ->]| ->]|[->|[->| ->]]]; discriminate H. }
  destruct (is_json_ws c) eqn:W; [exfalso; auto|].
  repeat split; intros ->; apply Bad; auto.
Qed.

Lemma object_members_dict scan fuel pairs s v r :
  object_members scan fuel pairs s = Ok (v, r) -> exists d, v = PDict d.
Proof.
  revert pairs s. induction fuel as [|fuel IH]; intros pairs s;
    cbn [object_members]; [discriminate|].
  destruct (scanstring s []) as [[key s1]|e]; cbn [bind]; [|discriminate].
  destruct (skip_ws s1) as [|c s2]; [discriminate|].
  destruct (N.eqb c 58); [|discriminate].
  destruct (expecting_value (scan (skip_ws s2))) as [[value s3]|e];
    cbn [bind]; [|discriminate].
  destruct (skip_ws s3) as [|c' s4]; [discriminate|].
  destruct (N.eqb c' 125); [intros H; inversion H; eauto|].
  destruct (N.eqb c' 44); [|discriminate].
  destruct (skip_ws s4) as [|q s5]; [discriminate|].
  destruct (N.eqb q 34); [apply IH | discriminate].
Qed.

Lemma array_items_list scan fuel values s v r :
  array_items scan fuel values s = Ok (v, r) -> exists l, v = PList l.
Proof.
  revert values s. induction fuel as [|fuel IH]; intros values s;
    cbn [array_items]; [discriminate|].
  destruct (expecting_value (scan s)) as [[value s1]|e];
    cbn [bind]; [|discriminate].
  destruct (skip_ws s1) as [|c s2]; [discriminate|].
  destruct (N.eqb c 93); [intros H; inversion H; eauto|].
  destruct (N.eqb c 44); [apply IH | discriminate].
Qed.

Lemma JSONObject_dict scan s v r :
  JSONObject scan s = Ok (v, r) -> exists d, v = PDict d.
Proof.
  unfold JSONObject. destruct (skip_ws s) as [|c s1]; [discriminate|].
  destruct (N.eqb c 125); [intros H; inversion H; eauto|].
  destruct (N.eqb c 34); [apply object_members_dict | discriminate].
Qed.

Lemma JSONArray_list scan s v r :
  JSONArray scan s = Ok (v, r) -> exists l, v = PList l.
Proof.
  unfold JSONArray. destruct (skip_ws s) as [|c s1];
    [apply array_items_list|].
  destruct (N.eqb c 93); [intros H; inversion H; eauto|].
  apply array_items_list.
Qed.

(** The cases of [scan_once] on a non-empty text. *)
Lemma scan_once_cases (depth : nat) (c : N) (t : str) :
  scan_once (S depth) (c :: t)
  = if N.eqb c 34 then ' (x, r) <- scanstring t [] ;; Ok (PStr x, r)
    else if N.eqb c 123 then JSONObject (scan_once depth) t
    else if N.eqb c 91 then JSONArray (scan_once depth) t
    else scan_literal (c :: t).
Proof. reflexivity. Qed.

Lemma scan_once_value_head (depth : nat) (s : str) (v : pyval) (r : str) :
  scan_once depth s = Ok (v, r) -> value_head s.
Proof.
  destruct depth as [|depth]; [discriminate|].
  destruct s as [|c t]; [discriminate|]. rewrite scan_once_cases.
  destruct (N.eqb_spec c 34) as [->|_];
    [intros _; cbn; repeat split; discriminate|].
  destruct (N.eqb_spec c 123) as [->|_];
    [intros _; cbn; repeat split; discriminate|].
  destruct (N.eqb_spec c 91) as [->|_];
    [intros _; cbn; repeat split; discriminate|].
  apply scan_literal_value_head.
Qed.

(** A value that is not a container is read at any depth. *)
Lemma scan_once_scalar (depth : nat) (s : str) (v : pyval) (r : str) :
  scan_once 1 s = Ok (v, r) -> is_container v = false ->
  scan_once (S depth) s = Ok (v, r).
Proof.
  destruct s as [|c t]; [discriminate|]. rewrite !scan_once_cases.
  destruct (N.eqb c 34); [auto|].
  destruct (N.eqb c 123).
  { intros H C. apply JSONObject_dict in H. destruct H as [d ->]. discriminate. }
  destruct (N.eqb c 91); [|auto].
  intros H C. apply JSONArray_list in H. destruct H as [l ->]. discriminate.
Qed.

Lemma int_repr_nonempty (z : Z) : exists c t, int_repr z = c :: t.
Proof.
  unfold int_repr. destruct z as [|p|p]; cbn [Z.to_int]; [cbn; eauto| |eauto].
  pose proof (pos_to_uint_head p) as H.
  destruct (Pos.to_uint p); try contradiction; cbn [uint_digits]; eauto.
Qed.

Lemma scan_once_int (depth : nat) (z : Z) (rest : str) :
  delimited rest ->
  value_head (int_repr z)
  /\ scan_once (S depth) (int_repr z ++ rest) = Ok (PInt z, rest).
Proof.
  intros D. pose proof (match_number_int_repr z rest D) as M.
  pose proof (int_of_literal_repr z) as I.
  assert (H : scan_literal (int_repr z ++ rest) = Ok (PInt z, rest)).
  { unfold scan_literal.
    destruct (int_repr z ++ rest) as [|c t] eqn:E; [discriminate|].
    assert (Hc : c = 45%N \/ is_digit c = true).
    { unfold match_number, match_integer, match_integer_after in M.
      destruct (N.eqb_spec c 45); [left; assumption|right].
      destruct (N.eqb_spec c 48) as [->|]; [reflexivity|].
      destruct (in_range 49 57 c) eqn:R; [|discriminate].
      unfold is_digit, in_range in *.
      apply andb_true_iff in R. destruct R as [R1 R2].
      apply N.leb_le in R1, R2.
      apply andb_true_iff. split; apply N.leb_le; lia. }
    assert (N1 : startswith (lit "null") (c :: t) = false).
    { destruct (startswith (lit "null") (c :: t)) eqn:S; [|reflexivity].
      apply startswith_head in S. cbn in S. subst c. destruct Hc; discriminate. }
    assert (N2 : startswith (lit "true") (c :: t) = false).
    { destruct (startswith (lit "true") (c :: t)) eqn:S; [|reflexivity].
      apply startswith_head in S. cbn in S. subst c. destruct Hc; discriminate. }
    assert (N3 : startswith (lit "false") (c :: t) = false).
    { destruct (startswith (lit "false") (c :: t)) eqn:S; [|reflexivity].
      apply startswith_head in S. cbn in S. subst c. destruct Hc; discriminate. }
    rewrite N1, N2, N3, M, I. reflexivity. }
  destruct (int_repr_nonempty z) as (c & t & E).
  rewrite E in *. cbn [app] in *.
  pose proof (scan_literal_value_head _ _ _ H) as VH.
  split; [exact VH|].
  rewrite scan_once_cases.
  destruct (N.eqb_spec c 34) as [->|_]; [discriminate H|].
  destruct (N.eqb_spec c 123) as [->|_]; [discriminate H|].
  destruct (N.eqb_spec c 91) as [->|_]; [discriminate H|].
  exact H.
Qed.

End ReadBack.

Section ReadBackValues.
Context {L : PyLib}.

Lemma join_cons2 (sep p q : str) (ps : list str) :
  join sep (p :: q :: ps) = p ++ sep ++ join sep (q :: ps).
Proof. reflexivity. Qed.

Lemma join_length (sep : str) (parts : list str) :
  Forall (fun p => p <> []) parts -> length parts <= length (join sep parts).
Proof.
  induction 1 as [|p ps NE F IH]; [cbn; lia|].
  destruct ps as [|q ps].
  - cbn. destruct p; [congruence | cbn; lia].
  - rewrite join_cons2, !length_app. cbn [length] in *.
    destruct p; [congruence | cbn [length]; lia].
Qed.

Lemma join_In_length (sep p : str) (parts : list str) :
  In p parts -> length p <= length (join sep parts).
Proof.
  induction parts as [|q ps IH]; [intros []|].
  destruct ps as [|q' ps].
  - intros [->|[]]. cbn. lia.
  - rewrite join_cons2, !length_app. intros [->|H]; [lia|].
    specialize (IH H). lia.
Qed.

Lemma value_head_nonempty (s : str) : value_head s -> s <> [].
Proof. destruct s; [intros [] | discriminate]. Qed.

Lemma value_head_app (s t : str) : value_head s -> value_head (s ++ t).
Proof. destruct s; [intros [] | auto]. Qed.

Lemma array_items_reads scan (l : list pyval) :
  Forall (reads scan) l -> l <> [] ->
  forall fuel values rest,
    length l <= fuel ->
    array_items scan fuel values (join [44%N] (List.map dumps l) ++ 93%N :: rest)
    = Ok (PList (values ++ l), rest).
Proof.
  induction 1 as [|x l [Hx Rx] F IH]; [congruence|]. intros _ fuel values rest Hf.
  destruct fuel as [|fuel]; [cbn in Hf; lia|].
  destruct l as [|y l].
  - cbn [List.map join array_items].
    rewrite (Rx (93%N :: rest)) by (cbn; auto).
    cbn [expecting_value bind skip_ws is_json_ws N.eqb Pos.eqb orb].
    reflexivity.
  - rewrite !map_cons, join_cons2. cbn [array_items].
    rewrite <- !app_assoc. cbn [app].
    rewrite (Rx (44%N :: _)) by (cbn; auto).
    cbn [expecting_value bind skip_ws is_json_ws N.eqb Pos.eqb orb].
    inversion F as [|? ? [Hy _] _]; subst.
    rewrite skip_ws_value_head
      by (destruct l; [exact Hy | rewrite map_cons, join_cons2; apply value_head_app; exact Hy]).
    change (dumps y :: List.map dumps l) with (List.map dumps (y :: l)).
    rewrite IH; [|discriminate|cbn [length] in *; lia].
    rewrite <- app_assoc. reflexivity.
Qed.

Lemma JSONArray_reads scan (l : list pyval) (rest : str) :
  Forall (reads scan) l ->
  JSONArray scan (join [44%N] (List.map dumps l) ++ 93%N :: rest)
  = Ok (PList l, rest).
Proof.
  intros F. unfold JSONArray. destruct l as [|x l]; [reflexivity|].
  assert (VH : value_head (join [44%N] (List.map dumps (x :: l)))).
  { inversion F as [|? ? [Hx _] _]; subst. cbn [List.map].
    destruct l; [exact Hx | rewrite map_cons, join_cons2; apply value_head_app; exact Hx]. }
  rewrite skip_ws_value_head by exact VH.
  assert (Hf : length (x :: l)
               <= S (length (join [44%N] (List.map dumps (x :: l)) ++ 93%N :: rest))).
  { rewrite length_app.
    pose proof (join_length [44%N] (List.map dumps (x :: l))) as J.
    rewrite length_map in J. cut (length (x :: l) <= length (join [44%N] (List.map dumps (x :: l)))); [lia|].
    apply J. apply Forall_map. revert F. apply Forall_impl.
    intros a [Ha _]. apply value_head_nonempty. exact Ha. }
  pose proof (array_items_reads scan (x :: l) F ltac:(discriminate) _ [] rest Hf) as A.
  destruct (join [44%N] (List.map dumps (x :: l)) ++ 93%N :: rest) as [|c s1] eqn:E.
  - exact A.
  - destruct (N.eqb_spec c 93) as [->|_]; [|exact A].
    exfalso. destruct (join [44%N] (List.map dumps (x :: l))) as [|c' j];
      [destruct VH|]. cbn [app] in E. inversion E; subst.
    destruct VH as (_ & H & _). congruence.
Qed.

Lemma member_text_head (kv : str * pyval) :
  member_text kv = 34%N :: tl (member_text kv).
Proof. destruct kv. reflexivity. Qed.

Lemma members_head (d : list (str * pyval)) :
  d <> [] ->
  join [44%N] (List.map member_text d)
  = 34%N :: tl (join [44%N] (List.map member_text d)).
Proof.
  destruct d as [|kv d]; [congruence|]. intros _. cbn [List.map].
  destruct d as [|kv' d].
  - cbn [join]. apply member_text_head.
  - cbn [List.map]. rewrite join_cons2. rewrite (member_text_head kv) at 1.
    rewrite (member_text_head kv) at 2. reflexivity.
Qed.

Lemma object_members_reads scan (d : list (str * pyval)) :
  Forall (fun kv => reads scan (snd kv)) d -> d <> [] ->
  forall fuel pairs rest,
    length d <= fuel ->
    object_members scan fuel pairs
      (tl (join [44%N] (List.map member_text d)) ++ 125%N :: rest)
    = Ok (PDict (dict_of_pairs (pairs ++ d)), rest).
Proof.
  induction 1 as [|[k x] d [Hx Rx] F IH]; [congruence|].
  intros _ fuel pairs rest Hf. cbn [snd] in *.
  destruct fuel as [|fuel]; [cbn in Hf; lia|].
  destruct d as [|kv d].
  - cbn [List.map join member_text encode_basestring app tl object_members].
    rewrite <- !app_assoc. cbn [app]. rewrite scanstring_escaped.
    cbn [bind rev app skip_ws is_json_ws N.eqb Pos.eqb orb].
    rewrite skip_ws_value_head by exact Hx.
    rewrite (Rx (125%N :: rest)) by (cbn; auto).
    cbn [expecting_value bind skip_ws is_json_ws N.eqb Pos.eqb orb].
    reflexivity.
  - cbn [List.map]. rewrite join_cons2.
    cbn [member_text encode_basestring app tl object_members].
    rewrite <- !app_assoc. cbn [app]. rewrite scanstring_escaped.
    cbn [bind rev app skip_ws is_json_ws N.eqb Pos.eqb orb].
    rewrite skip_ws_value_head by exact Hx.
    rewrite (Rx (44%N :: _)) by (cbn; auto).
    cbn [expecting_value bind skip_ws is_json_ws N.eqb Pos.eqb orb].
    change (member_text kv :: List.map member_text d)
      with (List.map member_text (kv :: d)).
    rewrite (members_head (kv :: d)) by discriminate.
    cbn [app skip_ws is_json_ws N.eqb Pos.eqb orb].
    rewrite IH; [|discriminate|cbn [length] in *; lia].
    rewrite <- app_assoc. reflexivity.
Qed.

Lemma dict_of_pairs_unique (d : list (str * pyval)) :
  NoDup (List.map fst d) -> dict_of_pairs d = d.
Proof.
  unfold dict_of_pairs.
  assert (G : forall acc, NoDup (List.map fst (acc ++ d)) ->
                fold_left (fun d0 (kv : str * pyval) => dict_set (fst kv) (snd kv) d0)
                  d acc = acc ++ d).
  { induction d as [|[k v] d IH]; intros acc ND; cbn [fold_left fst snd].
    - rewrite app_nil_r. reflexivity.
    - rewrite dict_set_keys_new.
      + rewrite IH; rewrite <- app_assoc; [reflexivity | exact ND].
      + rewrite map_app in ND. cbn in ND. apply NoDup_remove_2 in ND.
        intros H. apply ND. apply in_or_app. left. exact H. }
  intros ND. apply (G [] ND).
Qed.

Lemma JSONObject_reads scan (d : list (str * pyval)) (rest : str) :
  NoDup (List.map fst d) ->
  Forall (fun kv => reads scan (snd kv)) d ->
  JSONObject scan (join [44%N] (List.map member_text d) ++ 125%N :: rest)
  = Ok (PDict d, rest).
Proof.
  intros ND F. unfold JSONObject. destruct d as [|kv d]; [reflexivity|].
  rewrite (members_head (kv :: d)) by discriminate.
  cbn [app skip_ws is_json_ws N.eqb Pos.eqb orb].
  rewrite object_members_reads; [|exact F|discriminate|].
  - cbn [app]. rewrite dict_of_pairs_unique by exact ND. reflexivity.
  - pose proof (join_length [44%N] (List.map member_text (kv :: d))) as J.
    rewrite length_map in J.
    assert (length (kv :: d) <= length (join [44%N] (List.map member_text (kv :: d)))).
    { apply J. apply Forall_map. apply Forall_forall.
      intros a _. rewrite member_text_head. discriminate. }
    rewrite (members_head (kv :: d)) in H by discriminate.
    cbn [length] in *. rewrite length_app. cbn [length]. lia.
Qed.

Lemma dumps_dict (d : list (str * pyval)) :
  dumps (PDict d) = 123%N :: join [44%N] (List.map member_text d) ++ [125%N].
Proof. reflexivity. Qed.

Lemma dumps_list (l : list pyval) :
  dumps (PList l) = 91%N :: join [44%N] (List.map dumps l) ++ [93%N].
Proof. reflexivity. Qed.

(** The decoder reads the compact encoding of a value back as that value.
    The depth that suffices is the length of the text. *)
Lemma scan_once_dumps (v : pyval) :
  unique_keys v -> Forall float_rereads (floats_of v) ->
  value_head (dumps v)
  /\ forall depth rest,
       length (dumps v) <= depth -> delimited rest ->
       scan_once depth (dumps v ++ rest) = Ok (v, rest).
Proof.
  induction v as [|b|z|f|s|l IH|d IH] using pyval_ind; intros U F.
  - split; [cbn; repeat split; discriminate|].
    intros [|depth] rest Hd _; [cbn in Hd; lia | reflexivity].
  - split; [destruct b; cbn; repeat split; discriminate|].
    intros [|depth] rest Hd _; [destruct b; cbn in Hd; lia|].
    destruct b; reflexivity.
  - split; [apply (scan_once_int 0 z []); exact I|].
    intros [|depth] rest Hd D.
    + destruct (int_repr_nonempty z) as (c & t & E). cbn [dumps] in Hd.
      rewrite E in Hd. cbn in Hd. lia.
    + apply scan_once_int. exact D.
  - inversion F as [|? ? R _]; subst. cbn [dumps].
    pose proof (R [] I) as R0. rewrite app_nil_r in R0.
    pose proof (scan_once_value_head _ _ _ _ R0) as VH.
    split; [exact VH|]. intros [|depth] rest Hd D.
    + destruct (floatstr f); [destruct VH | cbn in Hd; lia].
    + apply scan_once_scalar; [apply R; exact D | reflexivity].
  - split; [cbn; repeat split; discriminate|].
    intros [|depth] rest Hd _; [cbn in Hd; lia|].
    apply scan_once_string.
  - split; [cbn; repeat split; discriminate|].
    intros [|depth] rest Hd _; [cbn in Hd; lia|].
    rewrite dumps_list in *. cbn [app]. rewrite scan_once_cases.
    cbn [N.eqb Pos.eqb]. rewrite <- app_assoc. cbn [app].
    apply JSONArray_reads.
    apply unique_keys_list in U. cbn [floats_of] in F.
    rewrite Forall_forall in IH, U |- *. intros x Hx.
    assert (Fx : Forall float_rereads (floats_of x)).
    { rewrite Forall_forall in F |- *. intros g Hg. apply F.
      apply in_flat_map. exists x. auto. }
    destruct (IH x Hx (U x Hx) Fx) as [VH R]. split; [exact VH|].
    intros rest' D'. apply R; [|exact D'].
    pose proof (join_In_length [44%N] (dumps x) (List.map dumps l)
                  (in_map dumps l x Hx)) as J.
    cbn [length] in Hd. rewrite length_app in Hd. cbn [length] in Hd. lia.
  - split; [cbn; repeat split; discriminate|].
    intros [|depth] rest Hd _; [cbn in Hd; lia|].
    rewrite dumps_dict in *. cbn [app]. rewrite scan_once_cases.
    cbn [N.eqb Pos.eqb]. rewrite <- app_assoc. cbn [app].
    apply unique_keys_dict in U. destruct U as [ND U].
    apply JSONObject_reads; [exact ND|].
    cbn [floats_of] in F.
    rewrite Forall_forall in IH, U |- *. intros [k x] Hx. cbn [snd].
    assert (Fx : Forall float_rereads (floats_of x)).
    { rewrite Forall_forall in F |- *. intros g Hg. apply F.
      apply in_flat_map. exists (k, x). auto. }
    destruct (IH _ Hx (U _ Hx) Fx) as [VH R]. split; [exact VH|].
    intros rest' D'. apply R; [|exact D'].
    pose proof (join_In_length [44%N] (member_text (k, x))
                  (List.map member_text d)
                  (in_map member_text d (k, x) Hx)) as J.
    cbn [member_text] in J. rewrite !length_app in J.
    cbn [length snd] in *. rewrite length_app in Hd. cbn [length] in Hd. lia.
Qed.

End ReadBackValues.

(* ------------------------------------------------------------------ *)
(** * The decoder: its budget is never exhausted, its dicts are dicts *)
(* ------------------------------------------------------------------ *)

Lemma skip_ws_length (s : str) : length (skip_ws s) <= length s.
Proof.
  induction s as [|c s IH]; cbn [skip_ws]; [lia|].
  destruct (is_json_ws c); cbn [length]; lia.
Qed.

Lemma span_digits_length (s : str) : length (snd (span_digits s)) <= length s.
Proof.
  induction s as [|c s IH]; cbn [span_digits]; [cbn; lia|].
  destruct (is_digit c); [|cbn; lia].
  destruct (span_digits s) as [ds r]. cbn [snd length] in *. lia.
Qed.

Lemma startswith_length (p s : str) :
  startswith p s = true -> length p <= length s.
Proof.
  revert s. induction p as [|x p IH]; intros s H; [cbn; lia|].
  destruct s as [|y s]; [discriminate|]. cbn [startswith length] in *.
  apply andb_true_iff in H. destruct H as [_ H]. apply IH in H. lia.
Qed.

(** What [scanstring] returns: a shorter rest, or a JSONDecodeError. *)
Lemma scanstring_result (s acc : str) :
  match scanstring s acc with
  | Ok (_, r) => length r < length s
  | Raise e => exists msg, e = JSONDecodeError msg
  end.
Proof.
  remember (length s) as n eqn:En. revert s acc En.
  induction n as [n IH] using lt_wf_ind. intros s acc ->.
  assert (Rec : forall s' acc', length s' < length s ->
            match scanstring s' acc' with
            | Ok (_, r) => length r < length s
            | Raise e => exists msg, e = JSONDecodeError msg
            end).
  { intros s' acc' Hl. specialize (IH _ Hl s' acc' eq_refl).
    destruct (scanstring s' acc') as [[x r]|e]; [lia | exact IH]. }
  clear IH.
  destruct s as [|c s1]; cbn [scanstring]; [eauto|].
  destruct (N.eqb c 34); [cbn [length]; lia|].
  destruct (N.eqb c 92).
  2:{ destruct (N.ltb c 32); [eauto|]. apply Rec. cbn [length]. lia. }
  destruct s1 as [|e s2]; [eauto|].
  destruct (N.eqb e 117).
  2:{ destruct (backslash e); [|eauto]. apply Rec. cbn [length]. lia. }
  destruct s2 as [|h1 [|h2 [|h3 [|h4 s3]]]]; eauto.
  destruct (decode_uXXXX h1 h2 h3 h4) as [uni|]; [|eauto].
  assert (R3 : forall acc', match scanstring s3 acc' with
            | Ok (_, r) => length r < length (c :: e :: h1 :: h2 :: h3 :: h4 :: s3)
            | Raise e => exists msg, e = JSONDecodeError msg
            end) by (intros acc'; apply Rec; cbn [length]; lia).
  destruct (is_high_surrogate uni); [|apply R3].
  destruct s3 as [|b1 [|u1 [|k1 [|k2 [|k3 [|k4 s4]]]]]]; try apply R3.
  destruct (N.eqb b1 92 && N.eqb u1 117); [|apply R3].
  destruct (decode_uXXXX k1 k2 k3 k4) as [uni2|]; [|eauto].
  destruct (is_low_surrogate uni2); [|apply R3].
  apply Rec. cbn [length]. lia.
Qed.

Section DecoderFacts.
Context {L : PyLib}.

Lemma match_number_length (s i f e r : str) :
  match_number s = Some (i, f, e, r) -> length r < length s.
Proof.
  unfold match_number.
  assert (A : forall sign t i' t', match_integer_after sign t = Some (i', t') ->
                length t' < length t).
  { intros sign [|c t] i' t'; cbn [match_integer_after]; [discriminate|].
    destruct (N.eqb c 48); [intros H; inversion H; subst; cbn; lia|].
    destruct (in_range 49 57 c); [|discriminate].
    pose proof (span_digits_length t) as S.
    destruct (span_digits t) as [ds r']. intros H; inversion H; subst.
    cbn [snd length] in *. lia. }
  assert (I : forall t i' t', match_integer t = Some (i', t') ->
                length t' < length t).
  { intros [|c t] i' t'; cbn [match_integer]; [discriminate|].
    destruct (N.eqb c 45); intros H; apply A in H; cbn [length] in *; lia. }
  assert (F : forall t, length (snd (match_frac t)) <= length t).
  { intros [|c t]; cbn [match_frac]; [cbn; lia|].
    destruct (N.eqb c 46); [|cbn; lia].
    pose proof (span_digits_length t) as S.
    destruct (span_digits t) as [[|d ds] r']; cbn [snd length] in *; lia. }
  assert (E : forall t, length (snd (match_exp t)) <= length t).
  { intros [|c t]; cbn [match_exp]; [cbn; lia|].
    destruct (N.eqb c 101 || N.eqb c 69); [|cbn; lia].
    destruct t as [|g t'].
    - cbn. lia.
    - destruct (N.eqb g 45 || N.eqb g 43).
      + pose proof (span_digits_length t') as S.
        destruct (span_digits t') as [[|d ds] r']; cbn [snd length] in *; lia.
      + pose proof (span_digits_length (g :: t')) as S.
        destruct (span_digits (g :: t')) as [[|d ds] r']; cbn [snd length] in *; lia. }
  destruct (match_integer s) as [[i' s1]|] eqn:Ei; [|discriminate].
  apply I in Ei. pose proof (F s1) as F1.
  destruct (match_frac s1) as [f' s2]. pose proof (E s2) as E2.
  destruct (match_exp s2) as [e' s3]. intros H; inversion H; subst.
  cbn [snd] in *. lia.
Qed.

Lemma scan_literal_result (s : str) :
  match scan_literal s with
  | Ok (v, r) => length r < length s /\ is_container v = false
  | Raise e => e = StopIteration
  end.
Proof.
  unfold scan_literal.
  assert (K : forall p n, startswith p s = true -> length p = n -> 0 < n ->
                length (skipn n s) < length s).
  { intros p n H <- Hp. apply startswith_length in H. rewrite length_skipn. lia. }
  destruct (startswith (lit "null") s) eqn:E1;
    [split; [apply (K _ 4 E1); [reflexivity|lia] | reflexivity]|].
  destruct (startswith (lit "true") s) eqn:E2;
    [split; [apply (K _ 4 E2); [reflexivity|lia] | reflexivity]|].
  destruct (startswith (lit "false") s) eqn:E3;
    [split; [apply (K _ 5 E3); [reflexivity|lia] | reflexivity]|].
  destruct (match_number s) as [[[[i f] e] r]|] eqn:M.
  - apply match_number_length in M. destruct f, e; split; auto.
  - destruct (startswith (lit "NaN") s) eqn:E4;
      [split; [apply (K _ 3 E4); [reflexivity|lia] | reflexivity]|].
    destruct (startswith (lit "Infinity") s) eqn:E5;
      [split; [apply (K _ 8 E5); [reflexivity|lia] | reflexivity]|].
    destruct (startswith (lit "-Infinity") s) eqn:E6;
      [split; [apply (K _ 9 E6); [reflexivity|lia] | reflexivity]|].
    reflexivity.
Qed.

Lemma array_items_progress scan (n fuel : nat) (values : list pyval) (s : str) :
  progresses scan n -> length s <= n -> length s < fuel ->
  match array_items scan fuel values s with
  | Ok (_, r) => length r < length s
  | Raise e => e <> OutOfFuel
  end.
Proof.
  intros P. revert values s. induction fuel as [|fuel IH]; intros values s Hn Hf;
    [lia|]. cbn [array_items].
  specialize (P s Hn). unfold expecting_value.
  destruct (scan s) as [[value s1]|e]; cbn [bind].
  2:{ destruct e; cbn [bind]; try discriminate. congruence. }
  pose proof (skip_ws_length s1) as W.
  destruct (skip_ws s1) as [|c s2]; [discriminate|]. cbn [length] in W.
  destruct (N.eqb c 93); [lia|].
  destruct (N.eqb c 44); [|discriminate].
  pose proof (skip_ws_length s2) as W2.
  specialize (IH (values ++ [value]) (skip_ws s2) ltac:(lia) ltac:(lia)).
  destruct (array_items scan fuel (values ++ [value]) (skip_ws s2)) as [[v r]|e];
    [lia | exact IH].
Qed.

Lemma object_members_progress scan (n fuel : nat) pairs (s : str) :
  progresses scan n -> length s <= n -> length s < fuel ->
  match object_members scan fuel pairs s with
  | Ok (_, r) => length r < length s
  | Raise e => e <> OutOfFuel
  end.
Proof.
  intros P. revert pairs s. induction fuel as [|fuel IH]; intros pairs s Hn Hf;
    [lia|]. cbn [object_members].
  pose proof (scanstring_result s []) as K.
  destruct (scanstring s []) as [[key s1]|e]; cbn [bind].
  2:{ destruct K as [msg ->]. discriminate. }
  pose proof (skip_ws_length s1) as W1.
  destruct (skip_ws s1) as [|c s2]; [discriminate|]. cbn [length] in W1.
  destruct (N.eqb c 58); [|discriminate].
  pose proof (skip_ws_length s2) as W2.
  specialize (P (skip_ws s2) ltac:(lia)). unfold expecting_value.
  destruct (scan (skip_ws s2)) as [[value s3]|e]; cbn [bind].
  2:{ destruct e; cbn [bind]; try discriminate. congruence. }
  pose proof (skip_ws_length s3) as W3.
  destruct (skip_ws s3) as [|c' s4]; [discriminate|]. cbn [length] in W3.
  destruct (N.eqb c' 125); [lia|].
  destruct (N.eqb c' 44); [|discriminate].
  pose proof (skip_ws_length s4) as W4.
  destruct (skip_ws s4) as [|q s5]; [discriminate|]. cbn [length] in W4.
  destruct (N.eqb q 34); [|discriminate].
  specialize (IH (pairs ++ [(key, value)]) s5 ltac:(lia) ltac:(lia)).
  destruct (object_members scan fuel (pairs ++ [(key, value)]) s5) as [[v r]|e];
    [lia | exact IH].
Qed.

Lemma JSONArray_progress scan (n : nat) (s : str) :
  progresses scan n -> length s <= n ->
  match JSONArray scan s with
  | Ok (_, r) => length r <= length s
  | Raise e => e <> OutOfFuel
  end.
Proof.
  intros P Hn. unfold JSONArray. pose proof (skip_ws_length s) as W.
  pose proof (array_items_progress scan n (S (length s)) [] (skip_ws s) P
                ltac:(lia) ltac:(lia)) as A.
  assert (A' : match array_items scan (S (length s)) [] (skip_ws s) with
               | Ok (_, r) => length r <= length s
               | Raise e => e <> OutOfFuel
               end).
  { destruct (array_items _ _ _ _) as [[v r]|e]; [lia | exact A]. }
  destruct (skip_ws s) as [|c s1]; [exact A'|]. cbn [length] in W.
  destruct (N.eqb c 93); [lia | exact A'].
Qed.

Lemma JSONObject_progress scan (n : nat) (s : str) :
  progresses scan n -> length s <= n ->
  match JSONObject scan s with
  | Ok (_, r) => length r <= length s
  | Raise e => e <> OutOfFuel
  end.
Proof.
  intros P Hn. unfold JSONObject, property_name_expected.
  pose proof (skip_ws_length s) as W.
  destruct (skip_ws s) as [|c s1]; [discriminate|]. cbn [length] in W.
  destruct (N.eqb c 125); [lia|].
  destruct (N.eqb c 34); [|discriminate].
  pose proof (object_members_progress scan n (S (length s)) [] s1 P
                ltac:(lia) ltac:(lia)) as A.
  destruct (object_members _ _ _ _) as [[v r]|e]; [lia | exact A].
Qed.

(** With a depth above the length of the text, [scan_once] never runs out
    of budget, and what it leaves is shorter than what it was given. *)
Lemma scan_once_progress (depth : nat) (s : str) :
  length s < depth ->
  match scan_once depth s with
  | Ok (_, r) => length r < length s
  | Raise e => e <> OutOfFuel
  end.
Proof.
  revert s. induction depth as [|depth IH]; intros s Hs; [lia|].
  destruct s as [|c t]; [discriminate|]. cbn [length] in Hs.
  assert (P : progresses (scan_once depth) (pred depth)).
  { intros s' Hs'. apply IH. lia. }
  rewrite scan_once_cases.
  destruct (N.eqb c 34).
  { pose proof (scanstring_result t []) as K.
    destruct (scanstring t []) as [[x r]|e]; cbn [bind length];
      [lia | destruct K as [msg ->]; discriminate]. }
  destruct (N.eqb c 123).
  { pose proof (JSONObject_progress _ _ t P ltac:(lia)) as K.
    destruct (JSONObject _ t) as [[v r]|e]; cbn [length]; [lia | exact K]. }
  destruct (N.eqb c 91).
  { pose proof (JSONArray_progress _ _ t P ltac:(lia)) as K.
    destruct (JSONArray _ t) as [[v r]|e]; cbn [length]; [lia | exact K]. }
  pose proof (scan_literal_result (c :: t)) as K.
  destruct (scan_literal (c :: t)) as [[v r]|e];
    [tauto | subst; discriminate].
Qed.

(** The budget [raw_decode] gives the scanner is never exhausted. *)
Lemma raw_decode_fuel (s : str) : raw_decode s <> Raise OutOfFuel.
Proof.
  unfold raw_decode, expecting_value.
  pose proof (scan_once_progress (S (length s)) s ltac:(lia)) as K.
  destruct (scan_once (S (length s)) s) as [[v r]|e]; [discriminate|].
  destruct e; try discriminate. congruence.
Qed.

(** ** The dicts the decoder builds have pairwise distinct keys *)

Lemma dict_set_keys_unique (k : str) (v : pyval) (d : list (str * pyval)) :
  NoDup (List.map fst d) -> NoDup (List.map fst (dict_set k v d)).
Proof.
  intros ND. destruct (in_dec (list_eq_dec N.eq_dec) k (List.map fst d)) as [H|H].
  - rewrite dict_set_keys by exact H. exact ND.
  - rewrite dict_set_keys_new by exact H. rewrite map_app. cbn [List.map fst].
    apply NoDup_app; [exact ND | constructor; [intros []|constructor] |].
    intros x Hx [<-|[]]. exact (H Hx).
Qed.

Lemma dict_set_values (P : pyval -> Prop) (k : str) (v : pyval)
    (d : list (str * pyval)) :
  Forall (fun kv => P (snd kv)) d -> P v ->
  Forall (fun kv => P (snd kv)) (dict_set k v d).
Proof.
  intros F Hv. induction F as [|[k0 v0] d H0 F IH]; cbn [dict_set].
  - constructor; [exact Hv | constructor].
  - destruct (str_eqb k k0); constructor; auto.
Qed.

Lemma dict_of_pairs_unique_keys (pairs : list (str * pyval)) :
  Forall (fun kv => unique_keys (snd kv)) pairs ->
  unique_keys (PDict (dict_of_pairs pairs)).
Proof.
  intros F. apply unique_keys_dict. unfold dict_of_pairs.
  assert (G : forall acc,
            NoDup (List.map fst acc) /\ Forall (fun kv => unique_keys (snd kv)) acc ->
            NoDup (List.map fst (fold_left
                     (fun d0 (kv : str * pyval) => dict_set (fst kv) (snd kv) d0) pairs acc))
            /\ Forall (fun kv => unique_keys (snd kv))
                 (fold_left
                    (fun d0 (kv : str * pyval) => dict_set (fst kv) (snd kv) d0) pairs acc)).
  { induction F as [|[k v] pairs Hv F IH]; intros acc [ND FA]; cbn [fold_left fst snd].
    - split; assumption.
    - apply IH. split; [apply dict_set_keys_unique; exact ND|].
      apply dict_set_values; assumption. }
  apply G. split; constructor.
Qed.

Lemma array_items_unique_keys scan fuel values s v r :
  (forall s' v' r', scan s' = Ok (v', r') -> unique_keys v') ->
  Forall unique_keys values ->
  array_items scan fuel values s = Ok (v, r) -> unique_keys v.
Proof.
  intros Hs. revert values s. induction fuel as [|fuel IH]; intros values s F;
    cbn [array_items]; [discriminate|].
  destruct (scan s) as [[value s1]|e] eqn:E; cbn [expecting_value bind].
  2:{ destruct e; discriminate. }
  assert (F' : Forall unique_keys (values ++ [value])).
  { apply Forall_app. split; [exact F|]. constructor; [|constructor].
    eapply Hs. exact E. }
  destruct (skip_ws s1) as [|c s2]; [discriminate|].
  destruct (N.eqb c 93).
  { intros H. inversion H; subst. apply unique_keys_list. exact F'. }
  destruct (N.eqb c 44); [|discriminate]. apply IH. exact F'.
Qed.

Lemma object_members_unique_keys scan fuel pairs s v r :
  (forall s' v' r', scan s' = Ok (v', r') -> unique_keys v') ->
  Forall (fun kv => unique_keys (snd kv)) pairs ->
  object_members scan fuel pairs s = Ok (v, r) -> unique_keys v.
Proof.
  intros Hs. revert pairs s. induction fuel as [|fuel IH]; intros pairs s F;
    cbn [object_members]; [discriminate|].
  destruct (scanstring s []) as [[key s1]|e]; cbn [bind]; [|discriminate].
  destruct (skip_ws s1) as [|c s2]; [discriminate|].
  destruct (N.eqb c 58); [|discriminate].
  destruct (scan (skip_ws s2)) as [[value s3]|e] eqn:E;
    cbn [expecting_value bind].
  2:{ destruct e; discriminate. }
  assert (F' : Forall (fun kv => unique_keys (snd kv)) (pairs ++ [(key, value)])).
  { apply Forall_app. split; [exact F|]. constructor; [|constructor].
    cbn [snd]. eapply Hs. exact E. }
  destruct (skip_ws s3) as [|c' s4]; [discriminate|].
  destruct (N.eqb c' 125).
  { intros H. inversion H; subst. apply dict_of_pairs_unique_keys. exact F'. }
  destruct (N.eqb c' 44); [|discriminate].
  destruct (skip_ws s4) as [|q s5]; [discriminate|].
  destruct (N.eqb q 34); [|discriminate]. apply IH. exact F'.
Qed.

Lemma scan_once_unique_keys (depth : nat) (s : str) (v : pyval) (r : str) :
  scan_once depth s = Ok (v, r) -> unique_keys v.
Proof.
  revert s v r. induction depth as [|depth IH]; intros s v r; [discriminate|].
  destruct s as [|c t]; [discriminate|]. rewrite scan_once_cases.
  destruct (N.eqb c 34).
  { destruct (scanstring t []) as [[x r']|e]; cbn [bind]; [|discriminate].
    intros H. inversion H; subst. exact I. }
  destruct (N.eqb c 123).
  { unfold JSONObject. destruct (skip_ws t) as [|c1 s1]; [discriminate|].
    destruct (N.eqb c1 125).
    { intros H. inversion H; subst. apply unique_keys_dict. split; constructor. }
    destruct (N.eqb c1 34); [|discriminate].
    apply object_members_unique_keys; [exact IH | constructor]. }
  destruct (N.eqb c 91).
  { unfold JSONArray.
    assert (A : array_items (scan_once depth) (S (length t)) [] (skip_ws t)
                = Ok (v, r) -> unique_keys v)
      by (apply array_items_unique_keys; [exact IH | constructor]).
    destruct (skip_ws t) as [|c1 s1]; [exact A|].
    destruct (N.eqb c1 93); [|exact A].
    intros H. inversion H; subst. exact I. }
  pose proof (scan_literal_result (c :: t)) as K. intros H. rewrite H in K.
  destruct K as [_ K]. destruct v; try discriminate; exact I.
Qed.

End DecoderFacts.

(* ------------------------------------------------------------------ *)
(** * One pass and two passes of [sanitize_json_str] *)
(* ------------------------------------------------------------------ *)

Lemma first_start_cases (s : str) :
  (~ In 123%N s /\ ~ In 91%N s)
  \/ exists pre c rest,
       s = pre ++ c :: rest /\ (c = 123%N \/ c = 91%N)
       /\ ~ In 123%N pre /\ ~ In 91%N pre.
Proof.
  induction s as [|x s IH].
  - left. split; intros [].
  - destruct (N.eq_dec x 123) as [->|N1];
      [right; exists [], 123%N, s; repeat split; auto|].
    destruct (N.eq_dec x 91) as [->|N2];
      [right; exists [], 91%N, s; repeat split; auto|].
    destruct IH as [[H1 H2]|(pre & c & rest & -> & Hc & H1 & H2)].
    + left. split; intros [H|H]; auto.
    + right. exists (x :: pre), c, rest.
      repeat split; auto; intros [H|H]; auto.
Qed.

Lemma strip_fences_container (c c' : N) (body : str) :
  c = 123%N \/ c = 91%N -> c' = 125%N \/ c' = 93%N ->
  strip_fences (c :: body ++ [c']) = c :: body ++ [c'].
Proof.
  intros Hc Hc'. unfold strip_fences.
  assert (Hl : last (c :: body ++ [c']) 0%N = c').
  { change (c :: body ++ [c']) with ((c :: body) ++ [c']). apply last_last. }
  rewrite strip_fixed.
  2:{ right. rewrite Hl. cbn [hd].
      destruct Hc as [->| ->], Hc' as [->| ->]; split; reflexivity. }
  assert (S1 : startswith fence (c :: body ++ [c']) = false)
    by (destruct Hc as [->| ->]; reflexivity).
  rewrite S1.
  assert (S2 : endswith fence (c :: body ++ [c']) = false).
  { unfold endswith. change (c :: body ++ [c']) with ((c :: body) ++ [c']).
    rewrite rev_app_distr. destruct Hc' as [->| ->]; reflexivity. }
  rewrite S2. reflexivity.
Qed.

Section Passes.
Context {L : PyLib}.

(** A successful extraction decoded a value at the earliest brace or
    bracket of the text without its fences. *)
Lemma extract_cases (raw obj : pyval) :
  extract_first_json_value raw = Ok obj ->
  exists text pre c rest r,
    raw = PStr text /\ text <> []
    /\ strip_fences text = pre ++ c :: rest
    /\ (c = 123%N \/ c = 91%N) /\ ~ In 123%N pre /\ ~ In 91%N pre
    /\ raw_decode (c :: rest) = Ok (obj, r).
Proof.
  intros E.
  destruct raw as [| | | |text| |]; try discriminate E.
  destruct text as [|t0 text]; [discriminate E|].
  assert (NE : t0 :: text <> []) by discriminate.
  destruct (first_start_cases (strip_fences (t0 :: text)))
    as [[H1 H2]|(pre & c & rest & Es & Hc & H1 & H2)].
  - rewrite (extract_no_start _ NE H1 H2) in E. discriminate.
  - rewrite (extract_at_first_start _ pre rest c NE Es Hc H1 H2) in E.
    destruct (raw_decode (c :: rest)) as [[v r]|e] eqn:R; [|discriminate].
    cbn [bind] in E. inversion E; subst.
    exists (t0 :: text), pre, c, rest, r. repeat split; auto.
Qed.

Lemma raw_decode_container (c : N) (rest : str) (obj : pyval) (r : str) :
  c = 123%N \/ c = 91%N -> raw_decode (c :: rest) = Ok (obj, r) ->
  is_container obj = true /\ unique_keys obj.
Proof.
  intros Hc. unfold raw_decode.
  destruct (scan_once (S (length (c :: rest))) (c :: rest)) as [[v r']|e] eqn:E;
    [|destruct e; discriminate].
  cbn [expecting_value]. intros H. inversion H; subst.
  split; [|eapply scan_once_unique_keys; exact E].
  rewrite scan_once_cases in E. destruct Hc as [->| ->]; cbn [N.eqb Pos.eqb] in E.
  - apply JSONObject_dict in E. destruct E as [d ->]. reflexivity.
  - apply JSONArray_list in E. destruct E as [l ->]. reflexivity.
Qed.

Lemma extract_not_blank (raw obj : pyval) :
  extract_first_json_value raw = Ok obj ->
  exists text, raw = PStr text /\ is_blank text = false.
Proof.
  intros E. destruct (extract_cases _ _ E)
    as (text & pre & c & rest & r & -> & NE & Es & _).
  exists text. split; [reflexivity|]. unfold is_blank.
  destruct (strip text) eqn:S; [|reflexivity].
  unfold strip_fences in Es. rewrite S in Es. cbn in Es.
  destruct pre; discriminate.
Qed.

(** When the extraction succeeds, the result is the compact text of the
    sanitised value. *)
Lemma sanitize_json_str_ok (raw obj : pyval) :
  extract_first_json_value raw = Ok obj ->
  sanitize_json_str raw = PStr (dumps (sanitize_links obj)).
Proof.
  intros E. destruct (extract_not_blank _ _ E) as (text & -> & B).
  unfold sanitize_json_str. rewrite B, E. reflexivity.
Qed.

Lemma dumps_container (v : pyval) :
  is_container v = true ->
  exists c body c',
    dumps v = c :: body ++ [c']
    /\ (c = 123%N \/ c = 91%N) /\ (c' = 125%N \/ c' = 93%N).
Proof.
  destruct v as [| | | | |l|d]; try discriminate; intros _.
  - rewrite dumps_list. eauto 10.
  - rewrite dumps_dict. eauto 10.
Qed.

Lemma sanitize_links_container (v : pyval) :
  is_container v = true -> is_container (sanitize_links v) = true.
Proof. destruct v; try discriminate; reflexivity. Qed.

(** The compact text of a container is extracted as that container. *)
Lemma extract_dumps (v : pyval) :
  is_container v = true -> unique_keys v ->
  Forall float_rereads (floats_of v) ->
  extract_first_json_value (PStr (dumps v)) = Ok v.
Proof.
  intros C U F. destruct (dumps_container v C) as (c & body & c' & E & Hc & Hc').
  rewrite (extract_at_first_start (dumps v) [] (body ++ [c']) c).
  - rewrite <- E. unfold raw_decode.
    destruct (scan_once_dumps v U F) as [_ R].
    specialize (R (S (length (dumps v))) [] ltac:(lia) I).
    rewrite app_nil_r in R. rewrite R. reflexivity.
  - rewrite E. discriminate.
  - rewrite E. apply strip_fences_container; assumption.
  - exact Hc.
  - intros [].
  - intros [].
Qed.

End Passes.

Section Settled.
Context {L : PyLib}.

(** When no whitespace stands before the trailing punctuation, the
    normalised string is the trimmed one without that punctuation. *)
Lemma normalize_url_clean (u0 : str) :
  space_before_punctuation u0 = false ->
  normalize_url (Some u0) = []
  \/ ~ In (last (normalize_url (Some u0)) 0%N) trailing_punctuation.
Proof.
  unfold space_before_punctuation, normalize_url.
  set (a := strip u0).
  pose proof (strip_trailing_stripped (length a) a (le_n _)) as (p & Ea & _ & T).
  destruct (strip_trailing (length a) a) as [|c b] eqn:Eb; [left; reflexivity|].
  intros W. right. rewrite strip_fixed; [destruct T as [T|T]; [discriminate|exact T]|].
  right. split; [|exact W].
  destruct (strip_trimmed u0) as (l & r & _ & _ & _ & H). fold a in H.
  destruct H as [H|[H _]]; [rewrite H in Ea; discriminate|].
  rewrite Ea in H. exact H.
Qed.

Lemma normalize_url_trimmed (u0 : str) :
  normalize_url (Some u0) = []
  \/ (isspace (hd 0%N (normalize_url (Some u0))) = false
      /\ isspace (last (normalize_url (Some u0)) 0%N) = false).
Proof.
  unfold normalize_url.
  destruct (strip_trimmed (strip_trailing (length (strip u0)) (strip u0)))
    as (_ & _ & _ & _ & _ & H).
  exact H.
Qed.

(** C5, as amended. In the value that [sanitize_json_str] encodes, every
    string under a key url is [normalize_url] of the string decoded there;
    it has no whitespace at either end; and unless whitespace stood
    directly before the trailing punctuation of the decoded string, it
    does not end in any of ) ] . , ; double quote, apostrophe. *)
Theorem sanitized_url_strings (raw obj : pyval) (u : str) :
  extract_first_json_value raw = Ok obj ->
  In u (url_strings (sanitize_links obj)) ->
  sanitize_json_str raw = PStr (dumps (sanitize_links obj))
  /\ exists u0,
       In u0 (url_strings obj)
       /\ u = normalize_url (Some u0)
       /\ (u = [] \/ (isspace (hd 0%N u) = false /\ isspace (last u 0%N) = false))
       /\ (space_before_punctuation u0 = false ->
           u = [] \/ ~ In (last u 0%N) [41; 93; 46; 44; 59; 34; 39]%N).
Proof.
  intros E Hu. split; [apply sanitize_json_str_ok; exact E|].
  destruct (extract_cases _ _ E)
    as (text & pre & c & rest & r & _ & _ & _ & Hc & _ & _ & R).
  destruct (raw_decode_container c rest obj r Hc R) as [_ U].
  destruct (sanitize_links_urls obj U u Hu) as (u0 & H0 & ->).
  exists u0. repeat split; auto.
  - apply normalize_url_trimmed.
  - apply normalize_url_clean.
Qed.

(** C6, as amended. A second pass of [sanitize_json_str] changes nothing
    when, in the value the first pass extracts, [normalize_url] is done
    with every url string after one application (and every float prints
    to a text that reads back as itself). This holds of any text [raw], so
    of the encoding of any value by any encoder. *)
Theorem sanitize_json_str_idempotent_when_settled (raw : pyval) :
  (forall obj, extract_first_json_value raw = Ok obj ->
               urls_settled obj /\ Forall float_rereads (floats_of obj)) ->
  sanitize_json_str (sanitize_json_str raw) = sanitize_json_str raw.
Proof.
  intros H.
  destruct (sanitize_json_str_cases raw) as [E|(s & obj & -> & _ & E & Eo)];
    [rewrite E; exact E|].
  destruct (H obj E) as [Su Fl].
  destruct (extract_cases _ _ E)
    as (text & pre & c & rest & r & _ & _ & _ & Hc & _ & _ & R).
  destruct (raw_decode_container c rest obj r Hc R) as [C U].
  rewrite Eo.
  rewrite (sanitize_json_str_ok (PStr (dumps (sanitize_links obj)))
             (sanitize_links obj)).
  - rewrite sanitize_links_idempotent by assumption. reflexivity.
  - apply extract_dumps.
    + apply sanitize_links_container. exact C.
    + apply sanitize_links_unique_keys. exact U.
    + apply sanitize_links_floats; assumption.
Qed.

End Settled.


(* ------------------------------------------------------------------ *)
(** * The decoder: budgets beyond the length of the text do not matter *)
(* ------------------------------------------------------------------ *)

Section Budgets.
Context {L : PyLib}.

Lemma array_items_budget scan scan' (n : nat) :
  (forall s, length s <= n -> scan s = scan' s) -> progresses scan n ->
  forall fuel fuel' values s,
    length s <= n -> length s < fuel -> length s < fuel' ->
    array_items scan fuel values s = array_items scan' fuel' values s.
Proof.
  intros A P. induction fuel as [|fuel IH]; intros fuel' values s Hn Hf Hf';
    [lia|]. destruct fuel' as [|fuel']; [lia|]. cbn [array_items].
  rewrite <- (A s Hn). specialize (P s Hn).
  destruct (scan s) as [[value s1]|e]; cbn [expecting_value bind];
    [|destruct e; reflexivity].
  pose proof (skip_ws_length s1) as W.
  destruct (skip_ws s1) as [|c s2]; [reflexivity|]. cbn [length] in W.
  destruct (N.eqb c 93); [reflexivity|].
  destruct (N.eqb c 44); [|reflexivity].
  pose proof (skip_ws_length s2) as W2. apply IH; lia.
Qed.

Lemma object_members_budget scan scan' (n : nat) :
  (forall s, length s <= n -> scan s = scan' s) -> progresses scan n ->
  forall fuel fuel' pairs s,
    length s <= n -> length s < fuel -> length s < fuel' ->
    object_members scan fuel pairs s = object_members scan' fuel' pairs s.
Proof.
  intros A P. induction fuel as [|fuel IH]; intros fuel' pairs s Hn Hf Hf';
    [lia|]. destruct fuel' as [|fuel']; [lia|]. cbn [object_members].
  pose proof (scanstring_result s []) as K.
  destruct (scanstring s []) as [[key s1]|e]; cbn [bind]; [|reflexivity].
  pose proof (skip_ws_length s1) as W1.
  destruct (skip_ws s1) as [|c s2]; [reflexivity|]. cbn [length] in W1.
  destruct (N.eqb c 58); [|reflexivity].
  pose proof (skip_ws_length s2) as W2.
  rewrite <- (A (skip_ws s2)) by lia. specialize (P (skip_ws s2) ltac:(lia)).
  destruct (scan (skip_ws s2)) as [[value s3]|e]; cbn [expecting_value bind];
    [|destruct e; reflexivity].
  pose proof (skip_ws_length s3) as W3.
  destruct (skip_ws s3) as [|c' s4]; [reflexivity|]. cbn [length] in W3.
  destruct (N.eqb c' 125); [reflexivity|].
  destruct (N.eqb c' 44); [|reflexivity].
  pose proof (skip_ws_length s4) as W4.
  destruct (skip_ws s4) as [|q s5]; [reflexivity|]. cbn [length] in W4.
  destruct (N.eqb q 34); [|reflexivity]. apply IH; lia.
Qed.

(** Any two depths above the length of the text give the same result. *)
Lemma scan_once_budget (depth depth' : nat) (s : str) :
  length s < depth -> length s < depth' ->
  scan_once depth s = scan_once depth' s.
Proof.
  revert depth' s. induction depth as [|depth IH]; intros depth' s H H'; [lia|].
  destruct depth' as [|depth']; [lia|].
  destruct s as [|c t]; [reflexivity|]. cbn [length] in H, H'.
  rewrite !scan_once_cases.
  assert (A : forall s', length s' <= length t ->
                scan_once depth s' = scan_once depth' s')
    by (intros s' Hs'; apply IH; lia).
  assert (P : progresses (scan_once depth) (length t))
    by (intros s' Hs'; apply scan_once_progress; lia).
  destruct (N.eqb c 34); [reflexivity|].
  destruct (N.eqb c 123).
  { unfold JSONObject. pose proof (skip_ws_length t) as W.
    destruct (skip_ws t) as [|c1 s1]; [reflexivity|]. cbn [length] in W.
    destruct (N.eqb c1 125); [reflexivity|].
    destruct (N.eqb c1 34); [|reflexivity].
    apply (object_members_budget _ _ (length t) A P); lia. }
  destruct (N.eqb c 91); [|reflexivity].
  unfold JSONArray. pose proof (skip_ws_length t) as W.
  assert (E : array_items (scan_once depth) (S (length t)) [] (skip_ws t)
              = array_items (scan_once depth') (S (length t)) [] (skip_ws t))
    by (apply (array_items_budget _ _ (length t) A P); lia).
  destruct (skip_ws t) as [|c1 s1]; [exact E|].
  destruct (N.eqb c1 93); [reflexivity | exact E].
Qed.

End Budgets.

(* ------------------------------------------------------------------ *)
(** * The decoder: what follows the value does not matter *)
(* ------------------------------------------------------------------ *)

Lemma scanstring_unicode (h1 h2 h3 h4 : N) (s3 acc : str) :
  scanstring (92 :: 117 :: h1 :: h2 :: h3 :: h4 :: s3)%N acc
  = match decode_uXXXX h1 h2 h3 h4 with
    | None => Raise (JSONDecodeError "Invalid \uXXXX escape")
    | Some uni =>
        if is_high_surrogate uni then
          match surrogate_lookahead s3 with
          | None => Raise (JSONDecodeError "Invalid \uXXXX escape")
          | Some None => scanstring s3 (uni :: acc)
          | Some (Some uni2) =>
              scanstring (skipn 6 s3) (join_surrogates uni uni2 :: acc)
          end
        else scanstring s3 (uni :: acc)
    end.
Proof.
  cbn [scanstring N.eqb Pos.eqb].
  destruct (decode_uXXXX h1 h2 h3 h4) as [uni|]; [|reflexivity].
  destruct (is_high_surrogate uni); [|reflexivity].
  destruct s3 as [|b1 [|u1 [|k1 [|k2 [|k3 [|k4 s4]]]]]]; try reflexivity.
  cbn [surrogate_lookahead skipn].
  destruct (N.eqb b1 92 && N.eqb u1 117); [|reflexivity].
  destruct (decode_uXXXX k1 k2 k3 k4) as [uni2|]; [|reflexivity].
  destruct (is_low_surrogate uni2); reflexivity.
Qed.

Lemma surrogate_lookahead_prefix (q a b : str) :
  length q = 6 -> surrogate_lookahead (q ++ a) = surrogate_lookahead (q ++ b).
Proof.
  destruct q as [|b1 [|u1 [|k1 [|k2 [|k3 [|k4 [|x q]]]]]]]; try discriminate.
  reflexivity.
Qed.

Lemma surrogate_lookahead_start (s : str) :
  surrogate_lookahead s <> Some None ->
  exists rest, s = 92%N :: 117%N :: rest.
Proof.
  destruct s as [|b1 [|u1 [|k1 [|k2 [|k3 [|k4 s4]]]]]]; cbn; try congruence.
  destruct (N.eqb_spec b1 92) as [->|]; [|cbn; congruence].
  destruct (N.eqb_spec u1 117) as [->|]; [|cbn; congruence].
  eauto.
Qed.

Lemma scanstring_escape (e : N) (t acc : str) :
  e <> 117%N ->
  scanstring (92%N :: e :: t) acc
  = match backslash e with
    | None => Raise (JSONDecodeError "Invalid \escape")
    | Some ch => scanstring t (ch :: acc)
    end.
Proof.
  intros NE. cbn [scanstring N.eqb Pos.eqb].
  destruct (N.eqb_spec e 117); [congruence | reflexivity].
Qed.

Lemma scanstring_plain (c : N) (t acc : str) :
  c <> 34%N -> c <> 92%N ->
  scanstring (c :: t) acc
  = if N.ltb c 32 then Raise (JSONDecodeError "Invalid control character at")
    else scanstring t (c :: acc).
Proof.
  intros N1 N2. cbn [scanstring].
  destruct (N.eqb_spec c 34); [congruence|].
  destruct (N.eqb_spec c 92); [congruence|]. reflexivity.
Qed.

Lemma skipn_length_le (n : nat) (s : str) : length (skipn n s) <= length s.
Proof. rewrite length_skipn. lia. Qed.

(** An escape takes at least two characters, a \u escape at least six. *)
Lemma scanstring_escape_consumed (s1 acc x r : str) :
  scanstring (92%N :: s1) acc = Ok (x, r) ->
  length r + 2 <= length (92%N :: s1)
  /\ (forall s2, s1 = 117%N :: s2 -> length r + 6 <= length (92%N :: s1)).
Proof.
  intros H. destruct s1 as [|e s2]; [discriminate H|].
  destruct (N.eq_dec e 117) as [->|NE].
  - destruct s2 as [|h1 [|h2 [|h3 [|h4 s3]]]]; try discriminate H.
    rewrite scanstring_unicode in H.
    assert (K : length r < length s3).
    { destruct (decode_uXXXX h1 h2 h3 h4) as [uni|]; [|discriminate H].
      assert (K3 : forall acc', scanstring s3 acc' = Ok (x, r) ->
                                length r < length s3).
      { intros acc' H'. pose proof (scanstring_result s3 acc') as R.
        rewrite H' in R. exact R. }
      destruct (is_high_surrogate uni); [|eauto].
      destruct (surrogate_lookahead s3) as [[uni2|]|]; [| eauto | discriminate H].
      pose proof (scanstring_result (skipn 6 s3) (join_surrogates uni uni2 :: acc)) as R.
      rewrite H in R. pose proof (skipn_length_le 6 s3). lia. }
    cbn [length]. split; [lia|]. intros s2' _. lia.
  - rewrite scanstring_escape in H by exact NE.
    destruct (backslash e) as [ch|]; [|discriminate H].
    pose proof (scanstring_result s2 (ch :: acc)) as R. rewrite H in R.
    cbn [length]. split; [lia|]. intros s2' E. congruence.
Qed.

(** The lookahead after a high surrogate sees the same characters whatever
    follows the string. *)
Lemma lookahead_stable (p r t acc x : str) :
  scanstring (p ++ r) acc = Ok (x, r) ->
  surrogate_lookahead (p ++ r) = Some None ->
  surrogate_lookahead (p ++ t) = Some None.
Proof.
  intros H Hs.
  assert (Long : (exists rest, p ++ t = 92%N :: 117%N :: rest) ->
                 surrogate_lookahead (p ++ t) = Some None).
  { intros [rest Q].
    pose proof (scanstring_result (p ++ r) acc) as R. rewrite H in R.
    rewrite length_app in R.
    destruct p as [|p0 p]; [cbn in R; lia|]. cbn [app] in Q, H.
    inversion Q as [[Q0 Q1]]. subst p0.
    destruct (scanstring_escape_consumed _ _ _ _ H) as [C2 C6].
    cbn [length] in C2. rewrite length_app in C2.
    destruct p as [|p1 p]; [cbn [length] in C2; lia|].
    cbn [app] in Q1. inversion Q1 as [[Q2 Q3]]. subst p1.
    specialize (C6 _ eq_refl). cbn [length] in C6. rewrite length_app in C6.
    destruct p as [|a1 [|a2 [|a3 [|a4 p']]]]; cbn [length] in C6; try lia.
    change ((92 :: 117 :: a1 :: a2 :: a3 :: a4 :: p') ++ t)%N
      with ([92; 117; a1; a2; a3; a4]%N ++ (p' ++ t)).
    rewrite (surrogate_lookahead_prefix [92; 117; a1; a2; a3; a4]%N
               (p' ++ t) (p' ++ r) eq_refl).
    exact Hs. }
  pose proof (surrogate_lookahead_start (p ++ t)) as St.
  destruct (surrogate_lookahead (p ++ t)) as [[lo|]|]; [|reflexivity|];
    apply Long, St; discriminate.
Qed.

(** [scanstring] looks at nothing beyond the closing quote. *)
Lemma scanstring_stable (s acc x r : str) :
  scanstring s acc = Ok (x, r) ->
  exists p, s = p ++ r /\ forall t, scanstring (p ++ t) acc = Ok (x, t).
Proof.
  remember (length s) as n eqn:En. revert s acc x r En.
  induction n as [n IH] using lt_wf_ind. intros s acc x r -> H.
  assert (Rec : forall s' acc', length s' < length s ->
            scanstring s' acc' = Ok (x, r) ->
            exists p, s' = p ++ r
                      /\ forall t, scanstring (p ++ t) acc' = Ok (x, t))
    by (intros s' acc' Hl H'; exact (IH _ Hl s' acc' x r eq_refl H')).
  clear IH.
  destruct s as [|c s1]; [discriminate H|].
  destruct (N.eq_dec c 34) as [->|N34].
  { cbn in H. inversion H; subst. exists [34%N]. split; reflexivity. }
  destruct (N.eq_dec c 92) as [->|N92].
  2:{ rewrite scanstring_plain in H by assumption.
      destruct (N.ltb c 32) eqn:Lt; [discriminate H|].
      destruct (Rec s1 (c :: acc) ltac:(cbn; lia) H) as (p & -> & S).
      exists (c :: p). split; [reflexivity|]. intros t. cbn [app].
      rewrite scanstring_plain by assumption. rewrite Lt. apply S. }
  destruct s1 as [|e s2]; [discriminate H|].
  destruct (N.eq_dec e 117) as [->|N117].
  2:{ rewrite scanstring_escape in H by exact N117.
      destruct (backslash e) as [ch|] eqn:B; [|discriminate H].
      destruct (Rec s2 (ch :: acc) ltac:(cbn; lia) H) as (p & -> & S).
      exists (92%N :: e :: p). split; [reflexivity|]. intros t. cbn [app].
      rewrite scanstring_escape by exact N117. rewrite B. apply S. }
  destruct s2 as [|h1 [|h2 [|h3 [|h4 s3]]]]; try discriminate H.
  rewrite scanstring_unicode in H.
  destruct (decode_uXXXX h1 h2 h3 h4) as [uni|] eqn:D; [|discriminate H].
  assert (Plain : scanstring s3 (uni :: acc) = Ok (x, r) ->
                  (is_high_surrogate uni = true ->
                   surrogate_lookahead s3 = Some None) ->
                  exists p, 92%N :: 117%N :: h1 :: h2 :: h3 :: h4 :: s3 = p ++ r
                    /\ forall t, scanstring (p ++ t) acc = Ok (x, t)).
  { intros H3 Hs.
    destruct (Rec s3 (uni :: acc) ltac:(cbn; lia) H3) as (p & E3 & S).
    exists (92%N :: 117%N :: h1 :: h2 :: h3 :: h4 :: p).
    split; [cbn [app]; rewrite E3; reflexivity|]. intros t. cbn [app].
    rewrite scanstring_unicode, D.
    destruct (is_high_surrogate uni) eqn:Hi; [|apply S].
    specialize (Hs eq_refl).
    assert (Look : surrogate_lookahead (p ++ t) = Some None).
    { apply (lookahead_stable p r t (uni :: acc) x);
        rewrite <- E3; assumption. }
    rewrite Look. apply S. }
  destruct (is_high_surrogate uni) eqn:Hi; [|apply Plain; [exact H | discriminate]].
  destruct (surrogate_lookahead s3) as [[uni2|]|] eqn:Lk;
    [| apply Plain; [exact H | reflexivity] | discriminate H].
  (* the pair is joined *)
  assert (S6 : exists q s4, s3 = q ++ s4 /\ length q = 6 /\ skipn 6 s3 = s4).
  { destruct s3 as [|b1 [|u1 [|k1 [|k2 [|k3 [|k4 s4]]]]]]; try discriminate Lk.
    exists [b1; u1; k1; k2; k3; k4], s4. repeat split. }
  destruct S6 as (q & s4 & -> & Lq & Sk). rewrite Sk in H.
  destruct (Rec s4 (join_surrogates uni uni2 :: acc)) as (p & -> & S);
    [cbn [length]; rewrite length_app; lia | exact H |].
  exists (92%N :: 117%N :: h1 :: h2 :: h3 :: h4 :: q ++ p).
  split; [cbn [app]; rewrite <- app_assoc; reflexivity|]. intros t.
  cbn [app]. rewrite scanstring_unicode, D, Hi, <- app_assoc.
  rewrite (surrogate_lookahead_prefix q (p ++ t) (p ++ r) Lq), Lk.
  assert (Sk' : skipn 6 (q ++ p ++ t) = p ++ t).
  { rewrite <- Lq. apply skipn_app_exact. }
  rewrite Sk'. apply S.
Qed.

Lemma closes_cases (t : str) :
  closes t ->
  exists c t', t = c :: t'
    /\ (c = 32 \/ c = 9 \/ c = 10 \/ c = 13 \/ c = 44 \/ c = 93 \/ c = 125)%N.
Proof.
  destruct t as [|c t']; [intros []|]. cbn [closes]. unfold is_json_ws.
  rewrite !orb_true_iff, !N.eqb_eq. intros H. exists c, t'.
  split; [reflexivity|]. tauto.
Qed.

Lemma span_digits_split (s ds r : str) :
  span_digits s = (ds, r) ->
  s = ds ++ r /\ Forall (fun c => is_digit c = true) ds.
Proof.
  revert ds r. induction s as [|c s IH]; intros ds r; cbn [span_digits].
  - intros H. inversion H. split; [reflexivity | constructor].
  - destruct (is_digit c) eqn:D.
    + destruct (span_digits s) as [ds' r']. intros H. inversion H; subst.
      destruct (IH ds' r eq_refl) as [-> F]. split; [reflexivity|].
      constructor; assumption.
    + intros H. inversion H. split; [reflexivity | constructor].
Qed.

Lemma match_integer_after_stable (sign s i r : str) :
  match_integer_after sign s = Some (i, r) ->
  exists ds, ds <> [] /\ s = ds ++ r
    /\ forall t, no_digit_ahead t ->
         match_integer_after sign (ds ++ t) = Some (i, t).
Proof.
  destruct s as [|c s1]; cbn [match_integer_after]; [discriminate|].
  destruct (N.eqb c 48) eqn:Z.
  - intros H. inversion H; subst. exists [c]. repeat split; [discriminate|].
    intros t _. cbn [app match_integer_after]. rewrite Z. reflexivity.
  - destruct (in_range 49 57 c) eqn:R; [|discriminate].
    destruct (span_digits s1) as [ds r'] eqn:Sp. intros H. inversion H; subst.
    destruct (span_digits_split _ _ _ Sp) as [-> F].
    exists (c :: ds). repeat split; [discriminate|].
    intros t T. cbn [app match_integer_after]. rewrite Z, R.
    rewrite span_digits_all by assumption. reflexivity.
Qed.

Lemma match_integer_stable (s i r : str) :
  match_integer s = Some (i, r) ->
  exists p, p <> [] /\ s = p ++ r
    /\ (exists c p', p = c :: p' /\ (c = 45%N \/ is_digit c = true))
    /\ forall t, no_digit_ahead t -> match_integer (p ++ t) = Some (i, t).
Proof.
  destruct s as [|c s1]; cbn [match_integer]; [discriminate|].
  destruct (N.eqb_spec c 45) as [->|NE].
  - intros H. destruct (match_integer_after_stable _ _ _ _ H) as (ds & _ & -> & S).
    exists (45%N :: ds). repeat split; [discriminate | eauto |].
    intros t T. cbn [app match_integer N.eqb Pos.eqb]. apply S. exact T.
  - intros H. pose proof H as H'.
    destruct (match_integer_after_stable _ _ _ _ H) as (ds & NEd & E & S).
    exists ds. repeat split; [exact NEd | exact E | |].
    + destruct ds as [|d ds']; [congruence|]. cbn [app] in E.
      inversion E; subst d. exists c, ds'. split; [reflexivity|right].
      cbn [match_integer_after] in H'. unfold is_digit, in_range in *.
      destruct (N.eqb_spec c 48) as [->|]; [reflexivity|].
      destruct (N.leb 49 c && N.leb c 57) eqn:R; [|discriminate].
      apply andb_true_iff in R. destruct R as [R1 R2].
      apply N.leb_le in R1. rewrite R2, andb_true_r. apply N.leb_le. lia.
    + intros t T. destruct ds as [|d ds']; [congruence|]. cbn [app] in E |- *.
      inversion E; subst d. cbn [match_integer].
      destruct (N.eqb_spec c 45); [congruence|]. apply (S t T).
Qed.

Lemma match_frac_stable (s f r : str) :
  match_frac s = (f, r) ->
  s = f ++ r
  /\ (f = [] \/ exists ds, f = 46%N :: ds)
  /\ forall t, no_digit_ahead t -> (f <> [] \/ hd 0%N t <> 46%N) ->
       match_frac (f ++ t) = (f, t).
Proof.
  assert (Plain : forall t, hd 0%N t <> 46%N -> match_frac t = ([], t)).
  { intros [|c t] H; [reflexivity|]. cbn [match_frac hd] in *.
    destruct (N.eqb_spec c 46); [congruence | reflexivity]. }
  destruct s as [|c s1]; cbn [match_frac].
  { intros H. inversion H; subst. repeat split; [left; reflexivity|].
    intros t _ [H'|H']; [congruence | apply Plain; exact H']. }
  destruct (N.eqb_spec c 46) as [->|NE].
  - destruct (span_digits s1) as [[|d ds] r'] eqn:Sp; intros H; inversion H; subst.
    + repeat split; [left; reflexivity|].
      intros t _ [H'|H']; [congruence | apply Plain; exact H'].
    + destruct (span_digits_split _ _ _ Sp) as [-> F].
      repeat split; [right; eauto|]. intros t T _.
      cbn [app match_frac N.eqb Pos.eqb].
      change (d :: ds ++ t) with ((d :: ds) ++ t).
      rewrite span_digits_all by assumption. reflexivity.
  - intros H. inversion H; subst. repeat split; [left; reflexivity|].
    intros t _ [H'|H']; [congruence | apply Plain; exact H'].
Qed.

Lemma match_exp_stable (s e r : str) :
  match_exp s = (e, r) ->
  s = e ++ r
  /\ (e = [] \/ exists c ds, e = c :: ds /\ (c = 101%N \/ c = 69%N))
  /\ forall t, no_digit_ahead t ->
       (e <> [] \/ (hd 0%N t <> 101%N /\ hd 0%N t <> 69%N)) ->
       match_exp (e ++ t) = (e, t).
Proof.
  assert (Plain : forall t, hd 0%N t <> 101%N /\ hd 0%N t <> 69%N ->
                            match_exp t = ([], t)).
  { intros [|c t] [H1 H2]; [reflexivity|]. cbn [match_exp hd] in *.
    destruct (N.eqb_spec c 101); [congruence|].
    destruct (N.eqb_spec c 69); [congruence | reflexivity]. }
  assert (None_ : forall t : str,
             t = [] ++ t /\ (@nil N = [] \/ exists c ds, @nil N = c :: ds /\ (c = 101%N \/ c = 69%N))
             /\ forall t', no_digit_ahead t' ->
                  (@nil N <> [] \/ (hd 0%N t' <> 101%N /\ hd 0%N t' <> 69%N)) ->
                  match_exp ([] ++ t') = ([], t')).
  { intros t. repeat split; [left; reflexivity|].
    intros t' _ [H'|H']; [congruence | apply Plain; exact H']. }
  destruct s as [|c s1]; cbn [match_exp].
  { intros H. inversion H; subst. apply None_. }
  destruct (N.eqb c 101 || N.eqb c 69) eqn:Ec.
  2:{ intros H. inversion H; subst. apply None_. }
  assert (Hc : c = 101%N \/ c = 69%N).
  { apply orb_true_iff in Ec. rewrite !N.eqb_eq in Ec. exact Ec. }
  destruct s1 as [|g s2].
  { cbn. intros H. inversion H; subst. apply None_. }
  destruct (N.eqb g 45 || N.eqb g 43) eqn:Eg.
  - destruct (span_digits s2) as [[|d ds] r'] eqn:Sp; intros H; inversion H; subst.
    + apply None_.
    + destruct (span_digits_split _ _ _ Sp) as [-> F].
      repeat split; [right; eauto|]. intros t T _.
      cbn [app match_exp]. rewrite Ec, Eg.
      change (d :: ds ++ t) with ((d :: ds) ++ t).
      rewrite span_digits_all by assumption. reflexivity.
  - destruct (span_digits (g :: s2)) as [[|d ds] r'] eqn:Sp; intros H; inversion H; subst.
    + apply None_.
    + destruct (span_digits_split _ _ _ Sp) as [E F].
      cbn [app] in E. inversion E; subst.
      repeat split; [right; eauto|]. intros t T _.
      cbn [app match_exp]. rewrite Ec, Eg.
      change (d :: ds ++ t) with ((d :: ds) ++ t).
      rewrite span_digits_all by assumption. reflexivity.
Qed.

Lemma match_number_stable (s i f e r : str) :
  match_number s = Some (i, f, e, r) ->
  exists p, p <> [] /\ s = p ++ r
    /\ (exists c p', p = c :: p' /\ (c = 45%N \/ is_digit c = true))
    /\ forall t, closes t -> match_number (p ++ t) = Some (i, f, e, t).
Proof.
  unfold match_number.
  destruct (match_integer s) as [[i' s1]|] eqn:Ei; [|discriminate].
  destruct (match_frac s1) as [f' s2] eqn:Ef.
  destruct (match_exp s2) as [e' s3] eqn:Ee.
  intros H. inversion H; subst; clear H.
  destruct (match_integer_stable _ _ _ Ei) as (p & NE & -> & Hd & Si).
  destruct (match_frac_stable _ _ _ Ef) as (-> & Hf & Sf).
  destruct (match_exp_stable _ _ _ Ee) as (-> & He & Se).
  exists (p ++ f ++ e). repeat split.
  - destruct p; [congruence | discriminate].
  - rewrite <- !app_assoc. reflexivity.
  - destruct Hd as (c & p' & -> & Hc). exists c, (p' ++ f ++ e). auto.
  - intros t T. destruct (closes_cases t T) as (c & t' & -> & Hc).
    assert (T0 : no_digit_ahead (c :: t')).
    { cbn. destruct Hc as [->|[->|[->|[->|[->|[->| ->]]]]]]; reflexivity. }
    assert (T1 : no_digit_ahead (e ++ c :: t')).
    { destruct He as [->|(x & ds & -> & [->| ->])]; [exact T0 | reflexivity..]. }
    assert (T2 : no_digit_ahead (f ++ e ++ c :: t')).
    { destruct Hf as [->|(ds & ->)]; [exact T1 | reflexivity]. }
    rewrite <- !app_assoc. rewrite (Si _ T2). rewrite (Sf _ T1).
    + rewrite (Se _ T0); [reflexivity|].
      destruct He as [->|(x & ds & -> & _)]; [right | left; discriminate].
      cbn [hd]. destruct Hc as [->|[->|[->|[->|[->|[->| ->]]]]]]; split; discriminate.
    + destruct Hf as [->|(ds & ->)]; [right | left; discriminate].
      destruct He as [->|(x & ds & -> & [->| ->])]; cbn [app hd]; try discriminate.
      destruct Hc as [->|[->|[->|[->|[->|[->| ->]]]]]]; discriminate.
Qed.

Section Stability.
Context {L : PyLib}.

Lemma startswith_split (p s : str) :
  startswith p s = true -> s = p ++ skipn (length p) s.
Proof.
  revert s. induction p as [|x p IH]; intros s H; [reflexivity|].
  destruct s as [|y s]; [discriminate|]. cbn [startswith] in H.
  apply andb_true_iff in H. destruct H as [E H]. apply N.eqb_eq in E. subst y.
  cbn [length skipn app]. f_equal. apply IH. exact H.
Qed.

Lemma keywords_not_number (c : N) (t : str) :
  c = 45%N \/ is_digit c = true ->
  startswith (lit "null") (c :: t) = false
  /\ startswith (lit "true") (c :: t) = false
  /\ startswith (lit "false") (c :: t) = false.
Proof.
  intros Hc. repeat split.
  - destruct (startswith (lit "null") (c :: t)) eqn:S; [|reflexivity].
    apply startswith_head in S. subst c. destruct Hc; discriminate.
  - destruct (startswith (lit "true") (c :: t)) eqn:S; [|reflexivity].
    apply startswith_head in S. subst c. destruct Hc; discriminate.
  - destruct (startswith (lit "false") (c :: t)) eqn:S; [|reflexivity].
    apply startswith_head in S. subst c. destruct Hc; discriminate.
Qed.

Lemma scan_literal_stable (s : str) (v : pyval) (r : str) :
  scan_literal s = Ok (v, r) ->
  exists p, p <> [] /\ s = p ++ r
    /\ forall t, closes t -> scan_literal (p ++ t) = Ok (v, t).
Proof.
  unfold scan_literal.
  destruct (startswith (lit "null") s) eqn:E1.
  { intros H. inversion H; subst. exists (lit "null").
    split; [discriminate|]. split; [apply (startswith_split _ _ E1)|].
    intros t _. reflexivity. }
  destruct (startswith (lit "true") s) eqn:E2.
  { intros H. inversion H; subst. exists (lit "true").
    split; [discriminate|]. split; [apply (startswith_split _ _ E2)|].
    intros t _. reflexivity. }
  destruct (startswith (lit "false") s) eqn:E3.
  { intros H. inversion H; subst. exists (lit "false").
    split; [discriminate|]. split; [apply (startswith_split _ _ E3)|].
    intros t _. reflexivity. }
  destruct (match_number s) as [[[[i f] e] r']|] eqn:M.
  { intros H.
    destruct (match_number_stable _ _ _ _ _ M) as (p & NE & -> & (c & p' & -> & Hc) & S).
    assert (r' = r /\ (match f, e with
                       | [], [] => PInt (int_of_literal i)
                       | _, _ => PFloat (float_of_literal (i ++ f ++ e))
                       end) = v) as [-> <-]
      by (destruct f, e; inversion H; auto).
    exists (c :: p'). split; [discriminate|]. split; [reflexivity|].
    intros t T. cbn [app].
    destruct (keywords_not_number c (p' ++ t) Hc) as (K1 & K2 & K3).
    rewrite K1, K2, K3. change (c :: p' ++ t) with ((c :: p') ++ t).
    rewrite (S t T). destruct f, e; reflexivity. }
  destruct (startswith (lit "NaN") s) eqn:E4.
  { intros H. inversion H; subst. exists (lit "NaN").
    split; [discriminate|]. split; [apply (startswith_split _ _ E4)|].
    intros t _. reflexivity. }
  destruct (startswith (lit "Infinity") s) eqn:E5.
  { intros H. inversion H; subst. exists (lit "Infinity").
    split; [discriminate|]. split; [apply (startswith_split _ _ E5)|].
    intros t _. reflexivity. }
  destruct (startswith (lit "-Infinity") s) eqn:E6; [|discriminate].
  intros H. inversion H; subst. exists (lit "-Infinity").
  split; [discriminate|]. split; [apply (startswith_split _ _ E6)|].
  intros t _. reflexivity.
Qed.

Lemma skip_ws_split (s : str) :
  exists ws, s = ws ++ skip_ws s /\ Forall (fun c => is_json_ws c = true) ws.
Proof.
  induction s as [|c s (ws & E & F)]; cbn [skip_ws].
  - exists []. split; [reflexivity | constructor].
  - destruct (is_json_ws c) eqn:W.
    + exists (c :: ws). split; [cbn; f_equal; exact E | constructor; assumption].
    + exists []. split; [reflexivity | constructor].
Qed.

Lemma skip_ws_app (ws x : str) :
  Forall (fun c => is_json_ws c = true) ws ->
  skip_ws (ws ++ x) = skip_ws x.
Proof.
  induction 1 as [|c ws W _ IH]; [reflexivity|].
  cbn [app skip_ws]. rewrite W. exact IH.
Qed.

Lemma skip_ws_head (s : str) (c : N) (s' : str) :
  skip_ws s = c :: s' -> is_json_ws c = false.
Proof.
  induction s as [|x s IH]; cbn [skip_ws]; [discriminate|].
  destruct (is_json_ws x) eqn:W; [exact IH|]. intros H. inversion H; subst. exact W.
Qed.

Lemma skip_ws_fixed (c : N) (s : str) :
  is_json_ws c = false -> skip_ws (c :: s) = c :: s.
Proof. intros W. cbn [skip_ws]. rewrite W. reflexivity. Qed.

Lemma closes_ws_app (ws : str) (c : N) (t : str) :
  Forall (fun c => is_json_ws c = true) ws ->
  c = 44%N \/ c = 93%N \/ c = 125%N ->
  closes (ws ++ c :: t).
Proof.
  intros F Hc. destruct F as [|w ws W _]; cbn [app closes]; auto.
Qed.

Lemma array_items_stable scan (n : nat) :
  stable scan n ->
  forall fuel values s v r,
    length s <= n ->
    array_items scan fuel values s = Ok (v, r) ->
    exists p,
      p <> [] /\ s = p ++ r
      /\ forall t, length (p ++ t) <= n ->
           array_items scan fuel values (p ++ t) = Ok (v, t).
Proof.
  intros St. induction fuel as [|fuel IH]; intros values s v r Hn;
    cbn [array_items]; [discriminate|].
  destruct (scan s) as [[value s1]|e] eqn:E; cbn [expecting_value bind];
    [|destruct e; discriminate].
  destruct (St s value s1 Hn E) as (p1 & NE1 & -> & S1).
  destruct (skip_ws_split s1) as (ws & Es1 & Fw).
  destruct (skip_ws s1) as [|c s2] eqn:Sk; [discriminate|].
  pose proof (skip_ws_head _ _ _ Sk) as Wc. clear Sk. subst s1.
  destruct (N.eqb_spec c 93) as [->|N93].
  { intros H. inversion H; subst.
    exists (p1 ++ ws ++ [93%N]). split; [destruct p1; [congruence|discriminate]|].
    split; [rewrite <- !app_assoc; reflexivity|].
    intros t Ht. rewrite <- !app_assoc. cbn [app] in *.
    rewrite (S1 (ws ++ 93%N :: t)).
    - cbn [expecting_value bind]. rewrite skip_ws_app by exact Fw.
      cbn. reflexivity.
    - lengths.
    - right. apply closes_ws_app; auto. }
  destruct (N.eqb_spec c 44) as [->|N44]; [|discriminate].
  intros H. destruct (skip_ws_split s2) as (ws2 & Es2 & Fw2).
  assert (Hl : length (skip_ws s2) <= n).
  { rewrite Es2 in Hn. lengths. }
  destruct (IH _ _ _ _ Hl H) as (p' & NE' & E' & S').
  exists (p1 ++ ws ++ [44%N] ++ ws2 ++ p').
  split; [destruct p1; [congruence|discriminate]|].
  split.
  { rewrite Es2 at 1. rewrite E', <- !app_assoc. reflexivity. }
  intros t Ht. rewrite <- !app_assoc. cbn [app] in *.
  assert (Lt : length (p' ++ t) <= n /\ length (p1 ++ ws ++ 44%N :: ws2 ++ p' ++ t) <= n).
  { split; lengths. }
  rewrite (S1 (ws ++ 44%N :: ws2 ++ p' ++ t)); [|tauto|right; apply closes_ws_app; auto].
  cbn [expecting_value bind]. rewrite skip_ws_app by exact Fw.
  cbn [skip_ws is_json_ws N.eqb Pos.eqb orb].
  rewrite skip_ws_app by exact Fw2.
  destruct p' as [|c' p']; [congruence|]. cbn [app] in E' |- *.
  rewrite skip_ws_fixed by (apply (skip_ws_head s2 c' (p' ++ r)); exact E').
  apply (S' t). tauto.
Qed.

Lemma object_members_stable scan (n : nat) :
  stable scan n ->
  forall fuel pairs s v r,
    length s <= n ->
    object_members scan fuel pairs s = Ok (v, r) ->
    exists p,
      p <> [] /\ s = p ++ r
      /\ forall t, length (p ++ t) <= n ->
           object_members scan fuel pairs (p ++ t) = Ok (v, t).
Proof.
  intros St. induction fuel as [|fuel IH]; intros pairs s v r Hn;
    cbn [object_members]; [discriminate|].
  destruct (scanstring s []) as [[key s1]|e] eqn:K; cbn [bind]; [|discriminate].
  destruct (scanstring_stable _ _ _ _ K) as (pk & -> & Sk).
  assert (NEk : pk <> []).
  { pose proof (scanstring_result (pk ++ s1) []) as R. rewrite K in R.
    intros ->. cbn in R. lia. }
  destruct (skip_ws_split s1) as (ws1 & Es1 & F1).
  destruct (skip_ws s1) as [|c s2]; [discriminate|]. subst s1.
  destruct (N.eqb_spec c 58) as [->|N58]; [|discriminate].
  destruct (skip_ws_split s2) as (ws2 & Es2 & F2).
  destruct (scan (skip_ws s2)) as [[value s3]|e] eqn:E;
    cbn [expecting_value bind]; [|destruct e; discriminate].
  assert (L2 : length (skip_ws s2) <= n) by (rewrite Es2 in Hn; lengths).
  destruct (St _ value s3 L2 E) as (pv & NEv & Ev & Sv).
  assert (V : forall x, skip_ws (ws2 ++ pv ++ x) = pv ++ x).
  { intros x. rewrite skip_ws_app by exact F2.
    destruct pv as [|c0 pv]; [congruence|]. cbn [app] in Ev |- *.
    apply skip_ws_fixed. apply (skip_ws_head s2 c0 (pv ++ s3)). exact Ev. }
  rewrite Ev in Es2. clear E Ev. subst s2.
  destruct (skip_ws_split s3) as (ws3 & Es3 & F3).
  destruct (skip_ws s3) as [|c' s4]; [discriminate|]. subst s3.
  assert (Front : forall tail,
            length (pk ++ ws1 ++ 58%N :: ws2 ++ pv ++ ws3 ++ c' :: tail) <= n ->
            c' = 44%N \/ c' = 125%N ->
            scanstring (pk ++ ws1 ++ 58%N :: ws2 ++ pv ++ ws3 ++ c' :: tail) []
            = Ok (key, ws1 ++ 58%N :: ws2 ++ pv ++ ws3 ++ c' :: tail)
            /\ skip_ws (ws1 ++ 58%N :: ws2 ++ pv ++ ws3 ++ c' :: tail)
               = 58%N :: ws2 ++ pv ++ ws3 ++ c' :: tail
            /\ scan (skip_ws (ws2 ++ pv ++ ws3 ++ c' :: tail))
               = Ok (value, ws3 ++ c' :: tail)
            /\ skip_ws (ws3 ++ c' :: tail) = c' :: tail).
  { intros tail Ht Hc'. split; [apply Sk|].
    split; [rewrite skip_ws_app by exact F1; reflexivity|].
    rewrite V. split.
    - apply Sv; [lengths|]. right. apply closes_ws_app; [exact F3|]. tauto.
    - rewrite skip_ws_app by exact F3.
      destruct Hc' as [->| ->]; reflexivity. }
  destruct (N.eqb_spec c' 125) as [->|N125].
  { intros H. inversion H; subst.
    exists (pk ++ ws1 ++ 58%N :: ws2 ++ pv ++ ws3 ++ [125%N]).
    split; [destruct pk; [congruence|discriminate]|].
    split.
    { rewrite <- !app_assoc. cbn [app]. rewrite <- !app_assoc. reflexivity. }
    intros t Ht.
    assert (Et : (pk ++ ws1 ++ 58%N :: ws2 ++ pv ++ ws3 ++ [125%N]) ++ t
                 = pk ++ ws1 ++ 58%N :: ws2 ++ pv ++ ws3 ++ 125%N :: t).
    { rewrite <- !app_assoc. cbn [app]. rewrite <- !app_assoc. reflexivity. }
    rewrite Et in *.
    destruct (Front t Ht ltac:(tauto)) as (A1 & A2 & A3 & A4).
    rewrite A1. cbn [bind]. rewrite A2. cbn [N.eqb Pos.eqb].
    rewrite A3. cbn [expecting_value bind]. rewrite A4.
    cbn [N.eqb Pos.eqb]. reflexivity. }
  destruct (N.eqb_spec c' 44) as [->|N44]; [|discriminate].
  destruct (skip_ws_split s4) as (ws4 & Es4 & F4).
  destruct (skip_ws s4) as [|q s5]; [discriminate|]. subst s4.
  destruct (N.eqb_spec q 34) as [->|N34]; [|discriminate].
  intros H.
  assert (L5 : length s5 <= n) by lengths.
  destruct (IH _ _ _ _ L5 H) as (p' & NE' & -> & S').
  exists (pk ++ ws1 ++ 58%N :: ws2 ++ pv ++ ws3 ++ 44%N :: ws4 ++ 34%N :: p').
  split; [destruct pk; [congruence|discriminate]|].
  split.
  { rewrite <- !app_assoc. cbn [app]. rewrite <- !app_assoc. cbn [app].
    rewrite <- !app_assoc. reflexivity. }
  intros t Ht.
  assert (Et : (pk ++ ws1 ++ 58%N :: ws2 ++ pv ++ ws3 ++ 44%N :: ws4 ++ 34%N :: p') ++ t
               = pk ++ ws1 ++ 58%N :: ws2 ++ pv ++ ws3 ++ 44%N
                 :: (ws4 ++ 34%N :: p' ++ t)).
  { rewrite <- !app_assoc. cbn [app]. rewrite <- !app_assoc. cbn [app].
    rewrite <- !app_assoc. reflexivity. }
  rewrite Et in *.
  destruct (Front (ws4 ++ 34%N :: p' ++ t) Ht ltac:(tauto)) as (A1 & A2 & A3 & A4).
  rewrite A1. cbn [bind]. rewrite A2. cbn [N.eqb Pos.eqb].
  rewrite A3. cbn [expecting_value bind]. rewrite A4.
  cbn [N.eqb Pos.eqb]. rewrite skip_ws_app by exact F4.
  cbn [skip_ws is_json_ws N.eqb Pos.eqb orb]. apply S'. lengths.
Qed.

Lemma JSONArray_stable scan (n : nat) :
  stable scan n -> progresses scan n ->
  forall s v r,
    length s <= n -> JSONArray scan s = Ok (v, r) ->
    exists p,
      p <> [] /\ s = p ++ r
      /\ forall t, length (p ++ t) <= n -> JSONArray scan (p ++ t) = Ok (v, t).
Proof.
  intros St P s v r Hn. unfold JSONArray.
  destruct (skip_ws_split s) as (ws & Es & Fw).
  pose proof (skip_ws_length s) as W.
  destruct (skip_ws s) as [|c s1] eqn:Sk.
  { intros H.
    destruct (array_items_stable scan n St (S (length s)) [] [] v r
                ltac:(cbn; lia) H) as (p' & NE' & E' & _).
    destruct p'; [congruence | discriminate]. }
  destruct (N.eqb_spec c 93) as [->|N93].
  { intros H. inversion H; subst.
    exists (ws ++ [93%N]). split; [destruct ws; discriminate|].
    split; [rewrite <- app_assoc; reflexivity|].
    intros t Ht. rewrite <- app_assoc. cbn [app].
    rewrite skip_ws_app by exact Fw. reflexivity. }
  intros H. pose proof (skip_ws_head _ _ _ Sk) as Wc.
  destruct (array_items_stable scan n St (S (length s)) [] (c :: s1) v r
              ltac:(lia) H) as (p' & NE' & E' & _).
  destruct p' as [|c0 p']; [congruence|]. cbn [app] in E'.
  inversion E' as [[Ec E1]]. subst c0.
  exists (ws ++ c :: p'). split; [destruct ws; discriminate|].
  split; [rewrite Es at 1; rewrite E1, <- app_assoc; reflexivity|].
  intros t Ht. rewrite <- app_assoc in *. cbn [app] in *.
  rewrite skip_ws_app by exact Fw. rewrite skip_ws_fixed by exact Wc.
  destruct (N.eqb_spec c 93); [congruence|].
  set (F := S (length s + length (ws ++ c :: p' ++ t))).
  assert (HF : array_items scan F [] (c :: s1) = Ok (v, r)).
  { rewrite <- H. symmetry.
    apply (array_items_budget scan scan n (fun _ _ => eq_refl) P);
      unfold F; lia. }
  destruct (array_items_stable scan n St F [] (c :: s1) v r ltac:(lia) HF)
    as (p'' & _ & E'' & S'').
  assert (p'' = c :: p').
  { apply (app_inv_tail r). rewrite <- E''. cbn [app]. rewrite <- E1.
    reflexivity. }
  subst p''. rewrite <- (S'' t) by lengths.
  apply (array_items_budget scan scan n (fun _ _ => eq_refl) P);
    unfold F; lengths.
Qed.

Lemma JSONObject_stable scan (n : nat) :
  stable scan n -> progresses scan n ->
  forall s v r,
    length s <= n -> JSONObject scan s = Ok (v, r) ->
    exists p,
      p <> [] /\ s = p ++ r
      /\ forall t, length (p ++ t) <= n -> JSONObject scan (p ++ t) = Ok (v, t).
Proof.
  intros St P s v r Hn. unfold JSONObject.
  destruct (skip_ws_split s) as (ws & Es & Fw).
  pose proof (skip_ws_length s) as W.
  destruct (skip_ws s) as [|c s1] eqn:Sk; [discriminate|].
  destruct (N.eqb_spec c 125) as [->|N125].
  { intros H. inversion H; subst.
    exists (ws ++ [125%N]). split; [destruct ws; discriminate|].
    split; [rewrite <- app_assoc; reflexivity|].
    intros t Ht. rewrite <- app_assoc. cbn [app].
    rewrite skip_ws_app by exact Fw. reflexivity. }
  destruct (N.eqb_spec c 34) as [->|N34]; [|discriminate].
  intros H. cbn [length] in W.
  destruct (object_members_stable scan n St (S (length s)) [] s1 v r
              ltac:(lia) H) as (p' & NE' & E' & _).
  exists (ws ++ 34%N :: p'). split; [destruct ws; discriminate|].
  split; [rewrite Es at 1; rewrite E', <- app_assoc; reflexivity|].
  intros t Ht. rewrite <- app_assoc in *. cbn [app] in *.
  rewrite skip_ws_app by exact Fw. cbn [skip_ws is_json_ws N.eqb Pos.eqb orb].
  set (F := S (length s + length (ws ++ 34%N :: p' ++ t))).
  assert (HF : object_members scan F [] s1 = Ok (v, r)).
  { rewrite <- H. symmetry.
    apply (object_members_budget scan scan n (fun _ _ => eq_refl) P);
      unfold F; lia. }
  destruct (object_members_stable scan n St F [] s1 v r ltac:(lia) HF)
    as (p'' & _ & E'' & S'').
  assert (p'' = p') by (apply (app_inv_tail r); congruence). subst p''.
  rewrite <- (S'' t) by lengths.
  apply (object_members_budget scan scan n (fun _ _ => eq_refl) P);
    unfold F; lengths.
Qed.

Lemma scan_literal_not_delimited (s : str) (v : pyval) (r : str) :
  scan_literal s = Ok (v, r) -> self_delimited v = false.
Proof.
  unfold scan_literal.
  repeat match goal with
         | |- context [if ?b then _ else _] => destruct b
         | |- context [match match_number s with _ => _ end] =>
             destruct (match_number s) as [[[[i f] e] r']|]
         | |- context [match ?f with [] => _ | _ :: _ => _ end] => destruct f
         end;
    intros H; inversion H; reflexivity.
Qed.

(** [scan_once] looks at nothing beyond the value it returns, but for
    the character that ends a number. *)
Lemma scan_once_stable (depth : nat) : stable (scan_once depth) (pred depth).
Proof.
  induction depth as [|depth IH]; intros s v r Hn; [discriminate|].
  cbn [pred] in Hn. destruct s as [|c s1]; [discriminate|].
  cbn [length] in Hn.
  assert (P : progresses (scan_once depth) (pred depth))
    by (intros s' Hs'; apply scan_once_progress; lia).
  rewrite scan_once_cases.
  destruct (N.eqb_spec c 34) as [->|N34].
  { destruct (scanstring s1 []) as [[x r']|e] eqn:K; cbn [bind]; [|discriminate].
    intros H. inversion H; subst.
    destruct (scanstring_stable _ _ _ _ K) as (p & -> & S).
    exists (34%N :: p). split; [discriminate|]. split; [reflexivity|].
    intros t _ _. cbn [app]. rewrite scan_once_cases. cbn [N.eqb Pos.eqb].
    rewrite S. reflexivity. }
  destruct (N.eqb_spec c 123) as [->|N123].
  { intros H.
    destruct (JSONObject_stable _ _ IH P s1 v r ltac:(lia) H) as (p & _ & -> & S).
    exists (123%N :: p). split; [discriminate|]. split; [reflexivity|].
    intros t Ht _. cbn [app] in *. rewrite scan_once_cases. cbn [N.eqb Pos.eqb].
    apply S. cbn [length pred] in Ht. lia. }
  destruct (N.eqb_spec c 91) as [->|N91].
  { intros H.
    destruct (JSONArray_stable _ _ IH P s1 v r ltac:(lia) H) as (p & _ & -> & S).
    exists (91%N :: p). split; [discriminate|]. split; [reflexivity|].
    intros t Ht _. cbn [app] in *. rewrite scan_once_cases. cbn [N.eqb Pos.eqb].
    apply S. cbn [length pred] in Ht. lia. }
  intros H. pose proof (scan_literal_not_delimited _ _ _ H) as ND.
  destruct (scan_literal_stable _ _ _ H) as (p & NE & E & S).
  exists p. split; [exact NE|]. split; [exact E|].
  intros t _ [Hd|Ht]; [congruence|].
  destruct p as [|c0 p]; [congruence|]. cbn [app] in E |- *.
  inversion E; subst c0. rewrite scan_once_cases.
  destruct (N.eqb_spec c 34); [congruence|].
  destruct (N.eqb_spec c 123); [congruence|].
  destruct (N.eqb_spec c 91); [congruence|].
  apply (S t Ht).
Qed.

(** An object or an array is decoded the same whatever follows it. *)
Lemma raw_decode_stable (s : str) (v : pyval) (r : str) :
  raw_decode s = Ok (v, r) -> self_delimited v = true ->
  exists p, s = p ++ r /\ forall t, raw_decode (p ++ t) = Ok (v, t).
Proof.
  unfold raw_decode. intros H Hd.
  destruct (scan_once (S (length s)) s) as [[v' r']|e] eqn:E;
    [|destruct e; discriminate].
  cbn [expecting_value] in H. inversion H; subst v' r'. clear H.
  destruct (scan_once_stable (S (length s)) s v r (le_n _) E) as (p & _ & Es & _).
  exists p. split; [exact Es|]. intros t.
  set (D := S (length s + length (p ++ t))).
  assert (ED : scan_once D s = Ok (v, r)).
  { rewrite <- E. apply scan_once_budget; unfold D; lia. }
  destruct (scan_once_stable D s v r ltac:(unfold D; cbn [pred]; lia) ED)
    as (p' & _ & Es' & S').
  assert (p' = p) by (apply (app_inv_tail r); congruence). subst p'.
  rewrite (scan_once_budget (S (length (p ++ t))) D) by (unfold D; lia).
  rewrite (S' t); [reflexivity | unfold D; cbn [pred]; lia | left; exact Hd].
Qed.

End Stability.

(* ------------------------------------------------------------------ *)
(** * The claims about extraction and the paper search *)
(* ------------------------------------------------------------------ *)

Section Claims.
Context {L : PyLib}.

(** C2. With the fences gone, [_extract_first_json_value] fails with
    "no JSON start found" when the text has neither a brace nor a bracket;
    otherwise it drops what precedes the earliest of them, decodes one
    value from there and returns it, and the text after that value has no
    say: put anything else in its place and the same value is decoded (a
    failure of the decoder is passed on). On the two concatenated objects
    {"a":1}{"a":2} the result is the first, {"a": 1}. *)
Theorem extract_first_json_value_first_value (text : str) :
  text <> [] ->
  let s := strip_fences text in
  (~ In 123%N s -> ~ In 91%N s ->
   extract_first_json_value (PStr text)
   = Raise (ValueError "no JSON start found"))
  /\ (forall pre c rest,
         s = pre ++ c :: rest -> c = 123%N \/ c = 91%N ->
         ~ In 123%N pre -> ~ In 91%N pre ->
         extract_first_json_value (PStr text)
         = match raw_decode (c :: rest) with
           | Ok (obj, _) => Ok obj
           | Raise e => Raise e
           end
         /\ forall obj trailing,
              raw_decode (c :: rest) = Ok (obj, trailing) ->
              exists value_text,
                c :: rest = value_text ++ trailing
                /\ forall other,
                     raw_decode (value_text ++ other) = Ok (obj, other))
  /\ extract_first_json_value (PStr (jlit "{'a':1}{'a':2}"))
     = Ok (PDict [(lit "a", PInt 1)]).
Proof.
  intros NE s. split; [|split].
  - intros H1 H2. apply extract_no_start; assumption.
  - intros pre c rest Es Hc H1 H2. split.
    + rewrite (extract_at_first_start text pre rest c NE Es Hc H1 H2).
      destruct (raw_decode (c :: rest)) as [[obj r]|e]; reflexivity.
    + intros obj trailing R. apply raw_decode_stable; [exact R|].
      destruct (raw_decode_container c rest obj trailing Hc R) as [C _].
      destruct obj; try discriminate C; reflexivity.
  - reflexivity.
Qed.


End Claims.
(* ------------------------------------------------------------------ *)
(** * More on trimming and on [_normalize_url] *)
(* ------------------------------------------------------------------ *)

Lemma lstrip_app_space (ws x : str) :
  Forall (fun c => isspace c = true) ws -> lstrip (ws ++ x) = lstrip x.
Proof.
  induction 1 as [|c ws W _ IH]; [reflexivity|]. cbn [app lstrip].
  rewrite W. exact IH.
Qed.

Lemma rstrip_app_space (x ws : str) :
  Forall (fun c => isspace c = true) ws -> rstrip (x ++ ws) = rstrip x.
Proof.
  intros F. unfold rstrip. rewrite rev_app_distr, lstrip_app_space; [reflexivity|].
  apply Forall_rev. exact F.
Qed.

Lemma strip_length (s : str) : length (strip s) <= length s.
Proof.
  destruct (strip_trimmed s) as (l & r & E & _).
  rewrite E at 2. rewrite !length_app. lia.
Qed.

Lemma strip_idempotent (s : str) : strip (strip s) = strip s.
Proof.
  apply strip_fixed. destruct (strip_trimmed s) as (_ & _ & _ & _ & _ & H).
  exact H.
Qed.

Lemma strip_trailing_clean (u : str) :
  u = [] \/ ~ In (last u 0%N) trailing_punctuation ->
  strip_trailing (length u) u = u.
Proof.
  destruct u as [|c u]; [reflexivity|]. intros [H|H]; [discriminate|].
  cbn [length strip_trailing].
  destruct (mem (last (c :: u) 0%N) trailing_punctuation) eqn:M; [|reflexivity].
  apply mem_In in M. contradiction.
Qed.

(** X7. [_normalize_url] returns a string as it is exactly when there is
    nothing to remove: the string is empty, or it neither starts nor ends
    with whitespace and does not end with one of ) ] . , ; double quote
    and apostrophe. *)
Theorem normalize_url_fixed_iff (u : str) :
  normalize_url (Some u) = u
  <-> u = []
      \/ (isspace (hd 0%N u) = false /\ isspace (last u 0%N) = false
          /\ ~ In (last u 0%N) [41; 93; 46; 44; 59; 34; 39]%N).
Proof.
  change [41; 93; 46; 44; 59; 34; 39]%N with trailing_punctuation. split.
  - intros E. destruct u as [|c t] eqn:Eu; [left; reflexivity|right].
    rewrite <- Eu in *. assert (NE : u <> []) by (rewrite Eu; discriminate).
    destruct (normalize_url_trimmed u) as [H|[H1 H2]];
      [rewrite E in H; contradiction|].
    rewrite E in H1, H2. split; [exact H1|]. split; [exact H2|].
    unfold normalize_url in E. rewrite (strip_fixed u) in E by (right; auto).
    destruct (strip_trailing_stripped (length u) u (le_n _)) as (p & Ep & Fp & T).
    pose proof (strip_length (strip_trailing (length u) u)) as Hl.
    rewrite E in Hl. remember (strip_trailing (length u) u) as w eqn:Ew.
    assert (Hp : length u = length w + length p)
      by (rewrite Ep at 1; apply length_app).
    assert (p = []) by (destruct p; [reflexivity | cbn in Hp; lia]). subst p.
    rewrite app_nil_r in Ep. rewrite <- Ep in T.
    destruct T as [T|T]; [contradiction | exact T].
  - intros H. unfold normalize_url.
    assert (S : strip u = u).
    { apply strip_fixed. destruct H as [H|(H1 & H2 & _)]; auto. }
    rewrite S, strip_trailing_clean, S; [reflexivity|].
    destruct H as [H|(_ & _ & H)]; auto.
Qed.

(** The json-tagged fence around the text of a container is removed
    whole. *)
Lemma strip_fences_fenced (c c' : N) (body ws1 ws2 : str) :
  c = 123%N \/ c = 91%N -> c' = 125%N \/ c' = 93%N ->
  Forall (fun x => isspace x = true) ws1 ->
  Forall (fun x => isspace x = true) ws2 ->
  strip_fences (json_fence ++ ws1 ++ (c :: body ++ [c']) ++ ws2 ++ fence)
  = c :: body ++ [c'].
Proof.
  intros Hc Hc' W1 W2. unfold strip_fences.
  set (D := c :: body ++ [c']).
  assert (HR : rstrip D = D).
  { apply rstrip_fixed. right. unfold D.
    change (c :: body ++ [c']) with ((c :: body) ++ [c']). rewrite last_last.
    destruct Hc' as [->| ->]; reflexivity. }
  rewrite strip_fixed.
  2:{ right. split; [reflexivity|].
      rewrite !app_assoc. unfold fence. cbn [lit list_ascii_of_string List.map].
      change [N_of_ascii "`"; N_of_ascii "`"; N_of_ascii "`"]
        with ([96; 96]%N ++ [96%N]).
      rewrite app_assoc, last_last. reflexivity. }
  assert (S1 : startswith fence (json_fence ++ ws1 ++ D ++ ws2 ++ fence) = true)
    by reflexivity.
  rewrite S1.
  assert (R1 : replace_first json_fence fence
                 (json_fence ++ ws1 ++ D ++ ws2 ++ fence)
               = fence ++ ws1 ++ D ++ ws2 ++ fence).
  { unfold json_fence at 2. cbn [lit list_ascii_of_string List.map app].
    cbn [replace_first]. reflexivity. }
  rewrite R1. clear R1 S1.
  assert (R2 : slice_from 3 (fence ++ ws1 ++ D ++ ws2 ++ fence)
               = ws1 ++ D ++ ws2 ++ fence) by reflexivity.
  rewrite R2. clear R2.
  rewrite lstrip_app_space by exact W1.
  assert (R3 : lstrip (D ++ ws2 ++ fence) = D ++ ws2 ++ fence).
  { apply lstrip_fixed. right. destruct Hc as [->| ->]; reflexivity. }
  rewrite R3. clear R3.
  assert (S2 : endswith fence (D ++ ws2 ++ fence) = true).
  { unfold endswith. rewrite !rev_app_distr. reflexivity. }
  rewrite S2. clear S2.
  assert (R4 : slice_drop_last 3 (D ++ ws2 ++ fence) = D ++ ws2).
  { unfold slice_drop_last. rewrite app_assoc, length_app.
    change (length fence) with 3. rewrite Nat.add_sub.
    rewrite firstn_app, Nat.sub_diag, firstn_all. cbn [firstn].
    apply app_nil_r. }
  rewrite R4, rstrip_app_space by exact W2. exact HR.
Qed.

Lemma replace_first_absent (old new s : str) :
  contains old s = false -> replace_first old new s = s.
Proof.
  induction s as [|c s IH]; cbn [contains replace_first]; intros H;
    apply orb_false_iff in H; destruct H as [H1 H2]; rewrite H1;
    [reflexivity | f_equal; auto].
Qed.

Lemma strip_fences_bare (c c' : N) (body ws1 ws2 : str) :
  c = 123%N \/ c = 91%N -> c' = 125%N \/ c' = 93%N ->
  Forall (fun x => isspace x = true) ws1 ->
  Forall (fun x => isspace x = true) ws2 ->
  contains json_fence (fence ++ ws1 ++ (c :: body ++ [c']) ++ ws2 ++ fence) = false ->
  strip_fences (fence ++ ws1 ++ (c :: body ++ [c']) ++ ws2 ++ fence)
  = c :: body ++ [c'].
Proof.
  intros Hc Hc' W1 W2 Abs. unfold strip_fences.
  set (D := c :: body ++ [c']) in *.
  assert (HR : rstrip D = D).
  { apply rstrip_fixed. right. unfold D.
    change (c :: body ++ [c']) with ((c :: body) ++ [c']). rewrite last_last.
    destruct Hc' as [->| ->]; reflexivity. }
  rewrite strip_fixed.
  2:{ right. split; [reflexivity|].
      rewrite !app_assoc. unfold fence at 2. cbn [lit list_ascii_of_string List.map].
      change [N_of_ascii "`"; N_of_ascii "`"; N_of_ascii "`"]
        with ([96; 96]%N ++ [96%N]).
      rewrite app_assoc, last_last. reflexivity. }
  assert (S1 : startswith fence (fence ++ ws1 ++ D ++ ws2 ++ fence) = true)
    by reflexivity.
  rewrite S1, replace_first_absent by exact Abs. clear S1.
  assert (R2 : slice_from 3 (fence ++ ws1 ++ D ++ ws2 ++ fence)
               = ws1 ++ D ++ ws2 ++ fence) by reflexivity.
  rewrite R2. clear R2.
  rewrite lstrip_app_space by exact W1.
  assert (R3 : lstrip (D ++ ws2 ++ fence) = D ++ ws2 ++ fence).
  { apply lstrip_fixed. right. destruct Hc as [->| ->]; reflexivity. }
  rewrite R3. clear R3.
  assert (S2 : endswith fence (D ++ ws2 ++ fence) = true).
  { unfold endswith. rewrite !rev_app_distr. reflexivity. }
  rewrite S2. clear S2.
  assert (R4 : slice_drop_last 3 (D ++ ws2 ++ fence) = D ++ ws2).
  { unfold slice_drop_last. rewrite app_assoc, length_app.
    change (length fence) with 3. rewrite Nat.add_sub.
    rewrite firstn_app, Nat.sub_diag, firstn_all. cbn [firstn].
    apply app_nil_r. }
  rewrite R4, rstrip_app_space by exact W2. exact HR.
Qed.

(** What is left of a text that starts with a brace or a bracket once its
    fences are removed is a prefix of it. *)
Lemma strip_fences_prefix (c : N) (t : str) :
  c = 123%N \/ c = 91%N ->
  exists cut, c :: t = strip_fences (c :: t) ++ cut.
Proof.
  intros Hc. unfold strip_fences.
  assert (HL : lstrip (c :: t) = c :: t)
    by (apply lstrip_fixed; right; destruct Hc as [->| ->]; reflexivity).
  unfold strip. rewrite HL.
  destruct (rstrip_split (c :: t)) as (r & E & _).
  set (s1 := rstrip (c :: t)) in *.
  assert (S1 : startswith fence s1 = false).
  { destruct s1 as [|x s1]; [reflexivity|]. cbn [app] in E. inversion E; subst x.
    destruct Hc as [->| ->]; reflexivity. }
  rewrite S1. destruct (endswith fence s1); [|exists r; exact E].
  destruct (rstrip_split (slice_drop_last 3 s1)) as (r2 & E2 & _).
  exists (r2 ++ skipn (length s1 - 3) s1 ++ r).
  rewrite app_assoc, <- E2, app_assoc. unfold slice_drop_last.
  rewrite firstn_skipn. exact E.
Qed.

(* ------------------------------------------------------------------ *)
(** * What the sanitizers keep *)
(* ------------------------------------------------------------------ *)

Section Kept.
Context {L : PyLib}.

(** X6. [_sanitize_links] changes the strings under a url key and nothing
    else: with those strings blanked the value is what it was, and the
    strings themselves are those of the input, each normalised, in the
    same order. *)
Theorem sanitize_links_touches_urls_only (v : pyval) :
  unique_keys v ->
  without_urls (sanitize_links v) = without_urls v
  /\ url_strings (sanitize_links v)
     = List.map (fun u => normalize_url (Some u)) (url_strings v).
Proof.
  induction v as [| | | | |l IH|d IH] using pyval_ind; intros U;
    try (split; reflexivity).
  - apply unique_keys_list in U. cbn [sanitize_links without_urls url_strings].
    rewrite map_map.
    induction l as [|x l IHl]; [split; reflexivity|].
    inversion IH as [|? ? Hx Hl]; subst. inversion U as [|? ? Ux Ul]; subst.
    destruct (Hx Ux) as [E1 E2]. destruct (IHl Hl Ul) as [E3 E4].
    cbn [List.map flat_map]. rewrite map_app, E1, E2, E4.
    split; [|reflexivity]. inversion E3 as [E3']. rewrite E3'. reflexivity.
  - apply unique_keys_dict in U. destruct U as [ND U].
    rewrite sanitize_links_dict by exact ND. clear ND.
    cbn [without_urls url_strings]. rewrite map_map.
    induction d as [|[k x] d IHd]; [split; reflexivity|].
    inversion IH as [|? ? Hx Hl]; subst. inversion U as [|? ? Ux Ul]; subst.
    cbn [snd] in Hx, Ux.
    destruct (Hx Ux) as [E1 E2]. destruct (IHd Hl Ul) as [E3 E4].
    cbn [List.map flat_map fst snd]. rewrite !map_app, E4.
    inversion E3 as [E3']. rewrite E3'.
    unfold sanitize_entry. destruct (str_eqb k url_key) eqn:K.
    + destruct x as [| | | |s| |]; try (rewrite E1, E2; split; reflexivity).
      split; reflexivity.
    + rewrite E1, E2. split; reflexivity.
Qed.

(** A value whose url strings have nothing to remove is left as it is. *)
Lemma sanitize_links_clean (v : pyval) :
  unique_keys v ->
  Forall (fun u => normalize_url (Some u) = u) (url_strings v) ->
  sanitize_links v = v.
Proof.
  induction v as [| | | | |l IH|d IH] using pyval_ind; intros U S;
    try reflexivity.
  - cbn [sanitize_links url_strings] in *. apply unique_keys_list in U.
    f_equal. rewrite <- (map_id l) at 2. apply map_ext_in. intros x Hx.
    rewrite Forall_forall in IH, U. apply (IH x Hx (U x Hx)).
    rewrite Forall_forall in S |- *. intros u Hu. apply S.
    apply in_flat_map. exists x. auto.
  - apply unique_keys_dict in U. destruct U as [ND U].
    rewrite sanitize_links_dict by exact ND.
    f_equal. rewrite <- (map_id d) at 2. apply map_ext_in. intros [k x] Hx.
    cbn [fst snd]. f_equal.
    rewrite Forall_forall in IH, U. specialize (IH _ Hx). specialize (U _ Hx).
    cbn [snd] in IH, U.
    assert (Sx : Forall (fun u => normalize_url (Some u) = u) (url_strings x)).
    { rewrite Forall_forall in S |- *. intros u Hu. apply S.
      cbn [url_strings]. apply in_flat_map. exists (k, x).
      split; [exact Hx|]. apply in_or_app. right. exact Hu. }
    unfold sanitize_entry. destruct (str_eqb k url_key) eqn:K; [|auto].
    destruct x as [| | | |s| |]; try (cbn [sanitize_links]; reflexivity);
      try (apply (IH U Sx)).
    f_equal. rewrite Forall_forall in S. apply S.
    cbn [url_strings]. apply in_flat_map. exists (k, PStr s).
    split; [exact Hx|]. rewrite K. left. reflexivity.
Qed.

(** The compact text of a container is decoded as that container whatever
    follows it. *)
Lemma raw_decode_dumps (v : pyval) (post : str) :
  is_container v = true -> unique_keys v ->
  Forall float_rereads (floats_of v) ->
  raw_decode (dumps v ++ post) = Ok (v, post).
Proof.
  intros C U F.
  assert (R0 : raw_decode (dumps v) = Ok (v, [])).
  { unfold raw_decode. destruct (scan_once_dumps v U F) as [_ R].
    specialize (R (S (length (dumps v))) [] ltac:(lia) I).
    rewrite app_nil_r in R. rewrite R. reflexivity. }
  destruct (raw_decode_stable _ _ _ R0) as (p & E & S).
  { destruct v; try discriminate C; reflexivity. }
  rewrite app_nil_r in E. subst p. apply S.
Qed.

Lemma extract_encoded (text pre post : str) (v : pyval) :
  text <> [] ->
  strip_fences text = pre ++ dumps v ++ post ->
  ~ In 123%N pre -> ~ In 91%N pre ->
  is_container v = true -> unique_keys v ->
  Forall float_rereads (floats_of v) ->
  extract_first_json_value (PStr text) = Ok v.
Proof.
  intros NE Es H1 H2 C U F.
  destruct (dumps_container v C) as (c & body & c' & E & Hc & Hc').
  rewrite (extract_at_first_start text pre ((body ++ [c']) ++ post) c NE);
    try assumption.
  - change (c :: (body ++ [c']) ++ post) with ((c :: body ++ [c']) ++ post).
    rewrite <- E, raw_decode_dumps by assumption. reflexivity.
  - rewrite Es, E. reflexivity.
Qed.

(** X1. What [_extract_first_json_value] returns is a dict or a list,
    never a number, a string, a boolean or None. *)
Theorem extract_first_json_value_container (raw obj : pyval) :
  extract_first_json_value raw = Ok obj -> is_container obj = true.
Proof.
  intros E. destruct (extract_cases _ _ E)
    as (text & pre & c & rest & r & -> & _ & _ & Hc & _ & _ & R).
  apply (raw_decode_container c rest obj r Hc R).
Qed.

(** X2. Extraction undoes the encoding whatever surrounds it: when the
    text without its fences is the compact encoding of a dict or list
    [v], after commentary free of braces and brackets and before anything
    at all, [_extract_first_json_value] returns [v]. *)
Theorem extract_first_json_value_of_encoding (text pre post : str) (v : pyval) :
  text <> [] ->
  strip_fences text = pre ++ dumps v ++ post ->
  ~ In 123%N pre -> ~ In 91%N pre ->
  is_container v = true -> unique_keys v ->
  Forall float_rereads (floats_of v) ->
  extract_first_json_value (PStr text) = Ok v.
Proof. apply extract_encoded. Qed.

(** X3. The compact encoding of a dict or list [v] between a json-tagged
    opening fence and a closing fence, with any whitespace inside the
    fences, is extracted as [v]. *)
Theorem extract_first_json_value_fenced (v : pyval) (ws1 ws2 : str) :
  is_container v = true -> unique_keys v ->
  Forall float_rereads (floats_of v) ->
  Forall (fun c => isspace c = true) ws1 ->
  Forall (fun c => isspace c = true) ws2 ->
  extract_first_json_value
    (PStr (lit "```json" ++ ws1 ++ dumps v ++ ws2 ++ lit "```"))
  = Ok v.
Proof.
  intros C U F W1 W2.
  destruct (dumps_container v C) as (c & body & c' & E & Hc & Hc').
  apply (extract_encoded _ [] []); try assumption.
  - discriminate.
  - rewrite app_nil_r. cbn [app]. rewrite E.
    apply (strip_fences_fenced c c' body ws1 ws2); assumption.
  - intros [].
  - intros [].
Qed.

(** X4. When the extraction succeeds, what [sanitize_json_str] returns
    is a text that the decoder reads in full, as the sanitised value, and
    from which [_extract_first_json_value] returns that value again. *)
Theorem sanitize_json_str_output_parses (raw obj : pyval) :
  extract_first_json_value raw = Ok obj ->
  Forall float_rereads (floats_of obj) ->
  exists out,
    sanitize_json_str raw = PStr out
    /\ raw_decode out = Ok (sanitize_links obj, [])
    /\ extract_first_json_value (PStr out) = Ok (sanitize_links obj).
Proof.
  intros E F. exists (dumps (sanitize_links obj)).
  destruct (extract_cases _ _ E)
    as (text & pre & c & rest & r & -> & _ & _ & Hc & _ & _ & R).
  destruct (raw_decode_container c rest obj r Hc R) as [C U].
  pose proof (sanitize_links_container _ C) as C'.
  pose proof (sanitize_links_unique_keys _ U) as U'.
  pose proof (sanitize_links_floats _ _ U F) as F'.
  split; [apply sanitize_json_str_ok; exact E|]. split.
  - rewrite <- (app_nil_r (dumps (sanitize_links obj))).
    apply raw_decode_dumps; assumption.
  - apply extract_dumps; assumption.
Qed.

(** X5. On the compact encoding of a dict or list [v],
    [sanitize_json_str] returns the compact encoding of [v] with its url
    strings normalised; when no url string of [v] has anything to remove,
    the text comes back unchanged. *)
Theorem sanitize_json_str_of_encoding (v : pyval) :
  is_container v = true -> unique_keys v ->
  Forall float_rereads (floats_of v) ->
  sanitize_json_str (PStr (dumps v)) = PStr (dumps (sanitize_links v))
  /\ (Forall (fun u => normalize_url (Some u) = u) (url_strings v) ->
      sanitize_json_str (PStr (dumps v)) = PStr (dumps v)).
Proof.
  intros C U F.
  assert (E : sanitize_json_str (PStr (dumps v)) = PStr (dumps (sanitize_links v)))
    by (apply sanitize_json_str_ok, extract_dumps; assumption).
  split; [exact E|]. intros S. rewrite E, sanitize_links_clean by assumption.
  reflexivity.
Qed.

(** X21. Between bare fences, with any whitespace inside them, the
    compact encoding of a dict or list [v] is extracted as [v] when the
    marker of the json-tagged fence occurs nowhere in the text. *)
Theorem extract_first_json_value_bare_fence (v : pyval) (ws1 ws2 : str) :
  is_container v = true -> unique_keys v ->
  Forall float_rereads (floats_of v) ->
  Forall (fun c => isspace c = true) ws1 ->
  Forall (fun c => isspace c = true) ws2 ->
  contains (lit "```json") (lit "```" ++ ws1 ++ dumps v ++ ws2 ++ lit "```")
  = false ->
  extract_first_json_value
    (PStr (lit "```" ++ ws1 ++ dumps v ++ ws2 ++ lit "```"))
  = Ok v.
Proof.
  intros C U F W1 W2 Abs.
  destruct (dumps_container v C) as (c & body & c' & E & Hc & Hc').
  apply (extract_encoded _ [] []); try assumption.
  - discriminate.
  - rewrite app_nil_r. cbn [app]. rewrite E in Abs |- *.
    apply (strip_fences_bare c c' body ws1 ws2); assumption.
  - intros [].
  - intros [].
Qed.

(** No proper prefix of the compact text of a container is a JSON text. *)
Lemma raw_decode_prefix_fails (v : pyval) (p s : str) :
  is_container v = true -> unique_keys v ->
  Forall float_rereads (floats_of v) ->
  dumps v = p ++ s -> s <> [] ->
  exists e, raw_decode p = Raise e.
Proof.
  intros C U F E NE.
  destruct (raw_decode p) as [[v' r]|e] eqn:R; [exfalso|eauto].
  destruct (dumps_container v C) as (c & body & c' & Ed & Hc & _).
  destruct p as [|c0 p]; [discriminate R|].
  assert (c0 = c) by (rewrite Ed in E; cbn [app] in E; congruence). subst c0.
  destruct (raw_decode_container c p v' r Hc R) as [C' _].
  destruct (raw_decode_stable _ _ _ R) as (q & Eq & S).
  { destruct v'; try discriminate C'; reflexivity. }
  specialize (S (r ++ s)). rewrite app_assoc, <- Eq, <- E in S.
  pose proof (raw_decode_dumps v [] C U F) as R0. rewrite app_nil_r in R0.
  rewrite R0 in S. inversion S as [[Hv Hr]].
  destruct r; [destruct s; [congruence | discriminate Hr] | discriminate Hr].
Qed.

(** X22. A truncated answer is never taken for a complete one: on a
    proper prefix of the compact encoding of a dict or list the extraction
    raises, and [sanitize_json_str] returns the text as it is. *)
Theorem sanitize_json_str_truncated (v : pyval) (p s : str) :
  is_container v = true -> unique_keys v ->
  Forall float_rereads (floats_of v) ->
  dumps v = p ++ s -> s <> [] ->
  (exists e, extract_first_json_value (PStr p) = Raise e)
  /\ sanitize_json_str (PStr p) = PStr p.
Proof.
  intros C U F E NE.
  assert (X : exists e, extract_first_json_value (PStr p) = Raise e).
  { destruct (extract_first_json_value (PStr p)) as [obj|e] eqn:X; [exfalso|eauto].
    destruct (extract_cases _ _ X)
      as (text & pre & c & rest & r & Et & _ & Es & Hc & H1 & H2 & R).
    inversion Et; subst text. clear Et.
    destruct (dumps_container v C) as (c0 & body & c' & Ed & Hc0 & _).
    destruct p as [|x p]; [discriminate X|].
    assert (x = c0) by (rewrite Ed in E; cbn [app] in E; congruence). subst x.
    destruct (strip_fences_prefix c0 p Hc0) as (cut & Ep).
    rewrite Es in Ep.
    destruct pre as [|y pre].
    - cbn [app] in Ep.
      destruct (raw_decode_prefix_fails v (c :: rest) (cut ++ s) C U F) as [e Re].
      + rewrite E, Ep. cbn [app]. rewrite <- app_assoc. reflexivity.
      + destruct cut; [exact NE | discriminate].
      + rewrite R in Re. discriminate.
    - cbn [app] in Ep. inversion Ep; subst y.
      destruct Hc0 as [->| ->]; [apply H1 | apply H2]; left; reflexivity. }
  split; [exact X|]. destruct X as [e X].
  destruct (sanitize_json_str_cases (PStr p)) as [H|(s0 & obj & _ & _ & H & _)];
    [exact H | rewrite X in H; discriminate].
Qed.

End Kept.

(* ------------------------------------------------------------------ *)
(** * The callbacks, one after another *)
(* ------------------------------------------------------------------ *)

Section Hooks.
Context {L : PyLib}.

Lemma dict_set_comm (k1 k2 : str) (v1 v2 : pyval) (d : list (str * pyval)) :
  k1 <> k2 -> In k1 (List.map fst d) ->
  dict_set k1 v1 (dict_set k2 v2 d) = dict_set k2 v2 (dict_set k1 v1 d).
Proof.
  intros NE. induction d as [|[k v] d IH]; [intros []|].
  intros H. cbn [dict_set].
  destruct (str_eqb k2 k) eqn:E2, (str_eqb k1 k) eqn:E1; cbn [dict_set];
    rewrite ?E1, ?E2; try reflexivity.
  - apply str_eqb_eq in E1, E2. congruence.
  - f_equal. apply IH. destruct H as [H|H]; [|exact H].
    cbn in H. subst k. rewrite str_eqb_refl in E1. discriminate.
Qed.

Lemma rewrite_at_comm (k1 k2 : str) (f1 f2 : str -> pyval)
    (d : list (str * pyval)) :
  k1 <> k2 ->
  rewrite_at k1 f1 (rewrite_at k2 f2 d) = rewrite_at k2 f2 (rewrite_at k1 f1 d).
Proof.
  intros NE. unfold rewrite_at.
  destruct (dict_get k2 d) as [[| | | |r2| |]|] eqn:G2;
    destruct (dict_get k1 d) as [[| | | |r1| |]|] eqn:G1;
    rewrite ?dict_get_set_other, ?G1, ?G2 by congruence; try reflexivity.
  apply dict_set_comm; [exact NE|]. apply dict_get_In. congruence.
Qed.

Lemma rewrite_at_twice (k : str) (f : str -> pyval) (d : list (str * pyval)) :
  (forall raw, exists raw', f raw = PStr raw' /\ f raw' = PStr raw') ->
  rewrite_at k f (rewrite_at k f d) = rewrite_at k f d.
Proof.
  intros Hf. unfold rewrite_at.
  destruct (dict_get k d) as [[| | | |raw| |]|] eqn:G; rewrite ?G; try reflexivity.
  rewrite dict_get_set_same. destruct (Hf raw) as (raw' & E1 & E2).
  rewrite E1, E2. clear G.
  induction d as [|[k0 v] d IH]; cbn [dict_set].
  - rewrite str_eqb_refl. reflexivity.
  - destruct (str_eqb k k0) eqn:E; cbn [dict_set]; rewrite E;
      [reflexivity | f_equal; exact IH].
Qed.

Lemma sanitize_hook_dict (a : agent) (d : list (str * pyval)) :
  after_agent_sanitize_json (context_for a (PDict d))
  = match output_key a with
    | Some (c :: k) =>
        PDict (rewrite_at (c :: k) (fun raw => sanitize_json_str (PStr raw)) d)
    | _ => PDict d
    end.
Proof.
  unfold after_agent_sanitize_json, rewrite_at.
  cbn [context_for ctx_agent ctx_state].
  destruct (output_key a) as [[|c k]|]; try reflexivity.
  destruct (dict_get (c :: k) d) as [[| | | |raw| |]|]; reflexivity.
Qed.

Lemma trim_hook_dict (a : agent) (d : list (str * pyval)) :
  after_agent_trim_final_summary (context_for a (PDict d))
  = PDict (rewrite_at final_summary_key (fun fs => PStr (strip fs)) d).
Proof.
  unfold after_agent_trim_final_summary, rewrite_at. cbn [context_for ctx_state].
  destruct (dict_get final_summary_key d) as [[| | | |raw| |]|]; reflexivity.
Qed.

Lemma sanitize_hooks_swap (a b : agent) (state : pyval) :
  output_key a <> output_key b ->
  after_agent_sanitize_json
    (context_for a (after_agent_sanitize_json (context_for b state)))
  = after_agent_sanitize_json
      (context_for b (after_agent_sanitize_json (context_for a state))).
Proof.
  intros NE. destruct state as [| | | | | |d]; try reflexivity.
  rewrite (sanitize_hook_dict b d), (sanitize_hook_dict a d).
  destruct (output_key a) as [[|ca ka]|] eqn:Ka;
    destruct (output_key b) as [[|cb kb]|] eqn:Kb;
    rewrite ?sanitize_hook_dict, ?Ka, ?Kb; try reflexivity.
  f_equal. apply rewrite_at_comm. congruence.
Qed.

(** X8. The sanitising callbacks of agents with pairwise different output
    keys can run in any order: the state they leave is the same. So it is
    for the three agents of the parallel stage, whichever finishes
    first. *)
Theorem sanitize_hooks_any_order (agents agents' : list agent) (state : pyval) :
  NoDup (List.map output_key agents) ->
  Permutation.Permutation agents agents' ->
  run_sanitize_hooks agents state = run_sanitize_hooks agents' state.
Proof.
  intros ND P. revert state ND.
  induction P as [|x l l' P IH|x y l|l l' l'' P1 IH1 P2 IH2]; intros state ND.
  - reflexivity.
  - cbn [run_sanitize_hooks fold_left]. apply IH.
    cbn [List.map] in ND. inversion ND; assumption.
  - cbn [run_sanitize_hooks fold_left]. f_equal. apply sanitize_hooks_swap.
    cbn [List.map] in ND. inversion ND as [|? ? Hn _]; subst.
    intros E. apply Hn. left. exact E.
  - rewrite IH1 by exact ND. apply IH2.
    apply (Permutation.Permutation_NoDup (l := List.map output_key l));
      [apply Permutation.Permutation_map; exact P1 | exact ND].
Qed.

(** X9. Running [after_agent_trim_final_summary] a second time changes
    nothing, and it can run before or after the sanitising callback of an
    agent whose output key is not final_summary. *)
Theorem trim_hook_composes (a b : agent) (state : pyval) :
  after_agent_trim_final_summary
    (context_for a (after_agent_trim_final_summary (context_for a state)))
  = after_agent_trim_final_summary (context_for a state)
  /\ (output_key b <> Some (lit "final_summary") ->
      after_agent_trim_final_summary
        (context_for a (after_agent_sanitize_json (context_for b state)))
      = after_agent_sanitize_json
          (context_for b (after_agent_trim_final_summary (context_for a state)))).
Proof.
  change (lit "final_summary") with final_summary_key.
  destruct state as [| | | | | |d]; try (split; reflexivity). split.
  - rewrite !trim_hook_dict. f_equal. apply rewrite_at_twice.
    intros raw. exists (strip raw). rewrite strip_idempotent. auto.
  - intros NE. rewrite trim_hook_dict, (sanitize_hook_dict b d).
    destruct (output_key b) as [[|cb kb]|] eqn:Kb;
      rewrite ?trim_hook_dict, ?sanitize_hook_dict, ?Kb; try reflexivity.
    f_equal. apply rewrite_at_comm. congruence.
Qed.

End Hooks.

(* ------------------------------------------------------------------ *)
(** * Dates in ISO format *)
(* ------------------------------------------------------------------ *)

Section IsoDates.
Context {L : PyLib}.

Lemma decimal_value_digit_at (unit n : Z) :
  decimal_value (digit_at unit n) = Some ((n / unit) mod 10)%Z.
Proof.
  unfold decimal_value, digit_at, is_digit, in_range.
  assert (H : (0 <= (n / unit) mod 10 < 10)%Z) by (apply Z.mod_pos_bound; lia).
  replace (N.leb 48 (Z.to_N (48 + (n / unit) mod 10))
           && N.leb (Z.to_N (48 + (n / unit) mod 10)) 57) with true.
  - f_equal. lia.
  - symmetry. apply andb_true_iff. split; apply N.leb_le; lia.
Qed.

Lemma match_Y_four_digits (y : Z) (r : str) :
  (0 <= y <= 9999)%Z -> match_Y (four_digits y ++ r) = Some (y, r).
Proof.
  intros H. unfold match_Y, four_digits. cbn [app].
  rewrite !decimal_value_digit_at. f_equal. f_equal.
  rewrite Z.div_1_r. Z.div_mod_to_equations. lia.
Qed.

Lemma match_m_hyphen_two_digits (m : Z) (r : str) :
  (1 <= m <= 12)%Z ->
  match_m_hyphen (two_digits m ++ 45%N :: r) = Some (m, r).
Proof.
  intros H.
  assert (C : (m = 1 \/ m = 2 \/ m = 3 \/ m = 4 \/ m = 5 \/ m = 6 \/ m = 7
               \/ m = 8 \/ m = 9 \/ m = 10 \/ m = 11 \/ m = 12)%Z) by lia.
  repeat (destruct C as [->|C]; [reflexivity|]). subst. reflexivity.
Qed.

Lemma match_d_two_digits (d : Z) :
  (1 <= d <= 31)%Z -> match_d (two_digits d) = Some (d, []).
Proof.
  intros H. rewrite <- (Z2Nat.id d) by lia.
  assert (Hn : Z.to_nat d <= 31) by lia.
  assert (Hp : 1 <= Z.to_nat d) by lia.
  revert Hn Hp. generalize (Z.to_nat d). intros n Hn Hp.
  do 32 (destruct n as [|n]; [try lia; reflexivity|]). lia.
Qed.

Lemma days_in_month_bound (y m : Z) : (days_in_month y m <= 31)%Z.
Proof.
  unfold days_in_month. destruct (Z.eqb m 2); [destruct (is_leap y); lia|].
  destruct (_ || _); lia.
Qed.

(** [strptime] reads back what [isoformat] writes for a date. *)
Lemma strptime_ymd_isoformat (d : date) :
  valid_date d = true -> strptime_ymd (isoformat_date d) = Some d.
Proof.
  intros V. pose proof V as V'. unfold valid_date in V'.
  rewrite !andb_true_iff, !Z.leb_le in V'.
  destruct V' as (((((Y1 & Y2) & M1) & M2) & D1) & D2).
  pose proof (days_in_month_bound (year d) (month d)).
  unfold strptime_ymd, isoformat_date.
  rewrite match_Y_four_digits by lia. cbn [app N.eqb Pos.eqb].
  rewrite match_m_hyphen_two_digits by lia.
  rewrite match_d_two_digits by lia.
  destruct d as [y m dd]. cbn [year month day] in *. rewrite V. reflexivity.
Qed.

(** X10. An entry whose published field starts with a date in ISO format
    (four digits, two digits, two digits, hyphens between) has that date,
    whatever follows the tenth character. *)
Theorem published_dt_iso (e : entry) (d : date) (tail : str) :
  valid_date d = true ->
  published e = Some (isoformat_date d ++ tail) ->
  published_dt e = Some d.
Proof.
  intros V P. unfold published_dt. rewrite P. cbn [get]. unfold slice_to.
  assert (Len : length (isoformat_date d) = 10) by reflexivity.
  rewrite firstn_app, (firstn_all2 (n := 10)) by lia.
  rewrite Len. cbn [Nat.sub firstn]. rewrite app_nil_r.
  apply strptime_ymd_isoformat. exact V.
Qed.

End IsoDates.

(* ------------------------------------------------------------------ *)
(** * The paper search as a whole *)
(* ------------------------------------------------------------------ *)

Section WholeSearch.
Context {L : PyLib}.

Lemma no_space_plus (query : str) :
  ~ In 32%N (List.map (fun c => if N.eqb c 32 then 43%N else c) query).
Proof.
  induction query as [|c q IH]; [intros []|]. cbn [List.map].
  intros [H|H]; [|auto].
  destruct (N.eqb_spec c 32); [discriminate | congruence].
Qed.

Lemma names_all_named (l : list author) :
  Forall (fun a => author_name a <> None) l ->
  names l = Ok (List.map (fun a => PStr (get (author_name a) [])) l).
Proof.
  induction 1 as [|a l Ha _ IH]; [reflexivity|].
  cbn [names List.map]. unfold name. destruct (author_name a) as [n|]; [|congruence].
  cbn [bind]. rewrite IH. reflexivity.
Qed.

Lemma collect_papers_filter_map now cutoff entries papers :
  Forall (fun e => recent cutoff e = true ->
                   Forall (fun a => author_name a <> None) (get (authors e) []))
    entries ->
  collect_papers now cutoff entries papers
  = Ok (papers ++ List.map (paper_record now) (filter (recent cutoff) entries)).
Proof.
  intros F. revert papers. induction F as [|e rest He _ IH]; intros papers.
  - cbn. rewrite app_nil_r. reflexivity.
  - cbn [collect_papers filter]. unfold recent in He |- * at 1.
    destruct (too_old (published_dt e) cutoff) eqn:T; cbn [negb] in *.
    + apply IH.
    + rewrite (names_all_named _ (He eq_refl)). cbn [bind].
      rewrite IH, <- app_assoc. reflexivity.
Qed.


(** X11. When the request is answered and every author of the entries
    that are kept has a name, [search_papers_func] returns, under papers,
    one record for each entry that is not older than the cutoff, in the
    order of the feed. *)
Theorem search_papers_func_records
    (provider : str -> Z -> result (list entry)) (now : datetime)
    (query : str) (days_back max_results : Z)
    (entries : list entry) (cutoff : instant) :
  (forall search_query n, provider search_query n = Ok entries) ->
  minus_days now days_back = Ok cutoff ->
  Forall (fun e => recent cutoff e = true ->
                   Forall (fun a => author_name a <> None) (get (authors e) []))
    entries ->
  search_papers_func provider now query days_back max_results
  = Ok (PDict [(lit "papers",
                PList (List.map (paper_record now)
                         (filter (recent cutoff) entries)))]).
Proof.
  intros P C F. unfold search_papers_func. rewrite P. cbn [bind]. rewrite C.
  cbn [bind]. rewrite (collect_papers_filter_map now cutoff entries [] F).
  reflexivity.
Qed.

(** X12. A [days_back] that reaches back to before 0001-01-01, or forward
    to after 9999-12-31, makes [search_papers_func] raise OverflowError
    once the request has been answered, whatever the feed holds. *)
Theorem search_papers_func_days_back_overflow
    (provider : str -> Z -> result (list entry)) (now : datetime)
    (query : str) (days_back max_results : Z) (entries : list entry) :
  (forall search_query n, provider search_query n = Ok entries) ->
  (toordinal (dt_date now) <= days_back
   \/ days_back < toordinal (dt_date now) - 3652059)%Z ->
  search_papers_func provider now query days_back max_results
  = Raise OverflowError.
Proof.
  intros P H. unfold search_papers_func. rewrite P. cbn [bind].
  unfold minus_days, max_ordinal.
  destruct (Z.ltb_spec 999999999 (Z.abs days_back)); [reflexivity|].
  replace (Z.ltb 0 (toordinal (dt_date now) - days_back)
           && Z.leb (toordinal (dt_date now) - days_back) 3652059) with false;
    [reflexivity|].
  symmetry. apply andb_false_iff. rewrite Z.ltb_ge, Z.leb_gt. lia.
Qed.

(** X13. [search_papers_func] asks for between 1 and 20 results, with a
    query that starts with all: and holds no space: two providers that
    answer such requests alike give the same result. *)
Theorem search_papers_func_request
    (provider provider' : str -> Z -> result (list entry)) (now : datetime)
    (query : str) (days_back max_results : Z) :
  (forall search_query n,
      startswith (lit "all:") search_query = true ->
      ~ In 32%N search_query -> (1 <= n <= 20)%Z ->
      provider search_query n = provider' search_query n) ->
  search_papers_func provider now query days_back max_results
  = search_papers_func provider' now query days_back max_results.
Proof.
  intros H. unfold search_papers_func. rewrite H; [reflexivity|reflexivity| |lia].
  intros [E|[E|[E|[E|I]]]]; try discriminate. exact (no_space_plus query I).
Qed.

End WholeSearch.

(* ------------------------------------------------------------------ *)
(** * The repository search *)
(* ------------------------------------------------------------------ *)

Section RepoSearch.
Context {L : PyLib} {F : PyFloat L}.

Lemma repo_done (item r : pyval) : repo item = Done r -> repo_record r.
Proof.
  unfold repo. destruct item as [| | | | | |d]; try discriminate.
  cbn [get_or and_then].
  destruct (py_int _) as [stars|f]; cbn [and_then]; [|discriminate].
  intros H. inversion H; subst. unfold repo_record. eauto 10.
Qed.

Lemma repo_not_dict (item : pyval) :
  (forall d, item <> PDict d) ->
  repo item = Failed (Exn (AttributeError "object has no attribute 'get'")).
Proof.
  intros H. destruct item; try reflexivity. destruct (H d eq_refl).
Qed.

Lemma repo_schema (item r : pyval) : repo_for item r -> repo item = Done r.
Proof.
  intros (d & stars & -> & S & ->). unfold repo. cbn [get_or and_then].
  unfold star_count in S. unfold repo_of, field_or_empty.
  destruct (dict_get (lit "stargazers_count") d) as [[| |z| | | |]|];
    try discriminate S; inversion S; subst; cbn [or_else truthy py_int and_then].
  - reflexivity.
  - unfold or_else. cbn [truthy]. destruct (Z.eqb_spec stars 0) as [->|NZ];
      reflexivity.
  - reflexivity.
Qed.

Lemma collect_repos_done (items repos out : list pyval) :
  collect_repos items repos = Done out ->
  exists added,
    out = repos ++ added /\ length added = length items
    /\ Forall repo_record added.
Proof.
  revert repos. induction items as [|item items IH]; intros repos; cbn [collect_repos].
  - intros H. inversion H; subst. exists []. rewrite app_nil_r.
    repeat split. constructor.
  - destruct (repo item) as [r|f] eqn:R; cbn [and_then]; [|discriminate].
    intros H. destruct (IH _ H) as (added & -> & Len & Fa).
    exists (r :: added). rewrite <- app_assoc. cbn [app length].
    repeat split; [congruence|]. constructor; [|exact Fa].
    eapply repo_done. exact R.
Qed.

Lemma collect_repos_schema (items records repos : list pyval) :
  Forall2 repo_for items records ->
  collect_repos items repos = Done (repos ++ records).
Proof.
  intros H. revert repos.
  induction H as [|item r items records Hr _ IH]; intros repos.
  - cbn. rewrite app_nil_r. reflexivity.
  - cbn [collect_repos]. rewrite (repo_schema _ _ Hr). cbn [and_then].
    rewrite IH, <- app_assoc. reflexivity.
Qed.

Lemma collect_repos_fails (good : list pyval) (bad : pyval)
    (rest repos : list pyval) (f : fault) :
  Forall (fun item => exists r, repo item = Done r) good ->
  repo bad = Failed f ->
  collect_repos (good ++ bad :: rest) repos = Failed f.
Proof.
  intros G B. revert repos. induction G as [|item good [r Hr] _ IH]; intros repos.
  - cbn [app collect_repos]. rewrite B. reflexivity.
  - cbn [app collect_repos]. rewrite Hr. cbn [and_then]. apply IH.
Qed.

Lemma slice_items_length (items : pyval) (n : nat) (l : list pyval) :
  slice_items items n = Done l -> length l <= n.
Proof.
  destruct items; try discriminate; cbn [slice_items]; intros H; inversion H; subst.
  - rewrite length_map. apply firstn_le_length.
  - apply firstn_le_length.
Qed.

(** X14. Whenever [search_repos_func] returns, it returns a dict with the
    single key repos, holding at most [max_results] records (at most 10,
    and at most 1 when [max_results] is below 1), each with the keys name,
    url, description, stars and last_updated in this order and an [int]
    number of stars. *)
Theorem search_repos_func_result
    (provider : list (str * pyval) -> list (str * pyval) -> result pyval)
    (environ : list (str * str)) (query : str) (max_results : Z) (r : pyval) :
  search_repos_func provider environ query max_results = Done r ->
  exists repos,
    r = PDict [(lit "repos", PList repos)]
    /\ length repos <= 10
    /\ (Z.of_nat (length repos) <= Z.max 1 max_results)%Z
    /\ Forall repo_record repos.
Proof.
  unfold search_repos_func.
  destruct (provider _ _) as [data|e]; cbn [lift and_then]; [|discriminate].
  destruct (get_or data (lit "items") (PList [])) as [items|f];
    cbn [and_then]; [|discriminate].
  destruct (slice_items items _) as [first|f] eqn:S; cbn [and_then]; [|discriminate].
  destruct (collect_repos first []) as [repos|f] eqn:C; cbn [and_then]; [|discriminate].
  intros H. inversion H; subst. exists repos.
  apply slice_items_length in S.
  destruct (collect_repos_done _ _ _ C) as (added & -> & Len & Fa).
  cbn [app]. repeat split; [lia | lia | exact Fa].
Qed.

(** X15. When the response is an object whose items (none when the key is
    missing) are, as far as they are looked at, objects whose star count
    is an integer, null or missing, [search_repos_func] returns one record
    for each of the first [max_results] items (clamped to 1..10), in their
    order: the fields that are missing, null or otherwise false as the
    empty string, the star count as it is, 0 when null or missing. *)
Theorem search_repos_func_schema
    (provider : list (str * pyval) -> list (str * pyval) -> result pyval)
    (environ : list (str * str)) (query : str) (max_results : Z)
    (data : list (str * pyval)) (l records : list pyval) :
  (forall params headers, provider params headers = Ok (PDict data)) ->
  items_of data l ->
  Forall2 repo_for (firstn (Z.to_nat (Z.max 1 (Z.min max_results 10))) l) records ->
  search_repos_func provider environ query max_results
  = Done (PDict [(lit "repos", PList records)])
  /\ length records
     = Nat.min (length l) (Z.to_nat (Z.max 1 (Z.min max_results 10))).
Proof.
  intros P I R. split.
  - unfold search_repos_func. rewrite P. cbn [lift and_then get_or].
    assert (E : match dict_get (lit "items") data with
                | Some v => v
                | None => PList []
                end = PList l).
    { destruct I as [-> | [-> ->]]; reflexivity. }
    rewrite E. cbn [slice_items and_then].
    rewrite (collect_repos_schema _ _ [] R). reflexivity.
  - rewrite <- (Forall2_length R), length_firstn. lia.
Qed.

(** X16. [search_repos_func] looks at the first [max_results] items
    (clamped to 1..10) and at nothing after them: two responses whose
    item lists agree that far give the same result. *)
Theorem search_repos_func_first_items
    (provider provider' : list (str * pyval) -> list (str * pyval) -> result pyval)
    (environ : list (str * str)) (query : str) (max_results : Z)
    (data data' : list (str * pyval)) (l l' : list pyval) :
  (forall params headers, provider params headers = Ok (PDict data)) ->
  (forall params headers, provider' params headers = Ok (PDict data')) ->
  dict_get (lit "items") data = Some (PList l) ->
  dict_get (lit "items") data' = Some (PList l') ->
  firstn (Z.to_nat (Z.max 1 (Z.min max_results 10))) l
  = firstn (Z.to_nat (Z.max 1 (Z.min max_results 10))) l' ->
  search_repos_func provider environ query max_results
  = search_repos_func provider' environ query max_results.
Proof.
  intros P P' I I' E. unfold search_repos_func.
  rewrite P, P'. cbn [lift and_then get_or]. rewrite I, I'.
  cbn [slice_items and_then]. rewrite E. reflexivity.
Qed.

(** X17. One item that is not an object (a null, say) among the first
    [max_results] items makes the whole call fail with AttributeError,
    although the items before it are fine: no record is returned. *)
Theorem search_repos_func_bad_item
    (provider : list (str * pyval) -> list (str * pyval) -> result pyval)
    (environ : list (str * str)) (query : str) (max_results : Z)
    (data : list (str * pyval)) (l good rest : list pyval) (bad : pyval) :
  (forall params headers, provider params headers = Ok (PDict data)) ->
  dict_get (lit "items") data = Some (PList l) ->
  firstn (Z.to_nat (Z.max 1 (Z.min max_results 10))) l = good ++ bad :: rest ->
  Forall (fun item => exists r, repo_for item r) good ->
  (forall d, bad <> PDict d) ->
  search_repos_func provider environ query max_results
  = Failed (Exn (AttributeError "object has no attribute 'get'")).
Proof.
  intros P I E G B. unfold search_repos_func.
  rewrite P. cbn [lift and_then get_or]. rewrite I.
  cbn [slice_items and_then]. rewrite E.
  rewrite (collect_repos_fails good bad rest []
             (Exn (AttributeError "object has no attribute 'get'")));
    [reflexivity| |].
  - revert G. apply Forall_impl. intros item [r Hr]. exists r.
    apply repo_schema. exact Hr.
  - apply repo_not_dict. exact B.
Qed.

(** X18. The request of [search_repos_func] carries the query, asks for
    the most starred first and for between 1 and 10 results a page, and
    has an Authorization header exactly when GITHUB_TOKEN is set and not
    empty, the token then sent as a bearer token: two providers that
    answer such requests alike give the same result. *)
Theorem search_repos_func_request
    (provider provider' : list (str * pyval) -> list (str * pyval) -> result pyval)
    (environ : list (str * str)) (query : str) (max_results : Z) :
  (forall params headers,
      repo_request environ query params headers ->
      provider params headers = provider' params headers) ->
  search_repos_func provider environ query max_results
  = search_repos_func provider' environ query max_results.
Proof.
  intros H. unfold search_repos_func. rewrite H; [reflexivity|].
  unfold repo_request. repeat split; try reflexivity.
  - exists (Z.max 1 (Z.min max_results 10)). split; [reflexivity | lia].
  - destruct (getenv environ (lit "GITHUB_TOKEN")) as [[|c t]|]; reflexivity.
Qed.

End RepoSearch.

(* ------------------------------------------------------------------ *)
(** * Reading back what [json.dumps(obj)] writes *)
(* ------------------------------------------------------------------ *)

(** ** Bits *)

Lemma lor_high_low (h l : N) :
  (l < 1024)%N -> N.lor (h * 1024) l = (h * 1024 + l)%N.
Proof.
  intros Hl.
  assert (Z : N.land (h * 1024) l = 0%N).
  { apply N.bits_inj. intros n. rewrite N.land_spec, N.bits_0.
    change 1024%N with (2 ^ 10)%N.
    destruct (N.lt_ge_cases n 10) as [Lt|Ge].
    - rewrite N.mul_pow2_bits_low by exact Lt. reflexivity.
    - destruct (N.eq_dec l 0) as [->|NZ];
        [rewrite N.bits_0; apply andb_false_r|].
      rewrite (N.bits_above_log2 l n); [apply andb_false_r|].
      apply N.log2_lt_pow2; [lia|].
      apply N.lt_le_trans with (2 ^ 10)%N; [exact Hl|].
      apply N.pow_le_mono_r; [discriminate | exact Ge]. }
  rewrite <- N.lxor_lor by exact Z. symmetry. apply N.add_nocarry_lxor. exact Z.
Qed.

Lemma hex_value_digit (x : N) : (x < 16)%N -> hex_value (hex_digit x) = Some x.
Proof.
  intros H. rewrite <- (N2Nat.id x). assert (Hn : N.to_nat x < 16) by lia.
  revert Hn. generalize (N.to_nat x). intros n Hn.
  do 16 (destruct n as [|n]; [reflexivity|]). lia.
Qed.

Lemma decode_hex4 (n : N) (a b c d : N) :
  (n < 65536)%N -> hex4 n = [a; b; c; d] -> decode_uXXXX a b c d = Some n.
Proof.
  intros H E. unfold hex4 in E. inversion E; subst; clear E.
  unfold decode_uXXXX.
  rewrite !hex_value_digit.
  - f_equal.
    change 4096%N with (16 * 16 * 16)%N. change 256%N with (16 * 16)%N.
    rewrite <- !N.Div0.div_div.
    pose proof (N.div_mod n 16 ltac:(discriminate)).
    pose proof (N.div_mod (n / 16) 16 ltac:(discriminate)).
    pose proof (N.div_mod (n / 16 / 16) 16 ltac:(discriminate)).
    lia.
  - apply N.mod_lt. discriminate.
  - apply N.mod_lt. discriminate.
  - apply N.mod_lt. discriminate.
  - apply N.Div0.div_lt_upper_bound. exact H.
Qed.

Lemma surrogate_pair (c : N) :
  (65536 <= c < 1114112)%N ->
  let n := (c - 65536)%N in
  let s1 := N.lor 55296 (N.land (N.shiftr n 10) 1023) in
  let s2 := N.lor 56320 (N.land n 1023) in
  (s1 < 65536)%N /\ (s2 < 65536)%N
  /\ is_high_surrogate s1 = true /\ is_low_surrogate s2 = true
  /\ join_surrogates s1 s2 = c.
Proof.
  intros H n s1 s2.
  assert (Hn : (n < 1048576)%N) by (unfold n; lia).
  assert (E1 : s1 = (55296 + n / 1024)%N).
  { unfold s1. change 1023%N with (N.ones 10). rewrite N.land_ones, N.shiftr_div_pow2.
    change (2 ^ 10)%N with 1024%N.
    assert (Hq : (n / 1024 < 1024)%N) by (apply N.Div0.div_lt_upper_bound; exact Hn).
    rewrite N.mod_small by exact Hq.
    change 55296%N with (54 * 1024)%N. apply lor_high_low. exact Hq. }
  assert (E2 : s2 = (56320 + n mod 1024)%N).
  { unfold s2. change 1023%N with (N.ones 10). rewrite N.land_ones.
    change (2 ^ 10)%N with 1024%N.
    change 56320%N with (55 * 1024)%N. apply lor_high_low.
    apply N.mod_lt. discriminate. }
  assert (Hq : (n / 1024 < 1024)%N) by (apply N.Div0.div_lt_upper_bound; exact Hn).
  assert (Hr : (n mod 1024 < 1024)%N) by (apply N.mod_lt; discriminate).
  assert (Hc : c = (n + 65536)%N) by (unfold n; lia).
  pose proof (N.div_mod n 1024 ltac:(discriminate)) as Hd.
  rewrite E1, E2. clear E1 E2. clearbody n. clear s1 s2.
  remember (n / 1024)%N as q eqn:Eq. remember (n mod 1024)%N as r eqn:Er.
  clear Eq Er.
  repeat split; try lia.
  - unfold is_high_surrogate, in_range. apply andb_true_iff.
    split; apply N.leb_le; lia.
  - unfold is_low_surrogate, in_range. apply andb_true_iff.
    split; apply N.leb_le; lia.
  - unfold join_surrogates.
    replace (55296 + q - 55296)%N with q by lia.
    replace (56320 + r - 56320)%N with r by lia.
    rewrite N.shiftl_mul_pow2. change (2 ^ 10)%N with 1024%N.
    rewrite lor_high_low by exact Hr. lia.
Qed.

(** One character written by [encode_basestring_ascii] is read back. *)
Lemma scanstring_escape_char_ascii (c : N) (t acc : str) :
  scalar_value c = true ->
  scanstring (escape_char_ascii c ++ t) acc = scanstring t (c :: acc).
Proof.
  intros V. unfold scalar_value in V. apply andb_true_iff in V.
  destruct V as [V1 V2]. apply N.ltb_lt in V1.
  unfold escape_char_ascii.
  destruct (N.ltb_spec c 127) as [_|G1]; [apply scanstring_escape_char|].
  destruct (N.ltb_spec c 65536) as [L2|G2].
  - destruct (hex4 c) as [|a [|b [|x [|d [|? ?]]]]] eqn:E; try discriminate.
    cbn [app]. rewrite scanstring_unicode, (decode_hex4 c a b x d L2 E).
    assert (H : is_high_surrogate c = false).
    { unfold is_high_surrogate. unfold in_range in *.
      destruct (N.leb_spec 55296 c), (N.leb_spec c 56319); try reflexivity.
      destruct (N.leb_spec c 57343); [discriminate V2 | lia]. }
    rewrite H. reflexivity.
  - cbv zeta.
    destruct (surrogate_pair c (conj G2 V1)) as (B1 & B2 & H1 & H2 & J).
    cbv zeta in B1, B2, H1, H2, J.
    set (s1 := N.lor 55296 (N.land (N.shiftr (c - 65536) 10) 1023)) in *.
    set (s2 := N.lor 56320 (N.land (c - 65536) 1023)) in *.
    destruct (hex4 s1) as [|a1 [|b1 [|c1 [|d1 [|? ?]]]]] eqn:E1; try discriminate.
    destruct (hex4 s2) as [|a2 [|b2 [|c2 [|d2 [|? ?]]]]] eqn:E2; try discriminate.
    cbn [app]. rewrite scanstring_unicode, (decode_hex4 s1 _ _ _ _ B1 E1), H1.
    cbn [surrogate_lookahead N.eqb Pos.eqb andb].
    rewrite (decode_hex4 s2 _ _ _ _ B2 E2), H2. cbn [skipn]. rewrite J.
    reflexivity.
Qed.

Lemma scanstring_escaped_ascii (s t acc : str) :
  Forall (fun c => scalar_value c = true) s ->
  scanstring (flat_map escape_char_ascii s ++ 34%N :: t) acc
  = Ok (rev acc ++ s, t).
Proof.
  intros F. revert acc. induction F as [|c s V _ IH]; intros acc.
  - cbn. rewrite app_nil_r. reflexivity.
  - cbn [flat_map]. rewrite <- app_assoc, scanstring_escape_char_ascii, IH by exact V.
    cbn [rev]. rewrite <- app_assoc. reflexivity.
Qed.

Section ReadBackDefault.
Context {L : PyLib}.

Lemma scan_once_string_ascii (depth : nat) (s t : str) :
  Forall (fun c => scalar_value c = true) s ->
  scan_once (S depth) (encode_basestring_ascii s ++ t) = Ok (PStr s, t).
Proof.
  intros U. unfold encode_basestring_ascii. cbn [app scan_once]. cbn [N.eqb Pos.eqb].
  rewrite <- app_assoc. cbn [app]. rewrite scanstring_escaped_ascii by exact U.
  reflexivity.
Qed.

Lemma texts_list (P : N -> bool) (l : list pyval) :
  texts P (PList l) <-> Forall (texts P) l.
Proof.
  cbn [texts]. induction l as [|x l IH]; cbn [fold_right].
  - split; constructor.
  - rewrite IH. split; [intros [? ?]; constructor; assumption|].
    intros H. inversion H. split; assumption.
Qed.

Lemma texts_dict (P : N -> bool) (d : list (str * pyval)) :
  texts P (PDict d)
  <-> Forall (fun kv => Forall (fun c => P c = true) (fst kv)
                        /\ texts P (snd kv)) d.
Proof.
  cbn [texts]. induction d as [|[k x] d IH]; cbn [fold_right].
  - split; constructor.
  - rewrite IH. cbn [fst snd]. split.
    + intros (? & ? & ?). constructor; [split|]; assumption.
    + intros H. inversion H as [|? ? [? ?] ?]. repeat split; assumption.
Qed.

Lemma array_items_reads_default scan (l : list pyval) :
  Forall (reads_default scan) l -> l <> [] ->
  forall fuel values rest,
    length l <= fuel ->
    array_items scan fuel values
      (join [44; 32]%N (List.map dumps_default l) ++ 93%N :: rest)
    = Ok (PList (values ++ l), rest).
Proof.
  induction 1 as [|x l [Hx Rx] F IH]; [congruence|]. intros _ fuel values rest Hf.
  destruct fuel as [|fuel]; [cbn in Hf; lia|].
  destruct l as [|y l].
  - cbn [List.map join array_items].
    rewrite (Rx (93%N :: rest)) by (cbn; auto).
    cbn [expecting_value bind skip_ws is_json_ws N.eqb Pos.eqb orb].
    reflexivity.
  - rewrite !map_cons, join_cons2. cbn [array_items].
    rewrite <- !app_assoc. cbn [app].
    rewrite (Rx (44%N :: _)) by (cbn; auto).
    cbn [expecting_value bind skip_ws is_json_ws N.eqb Pos.eqb orb].
    inversion F as [|? ? [Hy _] _]; subst.
    rewrite skip_ws_value_head
      by (destruct l; [exact Hy | rewrite map_cons, join_cons2; apply value_head_app; exact Hy]).
    change (dumps_default y :: List.map dumps_default l)
      with (List.map dumps_default (y :: l)).
    rewrite IH; [|discriminate|cbn [length] in *; lia].
    rewrite <- app_assoc. reflexivity.
Qed.

Lemma joined_value_head (sep : str) (f : pyval -> str) (x : pyval) (l : list pyval) :
  value_head (f x) -> value_head (join sep (List.map f (x :: l))).
Proof.
  intros H. cbn [List.map].
  destruct l; [exact H | rewrite map_cons, join_cons2; apply value_head_app; exact H].
Qed.

Lemma JSONArray_reads_default scan (l : list pyval) (rest : str) :
  Forall (reads_default scan) l ->
  JSONArray scan (join [44; 32]%N (List.map dumps_default l) ++ 93%N :: rest)
  = Ok (PList l, rest).
Proof.
  intros F. unfold JSONArray. destruct l as [|x l]; [reflexivity|].
  assert (VH : value_head (join [44; 32]%N (List.map dumps_default (x :: l)))).
  { inversion F as [|? ? [Hx _] _]; subst. apply joined_value_head. exact Hx. }
  rewrite skip_ws_value_head by exact VH.
  assert (Hf : length (x :: l)
               <= S (length (join [44; 32]%N (List.map dumps_default (x :: l))
                             ++ 93%N :: rest))).
  { rewrite length_app.
    pose proof (join_length [44; 32]%N (List.map dumps_default (x :: l))) as J.
    rewrite length_map in J.
    cut (length (x :: l)
         <= length (join [44; 32]%N (List.map dumps_default (x :: l)))); [lia|].
    apply J. apply Forall_map. revert F. apply Forall_impl.
    intros a [Ha _]. apply value_head_nonempty. exact Ha. }
  pose proof (array_items_reads_default scan (x :: l) F ltac:(discriminate)
                _ [] rest Hf) as A.
  destruct (join [44; 32]%N (List.map dumps_default (x :: l)) ++ 93%N :: rest)
    as [|c s1] eqn:E.
  - exact A.
  - destruct (N.eqb_spec c 93) as [->|_]; [|exact A].
    exfalso. destruct (join [44; 32]%N (List.map dumps_default (x :: l))) as [|c' j];
      [destruct VH|]. cbn [app] in E. inversion E; subst.
    destruct VH as (_ & H & _). congruence.
Qed.

Lemma member_text_default_head (kv : str * pyval) :
  member_text_default kv = 34%N :: tl (member_text_default kv).
Proof. destruct kv. reflexivity. Qed.

Lemma members_default_head (d : list (str * pyval)) :
  d <> [] ->
  join [44; 32]%N (List.map member_text_default d)
  = 34%N :: tl (join [44; 32]%N (List.map member_text_default d)).
Proof.
  destruct d as [|kv d]; [congruence|]. intros _. cbn [List.map].
  destruct d as [|kv' d].
  - cbn [join]. apply member_text_default_head.
  - cbn [List.map]. rewrite join_cons2. rewrite (member_text_default_head kv) at 1.
    rewrite (member_text_default_head kv) at 2. reflexivity.
Qed.

Lemma object_members_reads_default scan (d : list (str * pyval)) :
  Forall (fun kv => Forall (fun c => scalar_value c = true) (fst kv) /\ reads_default scan (snd kv)) d ->
  d <> [] ->
  forall fuel pairs rest,
    length d <= fuel ->
    object_members scan fuel pairs
      (tl (join [44; 32]%N (List.map member_text_default d)) ++ 125%N :: rest)
    = Ok (PDict (dict_of_pairs (pairs ++ d)), rest).
Proof.
  induction 1 as [|[k x] d [Uk [Hx Rx]] F IH]; [congruence|].
  intros _ fuel pairs rest Hf. cbn [fst snd] in *.
  destruct fuel as [|fuel]; [cbn in Hf; lia|].
  destruct d as [|kv d].
  - cbn [List.map join member_text_default encode_basestring_ascii app tl
         object_members].
    rewrite <- !app_assoc. cbn [app].
    rewrite scanstring_escaped_ascii by exact Uk.
    cbn [bind rev app skip_ws is_json_ws N.eqb Pos.eqb orb].
    rewrite skip_ws_value_head by exact Hx.
    rewrite (Rx (125%N :: rest)) by (cbn; auto).
    cbn [expecting_value bind skip_ws is_json_ws N.eqb Pos.eqb orb].
    reflexivity.
  - cbn [List.map]. rewrite join_cons2.
    cbn [member_text_default encode_basestring_ascii app tl object_members].
    rewrite <- !app_assoc. cbn [app].
    rewrite scanstring_escaped_ascii by exact Uk.
    cbn [bind rev app skip_ws is_json_ws N.eqb Pos.eqb orb].
    rewrite skip_ws_value_head by exact Hx.
    rewrite (Rx (44%N :: _)) by (cbn; auto).
    cbn [expecting_value bind skip_ws is_json_ws N.eqb Pos.eqb orb].
    change (member_text_default kv :: List.map member_text_default d)
      with (List.map member_text_default (kv :: d)).
    rewrite (members_default_head (kv :: d)) by discriminate.
    cbn [app skip_ws is_json_ws N.eqb Pos.eqb orb].
    rewrite IH; [|discriminate|cbn [length] in *; lia].
    rewrite <- app_assoc. reflexivity.
Qed.

Lemma JSONObject_reads_default scan (d : list (str * pyval)) (rest : str) :
  NoDup (List.map fst d) ->
  Forall (fun kv => Forall (fun c => scalar_value c = true) (fst kv) /\ reads_default scan (snd kv)) d ->
  JSONObject scan (join [44; 32]%N (List.map member_text_default d) ++ 125%N :: rest)
  = Ok (PDict d, rest).
Proof.
  intros ND F. unfold JSONObject. destruct d as [|kv d]; [reflexivity|].
  rewrite (members_default_head (kv :: d)) by discriminate.
  cbn [app skip_ws is_json_ws N.eqb Pos.eqb orb].
  rewrite object_members_reads_default; [|exact F|discriminate|].
  - cbn [app]. rewrite dict_of_pairs_unique by exact ND. reflexivity.
  - pose proof (join_length [44; 32]%N (List.map member_text_default (kv :: d))) as J.
    rewrite length_map in J.
    assert (length (kv :: d)
            <= length (join [44; 32]%N (List.map member_text_default (kv :: d)))).
    { apply J. apply Forall_map. apply Forall_forall.
      intros a _. rewrite member_text_default_head. discriminate. }
    rewrite (members_default_head (kv :: d)) in H by discriminate.
    cbn [length] in *. rewrite length_app. cbn [length]. lia.
Qed.

Lemma dumps_default_dict (d : list (str * pyval)) :
  dumps_default (PDict d)
  = 123%N :: join [44; 32]%N (List.map member_text_default d) ++ [125%N].
Proof. reflexivity. Qed.

Lemma dumps_default_list (l : list pyval) :
  dumps_default (PList l)
  = 91%N :: join [44; 32]%N (List.map dumps_default l) ++ [93%N].
Proof. reflexivity. Qed.

(** The decoder reads the default encoding of a value back as that value,
    when its strings are well-formed texts. *)
Lemma scan_once_dumps_default (v : pyval) :
  unique_keys v -> texts scalar_value v -> Forall float_rereads (floats_of v) ->
  value_head (dumps_default v)
  /\ forall depth rest,
       length (dumps_default v) <= depth -> delimited rest ->
       scan_once depth (dumps_default v ++ rest) = Ok (v, rest).
Proof.
  induction v as [|b|z|f|s|l IH|d IH] using pyval_ind; intros U T F.
  - split; [cbn; repeat split; discriminate|].
    intros [|depth] rest Hd _; [cbn in Hd; lia | reflexivity].
  - split; [destruct b; cbn; repeat split; discriminate|].
    intros [|depth] rest Hd _; [destruct b; cbn in Hd; lia|].
    destruct b; reflexivity.
  - split; [apply (scan_once_int 0 z []); exact I|].
    intros [|depth] rest Hd D.
    + destruct (int_repr_nonempty z) as (c & t & E). cbn [dumps_default] in Hd.
      rewrite E in Hd. cbn in Hd. lia.
    + apply scan_once_int. exact D.
  - inversion F as [|? ? R _]; subst. cbn [dumps_default].
    pose proof (R [] I) as R0. rewrite app_nil_r in R0.
    pose proof (scan_once_value_head _ _ _ _ R0) as VH.
    split; [exact VH|]. intros [|depth] rest Hd D.
    + destruct (floatstr f); [destruct VH | cbn in Hd; lia].
    + apply scan_once_scalar; [apply R; exact D | reflexivity].
  - split; [cbn; repeat split; discriminate|].
    intros [|depth] rest Hd _; [cbn in Hd; lia|].
    apply scan_once_string_ascii. exact T.
  - split; [cbn; repeat split; discriminate|].
    intros [|depth] rest Hd _; [cbn in Hd; lia|].
    rewrite dumps_default_list in *. cbn [app]. rewrite scan_once_cases.
    cbn [N.eqb Pos.eqb]. rewrite <- app_assoc. cbn [app].
    apply JSONArray_reads_default.
    apply unique_keys_list in U. apply texts_list in T.
    cbn [floats_of] in F.
    rewrite Forall_forall in IH, U, T |- *. intros x Hx.
    assert (Fx : Forall float_rereads (floats_of x)).
    { rewrite Forall_forall in F |- *. intros g Hg. apply F.
      apply in_flat_map. exists x. auto. }
    destruct (IH x Hx (U x Hx) (T x Hx) Fx) as [VH R]. split; [exact VH|].
    intros rest' D'. apply R; [|exact D'].
    pose proof (join_In_length [44; 32]%N (dumps_default x)
                  (List.map dumps_default l)
                  (in_map dumps_default l x Hx)) as J.
    cbn [length] in Hd. rewrite length_app in Hd. cbn [length] in Hd. lia.
  - split; [cbn; repeat split; discriminate|].
    intros [|depth] rest Hd _; [cbn in Hd; lia|].
    rewrite dumps_default_dict in *. cbn [app]. rewrite scan_once_cases.
    cbn [N.eqb Pos.eqb]. rewrite <- app_assoc. cbn [app].
    apply unique_keys_dict in U. destruct U as [ND U].
    apply texts_dict in T.
    apply JSONObject_reads_default; [exact ND|].
    cbn [floats_of] in F.
    rewrite Forall_forall in IH, U, T |- *. intros [k x] Hx. cbn [fst snd].
    assert (Fx : Forall float_rereads (floats_of x)).
    { rewrite Forall_forall in F |- *. intros g Hg. apply F.
      apply in_flat_map. exists (k, x). auto. }
    destruct (T _ Hx) as [Tk Tx]. cbn [fst snd] in Tk, Tx.
    split; [exact Tk|].
    destruct (IH _ Hx (U _ Hx) Tx Fx) as [VH R]. split; [exact VH|].
    intros rest' D'. apply R; [|exact D'].
    pose proof (join_In_length [44; 32]%N (member_text_default (k, x))
                  (List.map member_text_default d)
                  (in_map member_text_default d (k, x) Hx)) as J.
    cbn [member_text_default] in J. rewrite !length_app in J.
    cbn [length snd] in *. rewrite length_app in Hd. cbn [length] in Hd. lia.
Qed.

Lemma raw_decode_dumps_default (v : pyval) :
  unique_keys v -> texts scalar_value v -> Forall float_rereads (floats_of v) ->
  raw_decode (dumps_default v) = Ok (v, []).
Proof.
  intros U T F. unfold raw_decode.
  destruct (scan_once_dumps_default v U T F) as [_ R].
  specialize (R (S (length (dumps_default v))) [] ltac:(lia) I).
  rewrite app_nil_r in R. rewrite R. reflexivity.
Qed.

End ReadBackDefault.
(** ** The default encoding is printable ASCII *)

Lemma hex_digit_printable (x : N) : (x < 16)%N -> printable (hex_digit x) = true.
Proof.
  intros H. rewrite <- (N2Nat.id x). assert (Hn : N.to_nat x < 16) by lia.
  revert Hn. generalize (N.to_nat x). intros n Hn.
  do 16 (destruct n as [|n]; [reflexivity|]). lia.
Qed.

Lemma hex4_printable (n : N) :
  (n < 65536)%N -> Forall (fun c => printable c = true) (hex4 n).
Proof.
  intros H. unfold hex4. repeat constructor; apply hex_digit_printable.
  - apply N.Div0.div_lt_upper_bound. exact H.
  - apply N.mod_lt. discriminate.
  - apply N.mod_lt. discriminate.
  - apply N.mod_lt. discriminate.
Qed.

Lemma escape_char_printable (c : N) :
  (c < 127)%N -> Forall (fun x => printable x = true) (escape_char c).
Proof.
  intros H. unfold escape_char.
  repeat match goal with
         | |- context [N.eqb c ?k] =>
             destruct (N.eqb_spec c k); [repeat constructor|]
         end.
  destruct (N.ltb_spec c 32) as [Lt|Ge].
  - repeat constructor; apply hex_digit_printable.
    + apply N.Div0.div_lt_upper_bound. lia.
    + apply N.mod_lt. discriminate.
  - constructor; [|constructor]. unfold printable, in_range.
    apply andb_true_iff. split; apply N.leb_le; lia.
Qed.

Lemma escape_char_ascii_printable (c : N) :
  code_point c = true ->
  Forall (fun x => printable x = true) (escape_char_ascii c).
Proof.
  unfold code_point. intros V. apply N.ltb_lt in V. unfold escape_char_ascii.
  destruct (N.ltb_spec c 127) as [Lt|G1]; [apply escape_char_printable; exact Lt|].
  destruct (N.ltb_spec c 65536) as [L2|G2].
  - apply Forall_app. split; [repeat constructor | apply hex4_printable; exact L2].
  - cbv zeta. destruct (surrogate_pair c (conj G2 V)) as (B1 & B2 & _).
    cbv zeta in B1, B2.
    repeat (apply Forall_app; split);
      try (repeat constructor; fail); apply hex4_printable; assumption.
Qed.

Lemma encode_basestring_ascii_printable (s : str) :
  Forall (fun c => code_point c = true) s ->
  Forall (fun x => printable x = true) (encode_basestring_ascii s).
Proof.
  intros F. unfold encode_basestring_ascii.
  apply Forall_app. split; [repeat constructor|].
  apply Forall_app. split; [|repeat constructor].
  induction F as [|c s Hc _ IH]; [constructor|]. cbn [flat_map].
  apply Forall_app. split; [apply escape_char_ascii_printable; exact Hc | exact IH].
Qed.

Lemma int_repr_printable (z : Z) :
  Forall (fun x => printable x = true) (int_repr z).
Proof.
  assert (D : forall u, Forall (fun x => printable x = true) (uint_digits u)).
  { intros u. pose proof (uint_digits_are_digits u) as A.
    revert A. apply Forall_impl. intros c Hc.
    unfold is_digit, printable, in_range in *.
    apply andb_true_iff in Hc. destruct Hc as [H1 H2].
    apply N.leb_le in H1, H2. apply andb_true_iff. split; apply N.leb_le; lia. }
  unfold int_repr. destruct (Z.to_int z); [apply D|].
  constructor; [reflexivity | apply D].
Qed.

Lemma join_Forall (P : N -> Prop) (sep : str) (parts : list str) :
  Forall P sep -> Forall (Forall P) parts -> Forall P (join sep parts).
Proof.
  intros S F. induction F as [|p ps Hp F IH]; [constructor|].
  destruct ps as [|q ps]; [exact Hp|]. rewrite join_cons2.
  apply Forall_app. split; [exact Hp|]. apply Forall_app. split; [exact S | exact IH].
Qed.

Section Printable.
Context {L : PyLib}.

Lemma dumps_default_printable (v : pyval) :
  texts code_point v -> Forall float_printable (floats_of v) ->
  Forall (fun x => printable x = true) (dumps_default v).
Proof.
  induction v as [|b|z|f|s|l IH|d IH] using pyval_ind; intros T F.
  - repeat constructor.
  - destruct b; repeat constructor.
  - apply int_repr_printable.
  - inversion F; subst. assumption.
  - apply encode_basestring_ascii_printable. exact T.
  - rewrite dumps_default_list. constructor; [reflexivity|].
    apply Forall_app. split; [|repeat constructor].
    apply join_Forall; [repeat constructor|].
    apply texts_list in T. cbn [floats_of] in F.
    apply Forall_map. rewrite Forall_forall in IH, T |- *. intros x Hx.
    apply (IH x Hx (T x Hx)).
    rewrite Forall_forall in F |- *. intros g Hg. apply F.
    apply in_flat_map. exists x. auto.
  - rewrite dumps_default_dict. constructor; [reflexivity|].
    apply Forall_app. split; [|repeat constructor].
    apply join_Forall; [repeat constructor|].
    apply texts_dict in T. cbn [floats_of] in F.
    apply Forall_map. rewrite Forall_forall in IH, T |- *. intros [k x] Hx.
    destruct (T _ Hx) as [Tk Tx]. cbn [fst snd] in Tk, Tx.
    cbn [member_text_default].
    apply Forall_app. split; [apply encode_basestring_ascii_printable; exact Tk|].
    apply Forall_app. split; [repeat constructor|].
    apply (IH _ Hx Tx).
    rewrite Forall_forall in F |- *. intros g Hg. apply F.
    apply in_flat_map. exists (k, x). auto.
Qed.

End Printable.

(** ** [isoformat] writes digits and separators *)

Lemma digit_at_digit (unit n : Z) : is_digit (digit_at unit n) = true.
Proof.
  unfold digit_at, is_digit, in_range.
  assert (H : (0 <= (n / unit) mod 10 < 10)%Z) by (apply Z.mod_pos_bound; lia).
  apply andb_true_iff. split; apply N.leb_le; lia.
Qed.

Lemma isoformat_ascii (t : datetime) :
  Forall (fun c => (c < 127)%N /\ code_point c = true /\ scalar_value c = true)
    (isoformat t).
Proof.
  assert (D : forall unit n,
             (digit_at unit n < 127)%N /\ code_point (digit_at unit n) = true
             /\ scalar_value (digit_at unit n) = true).
  { intros unit n. pose proof (digit_at_digit unit n) as H.
    unfold is_digit, in_range in H. apply andb_true_iff in H.
    destruct H as [H1 H2]. apply N.leb_le in H1, H2.
    unfold code_point, scalar_value, in_range. repeat split; [lia| |].
    - apply N.ltb_lt. lia.
    - apply andb_true_iff. split; [apply N.ltb_lt; lia|].
      apply negb_true_iff, andb_false_iff. left. apply N.leb_gt. lia. }
  unfold isoformat, isoformat_date, four_digits, two_digits, six_digits.
  repeat (apply Forall_app; split);
    try (destruct (Z.eqb _ 0); [constructor|]);
    repeat (apply Forall_app; split);
    repeat (constructor; [first [apply D | repeat split; reflexivity]|]);
    constructor.
Qed.

(** ** Files *)

Lemma file_content_append_same (path text : str) (fs : list (str * str)) :
  file_content path (file_append path text fs)
  = Some (match file_content path fs with Some old => old | None => [] end
          ++ text).
Proof.
  induction fs as [|[p content] fs IH]; cbn [file_append file_content].
  - rewrite str_eqb_refl. reflexivity.
  - destruct (str_eqb path p) eqn:E; cbn [file_content]; rewrite E;
      [reflexivity | exact IH].
Qed.

Lemma file_content_append_other (path other text : str) (fs : list (str * str)) :
  other <> path ->
  file_content other (file_append path text fs) = file_content other fs.
Proof.
  intros NE. induction fs as [|[p content] fs IH]; cbn [file_append file_content].
  - apply str_eqb_neq in NE. rewrite NE. reflexivity.
  - destruct (str_eqb path p) eqn:E; cbn [file_content].
    + apply str_eqb_eq in E. subst p. apply str_eqb_neq in NE. rewrite NE.
      reflexivity.
    + rewrite IH. reflexivity.
Qed.

Section MemoryFacts.
Context {L : PyLib}.

Lemma get_or_na_keeps (P : pyval -> Prop) (final_state : list (str * pyval)) (key : str) :
  P (PStr (lit "N/A")) ->
  Forall (fun kv => P (snd kv)) final_state ->
  P (get_or_na final_state key).
Proof.
  intros HP F. unfold get_or_na.
  destruct (dict_get key final_state) as [v|] eqn:G; [|exact HP].
  induction F as [|[k x] d Hx _ IH]; [discriminate|]. cbn [dict_get] in G.
  destruct (str_eqb key k); [inversion G; subst; exact Hx | auto].
Qed.

Lemma get_or_na_floats (P : float -> Prop) (final_state : list (str * pyval)) (key : str) :
  Forall P (floats_of (PDict final_state)) ->
  Forall P (floats_of (get_or_na final_state key)).
Proof.
  intros F. unfold get_or_na.
  destruct (dict_get key final_state) as [v|] eqn:G; [|constructor].
  cbn [floats_of] in F.
  induction final_state as [|[k x] d IH]; [discriminate|]. cbn [dict_get] in G.
  cbn [flat_map] in F. apply Forall_app in F. destruct F as [F1 F2].
  destruct (str_eqb key k); [inversion G; subst; exact F1 | auto].
Qed.

Lemma log_state_files (now : datetime) (user_request : str)
    (final_state : list (str * pyval)) (logfile : str) (w : world) :
  open_error w logfile = None ->
  files (log_state now user_request final_state logfile w)
  = file_append logfile
      (dumps_default (log_entry now user_request final_state) ++ nl) (files w).
Proof.
  intros O. unfold log_state. cbn [print open_error]. rewrite O. reflexivity.
Qed.

Lemma log_entry_texts (P : N -> bool) (now : datetime) (user_request : str)
    (final_state : list (str * pyval)) :
  (forall c, (c < 127)%N -> code_point c = true -> scalar_value c = true ->
             P c = true) ->
  Forall (fun c => P c = true) user_request ->
  texts P (PDict final_state) ->
  texts P (log_entry now user_request final_state).
Proof.
  intros HP U T.
  assert (Lit : forall s : str,
             Forall (fun c => (c < 127)%N /\ code_point c = true
                              /\ scalar_value c = true) s ->
             Forall (fun c => P c = true) s).
  { intros s. apply Forall_impl. intros c (H1 & H2 & H3). apply HP; assumption. }
  assert (Vs : Forall (fun kv => texts P (snd kv)) final_state).
  { apply texts_dict in T. revert T. apply Forall_impl. intros kv [_ H]. exact H. }
  assert (Na : texts P (PStr (lit "N/A")))
    by (apply Lit; repeat constructor).
  unfold log_entry. apply texts_dict.
  repeat (apply Forall_cons; [split; [apply Lit; repeat constructor|]|]);
    cbn [snd]; [| | | |constructor].
  - apply Lit. apply isoformat_ascii.
  - exact U.
  - apply get_or_na_keeps; assumption.
  - apply get_or_na_keeps; assumption.
Qed.

Lemma log_entry_unique_keys (now : datetime) (user_request : str)
    (final_state : list (str * pyval)) :
  unique_keys (PDict final_state) ->
  unique_keys (log_entry now user_request final_state).
Proof.
  intros U. apply unique_keys_dict in U. destruct U as [_ U].
  unfold log_entry. apply unique_keys_dict. split.
  - cbn [List.map fst]. repeat constructor; cbn; intuition discriminate.
  - repeat constructor; cbn [snd]; try exact I;
      apply get_or_na_keeps; try exact I; exact U.
Qed.

Lemma log_entry_floats (P : float -> Prop) (now : datetime) (user_request : str)
    (final_state : list (str * pyval)) :
  Forall P (floats_of (PDict final_state)) ->
  Forall P (floats_of (log_entry now user_request final_state)).
Proof.
  intros F. unfold log_entry. cbn [floats_of flat_map app].
  apply Forall_app. split; [apply get_or_na_floats; exact F|].
  rewrite app_nil_r. apply get_or_na_floats. exact F.
Qed.

(** X19. When the log file can be opened, [log_state] appends to it one
    line, made of printable ASCII characters and ended by a newline, after
    what the file held (the file is created when it does not exist), and no
    other file changes. *)
Theorem log_state_appends_one_line (now : datetime) (user_request : str)
    (final_state : list (str * pyval)) (logfile : str) (w : world) :
  open_error w logfile = None ->
  Forall (fun c => code_point c = true) user_request ->
  texts code_point (PDict final_state) ->
  Forall float_printable (floats_of (PDict final_state)) ->
  let w' := log_state now user_request final_state logfile w in
  exists line,
    file_content logfile (files w')
    = Some (match file_content logfile (files w) with
            | Some old => old
            | None => []
            end ++ line ++ nl)
    /\ Forall (fun c => printable c = true) line
    /\ ~ In 10%N line
    /\ forall other, other <> logfile ->
         file_content other (files w') = file_content other (files w).
Proof.
  intros O U T F w'. unfold w'.
  exists (dumps_default (log_entry now user_request final_state)).
  rewrite (log_state_files _ _ _ _ _ O).
  assert (P : Forall (fun c => printable c = true)
                (dumps_default (log_entry now user_request final_state))).
  { apply dumps_default_printable.
    - apply log_entry_texts; [intros; assumption | exact U | exact T].
    - apply log_entry_floats. exact F. }
  split; [apply file_content_append_same|]. split; [exact P|]. split.
  - intros H. rewrite Forall_forall in P. specialize (P _ H). discriminate P.
  - intros other NE. apply file_content_append_other. exact NE.
Qed.

(** X20. The line that [log_state] appends is read back by the JSON
    decoder, in full, as the logged entry: the timestamp, the request, and
    the final summary and the plan of the state, each "N/A" when the state
    does not have it; this for a request and a state that are well-formed
    Unicode texts (no surrogate code points). *)
Theorem log_state_line_reads_back (now : datetime) (user_request : str)
    (final_state : list (str * pyval)) (logfile : str) (w : world) :
  open_error w logfile = None ->
  Forall (fun c => scalar_value c = true) user_request ->
  texts scalar_value (PDict final_state) ->
  unique_keys (PDict final_state) ->
  Forall float_rereads (floats_of (PDict final_state)) ->
  let w' := log_state now user_request final_state logfile w in
  exists line,
    file_content logfile (files w')
    = Some (match file_content logfile (files w) with
            | Some old => old
            | None => []
            end ++ line ++ nl)
    /\ raw_decode line
       = Ok (PDict [ (lit "timestamp", PStr (isoformat now));
                     (lit "user_request", PStr user_request);
                     (lit "final_summary",
                       match dict_get (lit "final_summary") final_state with
                       | Some v => v
                       | None => PStr (lit "N/A")
                       end);
                     (lit "plan_generated",
                       match dict_get (lit "plan_json") final_state with
                       | Some v => v
                       | None => PStr (lit "N/A")
                       end) ], []).
Proof.
  intros O U T K F w'. unfold w'.
  exists (dumps_default (log_entry now user_request final_state)).
  rewrite (log_state_files _ _ _ _ _ O).
  split; [apply file_content_append_same|].
  apply raw_decode_dumps_default.
  - apply log_entry_unique_keys. exact K.
  - apply log_entry_texts; [intros; assumption | exact U | exact T].
  - apply log_entry_floats. exact F.
Qed.

Lemma code_point_of_scalar (c : N) : scalar_value c = true -> code_point c = true.
Proof. unfold scalar_value, code_point. intros H. apply andb_true_iff in H. apply H. Qed.

Lemma texts_weaken (P Q : N -> bool) (v : pyval) :
  (forall c, P c = true -> Q c = true) -> texts P v -> texts Q v.
Proof.
  intros PQ. induction v as [| | | | |l IH|d IH] using pyval_ind; intros T;
    try exact I.
  - revert T. apply Forall_impl. exact PQ.
  - apply texts_list in T. apply texts_list.
    rewrite Forall_forall in *. auto.
  - apply texts_dict in T. apply texts_dict.
    rewrite Forall_forall in *. intros kv H. destruct (T kv H) as [T1 T2].
    split; [revert T1; apply Forall_impl; exact PQ | auto].
Qed.

(** X23. [log_state] keeps the log a JSON Lines file: when what the file
    holds is a sequence of lines that are each a JSON text (or the file
    does not exist), so is what it holds afterwards. *)
Theorem log_state_keeps_json_lines (now : datetime) (user_request : str)
    (final_state : list (str * pyval)) (logfile : str) (w : world) :
  open_error w logfile = None ->
  Forall (fun c => scalar_value c = true) user_request ->
  texts scalar_value (PDict final_state) ->
  unique_keys (PDict final_state) ->
  Forall float_rereads (floats_of (PDict final_state)) ->
  Forall float_printable (floats_of (PDict final_state)) ->
  match file_content logfile (files w) with
  | Some old => json_lines old
  | None => True
  end ->
  exists new,
    file_content logfile
      (files (log_state now user_request final_state logfile w)) = Some new
    /\ json_lines new.
Proof.
  intros O U T K F P J.
  rewrite (log_state_files _ _ _ _ _ O), file_content_append_same.
  eexists. split; [reflexivity|].
  set (entry := log_entry now user_request final_state).
  assert (Line : ~ In 10%N (dumps_default entry)
                 /\ exists v, raw_decode (dumps_default entry) = Ok (v, [])).
  { split.
    - assert (Pr : Forall (fun c => printable c = true) (dumps_default entry)).
      { apply dumps_default_printable.
        - apply log_entry_texts; [intros; assumption| |].
          + revert U. apply Forall_impl. exact code_point_of_scalar.
          + revert T. apply texts_weaken. exact code_point_of_scalar.
        - apply log_entry_floats. exact P. }
      intros H. rewrite Forall_forall in Pr. specialize (Pr _ H). discriminate Pr.
    - exists entry. apply raw_decode_dumps_default.
      + apply log_entry_unique_keys. exact K.
      + apply log_entry_texts; [intros; assumption | exact U | exact T].
      + apply log_entry_floats. exact F. }
  assert (Old : json_lines (match file_content logfile (files w) with
                            | Some old => old
                            | None => []
                            end)).
  { destruct (file_content logfile (files w)); [exact J|].
    exists []. split; [reflexivity | constructor]. }
  destruct Old as (lines & -> & Fl).
  exists (lines ++ [dumps_default entry]). split.
  - rewrite flat_map_app. cbn [flat_map]. rewrite app_nil_r. reflexivity.
  - apply Forall_app. split; [exact Fl|]. constructor; [exact Line | constructor].
Qed.

End MemoryFacts.

(* ------------------------------------------------------------------ *)
(** * Compaction does not lengthen *)
(* ------------------------------------------------------------------ *)

Lemma escape_char_length (c : N) :
  1 <= length (escape_char c) <= 6
  /\ ((32 <= c)%N -> c <> 34%N -> c <> 92%N -> length (escape_char c) = 1).
Proof.
  unfold escape_char.
  destruct (N.eqb_spec c 92); [cbn; split; [lia | intros; congruence]|].
  destruct (N.eqb_spec c 34); [cbn; split; [lia | intros; congruence]|].
  destruct (N.eqb_spec c 8); [cbn; split; [lia | intros; lia]|].
  destruct (N.eqb_spec c 12); [cbn; split; [lia | intros; lia]|].
  destruct (N.eqb_spec c 10); [cbn; split; [lia | intros; lia]|].
  destruct (N.eqb_spec c 13); [cbn; split; [lia | intros; lia]|].
  destruct (N.eqb_spec c 9); [cbn; split; [lia | intros; lia]|].
  destruct (N.ltb_spec c 32); cbn; split; lia.
Qed.

Lemma backslash_length (e ch : N) :
  backslash e = Some ch -> length (escape_char ch) <= 2.
Proof.
  unfold backslash.
  repeat match goal with
         | |- context [N.eqb e ?k] =>
             destruct (N.eqb e k);
             [intros H; inversion H; subst; cbn; lia|]
         end.
  discriminate.
Qed.

(** What [scanstring] consumes is at least as long as the escaped text of
    what it returns, closing quote included. *)
Lemma scanstring_size (s acc x r : str) :
  scanstring s acc = Ok (x, r) ->
  exists y,
    x = rev acc ++ y
    /\ length (flat_map escape_char y) + 1 + length r <= length s.
Proof.
  remember (length s) as n eqn:En. revert s acc En.
  induction n as [n IH] using lt_wf_ind. intros s acc -> H.
  assert (Rec : forall s' c acc' k,
             length s' + k <= length s -> length (escape_char c) <= k ->
             scanstring s' (c :: acc') = Ok (x, r) ->
             acc' = acc ->
             exists y, x = rev acc ++ y
               /\ length (flat_map escape_char y) + 1 + length r <= length s).
  { intros s' c acc' k Hl Hc Hs ->.
    assert (Hl' : length s' < length s).
    { destruct (escape_char_length c) as [[? _] _]. lia. }
    destruct (IH _ Hl' s' (c :: acc) eq_refl Hs) as (y & Ey & Ly).
    exists (c :: y). cbn [rev] in Ey. rewrite <- app_assoc in Ey.
    split; [exact Ey|]. cbn [flat_map]. rewrite length_app. lia. }
  clear IH.
  destruct s as [|c s1]; cbn [scanstring] in H; [discriminate|].
  destruct (N.eqb_spec c 34) as [->|N34].
  { inversion H; subst. exists []. rewrite app_nil_r. split; [reflexivity|].
    cbn. lia. }
  destruct (N.eqb_spec c 92) as [->|N92].
  2:{ destruct (N.ltb_spec c 32); [discriminate|].
      apply (Rec s1 c acc 1); [cbn [length]; lia| |exact H|reflexivity].
      destruct (escape_char_length c) as [_ E]. rewrite E; auto. }
  destruct s1 as [|e s2]; [discriminate|].
  destruct (N.eqb e 117).
  2:{ destruct (backslash e) as [ch|] eqn:B; [|discriminate].
      apply (Rec s2 ch acc 2); [cbn [length]; lia| |exact H|reflexivity].
      eapply backslash_length. exact B. }
  destruct s2 as [|h1 [|h2 [|h3 [|h4 s3]]]]; try discriminate.
  destruct (decode_uXXXX h1 h2 h3 h4) as [uni|]; [|discriminate].
  assert (R3 : scanstring s3 (uni :: acc) = Ok (x, r) ->
               exists y, x = rev acc ++ y
                 /\ length (flat_map escape_char y) + 1 + length r
                    <= length (92%N :: e :: h1 :: h2 :: h3 :: h4 :: s3)).
  { intros Hs. apply (Rec s3 uni acc 6); [cbn [length]; lia| |exact Hs|reflexivity].
    apply escape_char_length. }
  destruct (is_high_surrogate uni); [|apply R3; exact H].
  destruct s3 as [|b1 [|u1 [|k1 [|k2 [|k3 [|k4 s4]]]]]]; try (apply R3; exact H).
  destruct (N.eqb b1 92 && N.eqb u1 117); [|apply R3; exact H].
  destruct (decode_uXXXX k1 k2 k3 k4) as [uni2|]; [|discriminate].
  destruct (is_low_surrogate uni2); [|apply R3; exact H].
  apply (Rec s4 (join_surrogates uni uni2) acc 12);
    [cbn [length]; lia| |exact H|reflexivity].
  destruct (escape_char_length (join_surrogates uni uni2)) as [[_ ?] _]. lia.
Qed.

Lemma uint_digits_length (u : Decimal.uint) :
  length (uint_digits u) = Decimal.nb_digits u.
Proof. induction u; cbn [uint_digits Decimal.nb_digits length]; congruence. Qed.

Lemma uint_of_digits_length (ds : str) :
  Decimal.nb_digits (uint_of_digits ds) = length ds.
Proof.
  induction ds as [|c ds IH]; [reflexivity|].
  cbn [uint_of_digits fold_right length]. fold (uint_of_digits ds).
  unfold digit_of_char.
  repeat match goal with
         | |- context [match ?x with _ => _ end] => destruct x
         end; cbn [Decimal.nb_digits]; congruence.
Qed.

(** The canonical digits of an integer are no more than the digits it was
    read from. *)
Lemma int_repr_of_literal_length (i : str) :
  i <> [] -> length (int_repr (int_of_literal i)) <= length i.
Proof.
  destruct i as [|c ds]; [congruence|]. intros _.
  unfold int_of_literal, int_repr. destruct (N.eqb c 45).
  - rewrite DecimalZ.to_of. cbn [Decimal.norm].
    pose proof (DecimalFacts.nb_digits_nzhead (uint_of_digits ds)) as H.
    rewrite uint_of_digits_length in H.
    destruct (Decimal.nzhead (uint_of_digits ds)) eqn:E;
      cbn [length uint_digits]; try lia;
      rewrite uint_digits_length; cbn [Decimal.nb_digits] in H; lia.
  - rewrite DecimalZ.to_of. cbn [Decimal.norm].
    pose proof (DecimalFacts.nb_digits_unorm (uint_of_digits (c :: ds))) as H.
    rewrite uint_of_digits_length in H. rewrite uint_digits_length.
    apply H. intros E. apply (f_equal Decimal.nb_digits) in E.
    rewrite uint_of_digits_length in E. discriminate E.
Qed.

Lemma match_integer_after_split (sign s i r : str) :
  match_integer_after sign s = Some (i, r) ->
  sign ++ s = i ++ r /\ i <> [].
Proof.
  destruct s as [|c s1]; cbn [match_integer_after]; [discriminate|].
  destruct (N.eqb c 48).
  - intros H. inversion H; subst. rewrite <- app_assoc. split; [reflexivity|].
    destruct sign; discriminate.
  - destruct (in_range 49 57 c); [|discriminate].
    destruct (span_digits s1) as [ds r'] eqn:E. intros H. inversion H; subst.
    apply span_digits_split in E. destruct E as [-> _].
    rewrite <- app_assoc. split; [reflexivity|]. destruct sign; discriminate.
Qed.

Lemma match_integer_split (s i r : str) :
  match_integer s = Some (i, r) -> s = i ++ r /\ i <> [].
Proof.
  destruct s as [|c s1]; cbn [match_integer]; [discriminate|].
  destruct (N.eqb_spec c 45) as [->|_]; intros H;
    apply match_integer_after_split in H; exact H.
Qed.

Section Compact.
Context {L : PyLib}.

Lemma scan_literal_size (s : str) (v : pyval) (r : str) :
  scan_literal s = Ok (v, r) -> compact_size v + length r <= length s.
Proof.
  unfold scan_literal.
  assert (K : forall p n x, startswith p s = true -> length p = n ->
                Ok (x, skipn n s) = Ok (v, r) ->
                compact_size x <= n ->
                compact_size v + length r <= length s).
  { intros p n x H <- E Hx. apply startswith_length in H.
    assert (Er : r = skipn (length p) s) by congruence.
    assert (Ev : v = x) by congruence. subst r v.
    rewrite length_skipn. lia. }
  destruct (startswith (lit "null") s) eqn:E1;
    [intros H; apply (K _ 4 _ E1 eq_refl H); cbn; lia|].
  destruct (startswith (lit "true") s) eqn:E2;
    [intros H; apply (K _ 4 _ E2 eq_refl H); cbn; lia|].
  destruct (startswith (lit "false") s) eqn:E3;
    [intros H; apply (K _ 5 _ E3 eq_refl H); cbn; lia|].
  destruct (match_number s) as [[[[i f] e] r']|] eqn:M.
  - pose proof (match_number_length _ _ _ _ _ M) as Len. clear K.
    destruct f as [|f0 f].
    + destruct e as [|e0 e].
      * intros H. inversion H; subst. cbn [compact_size].
        unfold match_number in M.
        destruct (match_integer s) as [[i' s1]|] eqn:Ei; [|discriminate].
        destruct (match_frac s1) as [f' s2] eqn:Ef.
        destruct (match_exp s2) as [e' s3] eqn:Ee.
        inversion M; subst.
        apply match_integer_split in Ei. destruct Ei as [-> NE].
        apply match_frac_stable in Ef. destruct Ef as [Ef _].
        apply match_exp_stable in Ee. destruct Ee as [Ee _].
        cbn [app] in Ef, Ee. subst.
        pose proof (int_repr_of_literal_length i NE) as Hi. rewrite length_app.
        apply Nat.add_le_mono_r. exact Hi.
      * intros H. inversion H; subst. cbn [compact_size]. clear - Len. lia.
    + intros H. inversion H; subst. cbn [compact_size]. clear - Len. lia.
  - destruct (startswith (lit "NaN") s) eqn:E4;
      [intros H; apply (K _ 3 _ E4 eq_refl H); cbn; lia|].
    destruct (startswith (lit "Infinity") s) eqn:E5;
      [intros H; apply (K _ 8 _ E5 eq_refl H); cbn; lia|].
    destruct (startswith (lit "-Infinity") s) eqn:E6;
      [intros H; apply (K _ 9 _ E6 eq_refl H); cbn; lia|].
    discriminate.
Qed.

End Compact.

Section CompactValues.
Context {L : PyLib}.

Lemma expecting_value_ok {A} (x : result A) (a : A) :
  expecting_value x = Ok a -> x = Ok a.
Proof. destruct x as [a'|e]; [auto | destruct e; discriminate]. Qed.

Lemma array_items_size scan (fuel : nat) (values : list pyval) (s : str)
    (v : pyval) (r : str) :
  thrifty scan ->
  array_items scan fuel values s = Ok (v, r) ->
  exists added,
    v = PList (values ++ added) /\ added <> []
    /\ items_size added + length r <= length s.
Proof.
  intros T. revert values s. induction fuel as [|fuel IH]; intros values s;
    cbn [array_items]; [discriminate|].
  destruct (expecting_value (scan s)) as [[value s1]|e] eqn:E; cbn [bind];
    [|discriminate].
  apply expecting_value_ok in E. apply T in E.
  pose proof (skip_ws_length s1) as W.
  destruct (skip_ws s1) as [|c s2]; [discriminate|]. cbn [length] in W.
  destruct (N.eqb c 93).
  - intros H. inversion H; subst. exists [value].
    split; [reflexivity|]. split; [discriminate|]. cbn [items_size fold_right]. lia.
  - destruct (N.eqb c 44); [|discriminate]. intros H.
    destruct (IH _ _ H) as (added & -> & _ & Len).
    pose proof (skip_ws_length s2) as W2.
    exists (value :: added). rewrite <- app_assoc. split; [reflexivity|].
    split; [discriminate|]. cbn [items_size fold_right].
    fold (items_size added). lia.
Qed.

Lemma JSONArray_size scan (s : str) (v : pyval) (r : str) :
  thrifty scan ->
  JSONArray scan s = Ok (v, r) -> compact_size v + length r <= 1 + length s.
Proof.
  intros T. unfold JSONArray. pose proof (skip_ws_length s) as W.
  assert (A : array_items scan (S (length s)) [] (skip_ws s) = Ok (v, r) ->
              compact_size v + length r <= 1 + length s).
  { intros H. destruct (array_items_size _ _ _ _ _ _ T H) as (added & -> & NE & Len).
    cbn [app]. destruct added as [|x added]; [congruence|].
    cbn [compact_size]. fold (items_size (x :: added)). lia. }
  destruct (skip_ws s) as [|c s1]; [exact A|]. cbn [length] in W.
  destruct (N.eqb c 93); [|exact A].
  intros H. inversion H; subst. cbn [compact_size]. lia.
Qed.

Lemma members_size_set (k : str) (v : pyval) (d : list (str * pyval)) :
  members_size (dict_set k v d)
  <= members_size d + (length (encode_basestring k) + 1 + compact_size v + 1).
Proof.
  induction d as [|[k' v'] d IH]; cbn [dict_set members_size fold_right].
  - lia.
  - destruct (str_eqb k k') eqn:E; cbn [members_size fold_right];
      fold (members_size d); fold (members_size (dict_set k v d)).
    + apply str_eqb_eq in E. subst k'. lia.
    + lia.
Qed.

Lemma members_size_of_pairs (pairs : list (str * pyval)) :
  members_size (dict_of_pairs pairs) <= members_size pairs.
Proof.
  unfold dict_of_pairs.
  assert (G : forall acc,
             members_size
               (fold_left (fun d0 (kv : str * pyval) =>
                             dict_set (fst kv) (snd kv) d0) pairs acc)
             <= members_size acc + members_size pairs).
  { induction pairs as [|[k v] pairs IH]; intros acc; cbn [fold_left fst snd].
    - cbn. lia.
    - specialize (IH (dict_set k v acc)).
      pose proof (members_size_set k v acc).
      cbn [members_size fold_right]. fold (members_size pairs). lia. }
  apply (G []).
Qed.

Lemma object_members_size scan (fuel : nat) (pairs : list (str * pyval))
    (s : str) (v : pyval) (r : str) :
  thrifty scan ->
  object_members scan fuel pairs s = Ok (v, r) ->
  exists added,
    v = PDict (dict_of_pairs (pairs ++ added)) /\ added <> []
    /\ members_size added + length r <= length s + 1.
Proof.
  intros T. revert pairs s. induction fuel as [|fuel IH]; intros pairs s;
    cbn [object_members]; [discriminate|].
  destruct (scanstring s []) as [[key s1]|e] eqn:K; cbn [bind]; [|discriminate].
  apply scanstring_size in K. destruct K as (y & Ey & Ly). cbn [rev app] in Ey.
  subst y.
  pose proof (skip_ws_length s1) as W1.
  destruct (skip_ws s1) as [|c s2]; [discriminate|]. cbn [length] in W1.
  destruct (N.eqb c 58); [|discriminate].
  pose proof (skip_ws_length s2) as W2.
  destruct (expecting_value (scan (skip_ws s2))) as [[value s3]|e] eqn:E;
    cbn [bind]; [|discriminate].
  apply expecting_value_ok in E. apply T in E.
  pose proof (skip_ws_length s3) as W3.
  destruct (skip_ws s3) as [|c' s4]; [discriminate|]. cbn [length] in W3.
  assert (Enc : length (encode_basestring key)
                = 2 + length (flat_map escape_char key)).
  { unfold encode_basestring. rewrite !length_app. cbn [length]. lia. }
  destruct (N.eqb c' 125).
  - intros H. inversion H; subst. exists [(key, value)].
    split; [reflexivity|]. split; [discriminate|].
    cbn [members_size fold_right]. lia.
  - destruct (N.eqb c' 44); [|discriminate].
    pose proof (skip_ws_length s4) as W4.
    destruct (skip_ws s4) as [|q s5]; [discriminate|]. cbn [length] in W4.
    destruct (N.eqb q 34); [|discriminate]. intros H.
    destruct (IH _ _ H) as (added & -> & _ & Len).
    exists ((key, value) :: added). rewrite <- app_assoc. split; [reflexivity|].
    split; [discriminate|]. cbn [members_size fold_right].
    fold (members_size added). lia.
Qed.

Lemma JSONObject_size scan (s : str) (v : pyval) (r : str) :
  thrifty scan ->
  JSONObject scan s = Ok (v, r) -> compact_size v + length r <= 1 + length s.
Proof.
  intros T. unfold JSONObject. pose proof (skip_ws_length s) as W.
  destruct (skip_ws s) as [|c s1]; [discriminate|]. cbn [length] in W.
  destruct (N.eqb c 125).
  { intros H. inversion H; subst. cbn [compact_size]. lia. }
  destruct (N.eqb c 34); [|discriminate]. intros H.
  destruct (object_members_size _ _ _ _ _ _ T H) as (added & -> & NE & Len).
  cbn [app]. pose proof (members_size_of_pairs added) as D.
  assert (P : 4 <= members_size added).
  { destruct added as [|[k x] added]; [congruence|].
    cbn [members_size fold_right]. unfold encode_basestring.
    rewrite !length_app. cbn [length]. lia. }
  cbn [compact_size]. destruct (dict_of_pairs added) as [|kv d] eqn:Ed; [lia|].
  fold (members_size (kv :: d)). lia.
Qed.

(** What [scan_once] consumes is at least the compact size of what it
    returns. *)
Lemma scan_once_size (depth : nat) : thrifty (scan_once depth).
Proof.
  induction depth as [|depth IH]; intros s v r; [discriminate|].
  destruct s as [|c t]; [discriminate|]. rewrite scan_once_cases.
  destruct (N.eqb c 34).
  { destruct (scanstring t []) as [[x r']|e] eqn:K; cbn [bind]; [|discriminate].
    intros H. inversion H; subst.
    apply scanstring_size in K. destruct K as (y & Ey & Ly). cbn [rev app] in Ey.
    subst y. cbn [compact_size length]. unfold encode_basestring.
    rewrite !length_app. cbn [length]. lia. }
  destruct (N.eqb c 123).
  { intros H. apply (JSONObject_size _ _ _ _ IH) in H. cbn [length]. lia. }
  destruct (N.eqb c 91).
  { intros H. apply (JSONArray_size _ _ _ _ IH) in H. cbn [length]. lia. }
  apply scan_literal_size.
Qed.

Lemma join_length_exact (sep : str) (parts : list str) :
  parts <> [] ->
  length (join sep parts) + length sep
  = fold_right (fun p acc => length p + length sep + acc) 0 parts.
Proof.
  induction parts as [|p ps IH]; [congruence|]. intros _.
  destruct ps as [|q ps].
  - cbn. lia.
  - rewrite join_cons2, !length_app.
    specialize (IH ltac:(discriminate)). cbn [fold_right] in *. lia.
Qed.

Lemma flat_map_nil {A B} (f : A -> list B) (l : list A) :
  flat_map f l = [] -> Forall (fun x => f x = []) l.
Proof.
  induction l as [|x l IH]; [constructor|]. cbn [flat_map]. intros H.
  apply app_eq_nil in H. destruct H. constructor; auto.
Qed.

(** Without floats, the compact size is the length of the compact text. *)
Lemma compact_size_dumps (v : pyval) :
  floats_of v = [] -> compact_size v = length (dumps v).
Proof.
  induction v as [|b|z|f|s|l IH|d IH] using pyval_ind; intros F;
    try reflexivity.
  - destruct b; reflexivity.
  - discriminate.
  - cbn [floats_of] in F. apply flat_map_nil in F.
    rewrite dumps_list. cbn [length]. rewrite length_app. cbn [length].
    destruct l as [|x l]; [reflexivity|].
    pose proof (join_length_exact [44%N] (List.map dumps (x :: l))
                  ltac:(discriminate)) as J.
    cbn [length] in J.
    assert (S : fold_right (fun p acc => length p + 1 + acc) 0
                  (List.map dumps (x :: l))
                = items_size (x :: l)).
    { clear J. induction (x :: l) as [|y l' IHl]; [reflexivity|].
      inversion IH; subst. inversion F; subst.
      cbn [List.map fold_right items_size]. fold (items_size l').
      rewrite IHl by assumption. rewrite H1 by assumption. reflexivity. }
    cbn [compact_size]. fold (items_size (x :: l)). lia.
  - cbn [floats_of] in F. apply flat_map_nil in F.
    rewrite dumps_dict. cbn [length]. rewrite length_app. cbn [length].
    destruct d as [|kv d]; [reflexivity|].
    pose proof (join_length_exact [44%N] (List.map member_text (kv :: d))
                  ltac:(discriminate)) as J.
    cbn [length] in J.
    assert (S : fold_right (fun p acc => length p + 1 + acc) 0
                  (List.map member_text (kv :: d))
                = members_size (kv :: d)).
    { clear J. induction (kv :: d) as [|[k y] l' IHl]; [reflexivity|].
      inversion IH; subst. inversion F; subst. cbn [snd] in *.
      cbn [List.map fold_right members_size member_text].
      fold (members_size l'). rewrite IHl by assumption.
      rewrite !length_app. cbn [length]. rewrite H1 by assumption. lia. }
    cbn [compact_size]. fold (members_size (kv :: d)). lia.
Qed.

End CompactValues.

Lemma lstrip_length (s : str) : length (lstrip s) <= length s.
Proof.
  destruct (lstrip_split s) as (l & E & _). rewrite E at 2.
  rewrite length_app. lia.
Qed.

Lemma rstrip_length (s : str) : length (rstrip s) <= length s.
Proof.
  destruct (rstrip_split s) as (r & E & _). rewrite E at 2.
  rewrite length_app. lia.
Qed.

Lemma replace_first_length (old new s : str) :
  length new <= length old -> length (replace_first old new s) <= length s.
Proof.
  intros H. induction s as [|c s IH]; cbn [replace_first].
  - destruct (startswith old []) eqn:E; [|cbn; lia].
    apply startswith_length in E. rewrite length_app, length_skipn. cbn in *. lia.
  - destruct (startswith old (c :: s)) eqn:E; [|cbn [length]; lia].
    apply startswith_length in E. rewrite length_app, length_skipn. lia.
Qed.

Lemma strip_fences_length (text : str) :
  length (strip_fences text) <= length text.
Proof.
  unfold strip_fences. pose proof (strip_length text) as H0.
  set (s0 := strip text) in *.
  assert (H1 : length (if startswith fence s0
                       then lstrip (slice_from 3 (replace_first json_fence fence s0))
                       else s0) <= length s0).
  { destruct (startswith fence s0); [|lia].
    pose proof (lstrip_length (slice_from 3 (replace_first json_fence fence s0))).
    unfold slice_from in *. rewrite length_skipn in *.
    pose proof (replace_first_length json_fence fence s0 ltac:(cbn; lia)). lia. }
  set (s1 := if startswith fence s0 then _ else s0) in *.
  destruct (endswith fence s1); [|lia].
  pose proof (rstrip_length (slice_drop_last 3 s1)) as H2.
  unfold slice_drop_last in *. rewrite length_firstn in H2. lia.
Qed.

(** [_normalize_url] returns a piece of the string it is given. *)
Lemma normalize_url_piece (u : str) :
  exists l r, u = l ++ normalize_url (Some u) ++ r.
Proof.
  unfold normalize_url.
  destruct (strip_trimmed u) as (l1 & r1 & E1 & _).
  destruct (strip_trailing_stripped (length (strip u)) (strip u) (le_n _))
    as (p & E2 & _).
  destruct (strip_trimmed (strip_trailing (length (strip u)) (strip u)))
    as (l2 & r2 & E3 & _).
  exists (l1 ++ l2), (r2 ++ p ++ r1).
  rewrite E1 at 1. rewrite E2 at 1. rewrite E3 at 1.
  rewrite <- !app_assoc. reflexivity.
Qed.

Lemma encode_basestring_normalize_url (u : str) :
  length (encode_basestring (normalize_url (Some u)))
  <= length (encode_basestring u).
Proof.
  destruct (normalize_url_piece u) as (l & r & E).
  unfold encode_basestring. rewrite !length_app. cbn [length].
  rewrite E at 2. rewrite !flat_map_app, !length_app. lia.
Qed.

Section NoLonger.
Context {L : PyLib}.

Lemma sanitize_links_size (v : pyval) :
  unique_keys v -> compact_size (sanitize_links v) <= compact_size v.
Proof.
  induction v as [| | | | |l IH|d IH] using pyval_ind; intros U;
    try (cbn [sanitize_links]; lia).
  - apply unique_keys_list in U. cbn [sanitize_links].
    assert (S : items_size (List.map sanitize_links l) <= items_size l).
    { induction l as [|x l IHl]; [cbn; lia|].
      inversion IH; subst. inversion U; subst.
      cbn [List.map items_size fold_right].
      fold (items_size l). fold (items_size (List.map sanitize_links l)).
      specialize (IHl ltac:(assumption) ltac:(assumption)).
      specialize (H1 ltac:(assumption)). lia. }
    destruct l as [|x l]; [cbn; lia|].
    cbn [List.map compact_size] in *.
    fold (items_size (x :: l)).
    fold (items_size (sanitize_links x :: List.map sanitize_links l)).
    cbn [List.map] in S. lia.
  - apply unique_keys_dict in U. destruct U as [ND U].
    rewrite sanitize_links_dict by exact ND.
    set (f := fun kv : str * pyval =>
                (fst kv, sanitize_entry sanitize_links (fst kv) (snd kv))).
    assert (S : members_size (List.map f d) <= members_size d).
    { clear ND. induction d as [|[k x] d IHd]; [cbn; lia|].
      inversion IH; subst. inversion U; subst. cbn [snd] in *.
      cbn [List.map members_size fold_right f fst snd].
      fold (members_size d). fold (members_size (List.map f d)).
      specialize (IHd ltac:(assumption) ltac:(assumption)).
      assert (E : compact_size (sanitize_entry sanitize_links k x)
                  <= compact_size x).
      { unfold sanitize_entry. destruct (str_eqb k url_key); [|auto].
        destruct x as [| | | |s| |]; auto.
        cbn [compact_size]. apply encode_basestring_normalize_url. }
      lia. }
    destruct d as [|kv d]; [cbn; lia|].
    cbn [List.map compact_size] in *.
    fold (members_size (kv :: d)).
    fold (members_size (f kv :: List.map f d)).
    cbn [List.map] in S. lia.
Qed.

(** X24. Sanitising does not lengthen an answer without floats: when the
    extraction succeeds and the value holds no float, the text that
    [sanitize_json_str] returns has at most as many characters as the text
    it was given. *)
Theorem sanitize_json_str_no_longer (raw obj : pyval) :
  extract_first_json_value raw = Ok obj ->
  floats_of obj = [] ->
  exists text out,
    raw = PStr text /\ sanitize_json_str raw = PStr out
    /\ length out <= length text.
Proof.
  intros E F.
  destruct (extract_cases _ _ E)
    as (text & pre & c & rest & r & -> & _ & Es & Hc & _ & _ & R).
  exists text, (dumps (sanitize_links obj)).
  split; [reflexivity|]. split; [apply sanitize_json_str_ok; exact E|].
  destruct (raw_decode_container c rest obj r Hc R) as [_ U].
  unfold raw_decode in R. apply expecting_value_ok in R.
  apply scan_once_size in R.
  assert (F' : floats_of (sanitize_links obj) = []).
  { pose proof (sanitize_links_floats (fun _ => False) obj U) as H.
    rewrite F in H. specialize (H (Forall_nil _)).
    destruct (floats_of (sanitize_links obj)); [reflexivity|].
    inversion H; contradiction. }
  rewrite <- (compact_size_dumps _ F').
  pose proof (sanitize_links_size obj U).
  pose proof (strip_fences_length text) as Hs. rewrite Es, length_app in Hs.
  lia.
Qed.

End NoLonger.

(* ------------------------------------------------------------------ *)
(** * Concrete evaluations *)
(* ------------------------------------------------------------------ *)

#[local] Existing Instance text_floats.

(** C6, witness: two nested url fields with trailing punctuation. *)
Lemma sanitize_json_str_idempotent_witness :
  sanitize_json_str (PStr fenced_links)
  = PStr (jlit "{'url':'https://example.com/page','refs':[{'url':'x'},1]}")
  /\ sanitize_json_str (sanitize_json_str (PStr fenced_links))
     = sanitize_json_str (PStr fenced_links).
Proof.
  split; [vm_compute; reflexivity|].
  apply (sanitize_json_str_idempotent_when_settled (L := text_floats)).
  intros obj E. vm_compute in E. inversion E; subst; clear E.
  split; [repeat constructor|constructor].
Defined.

(** C5, witness. *)
Lemma sanitized_url_strings_witness :
  sanitize_json_str (PStr (jlit "{'url':'https://example.com/page).'}"))
  = PStr (jlit "{'url':'https://example.com/page'}")
  /\ ~ In (last (lit "https://example.com/page") 0%N)
         [41; 93; 46; 44; 59; 34; 39]%N.
Proof.
  destruct (sanitized_url_strings (L := text_floats)
              (PStr (jlit "{'url':'https://example.com/page).'}"))
              (PDict [(lit "url", PStr (lit "https://example.com/page)."))])
              (lit "https://example.com/page")
              ltac:(vm_compute; reflexivity)
              ltac:(vm_compute; left; reflexivity))
    as (E & u0 & H0 & _ & _ & Hp).
  split; [rewrite E; vm_compute; reflexivity|].
  vm_compute in H0. destruct H0 as [<-|[]].
  destruct (Hp ltac:(vm_compute; reflexivity)) as [Hn|Hn];
    [discriminate Hn | exact Hn].
Defined.

(** C5, counterexample. After the pass the url string "a. ." has become
    "a.", which ends in a full stop, and "a{" is left as it is. *)
Lemma sanitized_url_counterexample :
  extract_first_json_value
    (PStr (jlit "{'url':'a. .','more':[{'url':'a{'}]}"))
  = Ok spaced_links
  /\ sanitize_json_str
       (PStr (jlit "{'url':'a. .','more':[{'url':'a{'}]}"))
     = PStr (jlit "{'url':'a.','more':[{'url':'a{'}]}")
  /\ url_strings (sanitize_links spaced_links) = [lit "a."; lit "a{"]
  /\ In (last (lit "a.") 0%N) listed_punctuation
  /\ In (last (lit "a{") 0%N) listed_punctuation.
Proof.
  repeat split; try (vm_compute; reflexivity).
  - vm_compute. tauto.
  - vm_compute. tauto.
Qed.

(** C6, counterexample. For the value {"url": "a. ."} one pass gives
    {"url":"a."} and a second pass {"url":"a"}. *)
Lemma sanitize_json_str_idempotence_counterexample :
  dumps spaced_url = jlit "{'url':'a. .'}"
  /\ sanitize_json_str (PStr (dumps spaced_url)) = PStr (jlit "{'url':'a.'}")
  /\ sanitize_json_str (sanitize_json_str (PStr (dumps spaced_url)))
     = PStr (jlit "{'url':'a'}")
  /\ sanitize_json_str (sanitize_json_str (PStr (dumps spaced_url)))
     <> sanitize_json_str (PStr (dumps spaced_url)).
Proof.
  repeat split; try (vm_compute; reflexivity).
  vm_compute. discriminate.
Qed.

(** C1, witness: a value that is not a string, a blank string, and a text
    without any JSON in it. *)
Lemma sanitize_json_str_never_raises_witness :
  sanitize_json_str (PInt 5) = PInt 5
  /\ sanitize_json_str (PStr (lit "   ")) = PStr (lit "   ")
  /\ sanitize_json_str (PStr (lit "not json at all"))
     = PStr (lit "not json at all").
Proof.
  split; [|split].
  - apply (sanitize_json_str_never_raises (PInt 5)). discriminate.
  - apply (sanitize_json_str_never_raises (PStr (lit "   "))) with (s := lit "   ");
      [reflexivity | repeat constructor].
  - apply (sanitize_json_str_never_raises (PStr (lit "not json at all")))
      with (e := ValueError "no JSON start found").
    reflexivity.
Defined.

(** C2, witness: commentary before the value and more text after it. *)
Lemma extract_first_json_value_first_value_witness :
  extract_first_json_value
    (PStr (jlit "Sure, here it is: {'a':[1,2]} and {'b':2} too"))
  = Ok (PDict [(lit "a", PList [PInt 1; PInt 2])]).
Proof.
  destruct (extract_first_json_value_first_value
              (jlit "Sure, here it is: {'a':[1,2]} and {'b':2} too")
              ltac:(discriminate)) as (_ & H & _).
  destruct (H (lit "Sure, here it is: ") 123%N
              (jlit "'a':[1,2]} and {'b':2} too") eq_refl
              (or_introl eq_refl)) as [E _].
  - vm_compute. intuition discriminate.
  - vm_compute. intuition discriminate.
  - rewrite E. reflexivity.
Defined.

(** C3. A bare fence around an object whose text contains the json-tagged
    marker: the marker inside the value is rewritten before decoding, so
    the value returned is not the one enclosed. The documented example,
    with the tag on the fence line, is decoded as intended. *)
Theorem fence_removal_rewrites_enclosed_value :
  extract_first_json_value
    (PStr (lit "```" ++ nl ++ jlit "{'a':'```json'}" ++ nl ++ lit "```"))
  = Ok (PDict [(lit "a", PStr (lit "```"))])
  /\ raw_decode (jlit "{'a':'```json'}")
     = Ok (PDict [(lit "a", PStr (lit "```json"))], [])
  /\ extract_first_json_value
       (PStr (lit "```json" ++ nl ++ jlit "{'a':1}" ++ nl ++ lit "```"))
     = Ok (PDict [(lit "a", PInt 1)]).
Proof. repeat split; vm_compute; reflexivity. Qed.


(** C8. One entry with an author that has no name makes the whole call
    raise AttributeError, although the other entry is fine; with the
    fine entry alone the call returns its record. *)
Theorem search_papers_func_nameless_author :
  search_papers_func (fun _ _ => Ok [entry_29_days_old; entry_nameless_author])
    today (lit "llm agents") 30 5
  = Raise (AttributeError "object has no attribute 'name'")
  /\ search_papers_func (fun _ _ => Ok [entry_29_days_old])
       today (lit "llm agents") 30 5
     = Ok (PDict [(lit "papers",
                   PList [paper entry_29_days_old 2024 [PStr (lit "Ada")]])]).
Proof. split; vm_compute; reflexivity. Qed.

(** C9, witness. *)
Lemma callbacks_touch_own_key_only_witness :
  state_get (lit "papers_result") (after_agent_sanitize_json paper_stage_context)
  = Some (PStr (jlit "{'papers':[]}"))
  /\ state_get (lit "plan_json") (after_agent_sanitize_json paper_stage_context)
     = Some (PStr (jlit "{'days_back':28}"))
  /\ state_get (lit "final_summary")
       (after_agent_trim_final_summary paper_stage_context)
     = Some (PStr (lit "# Executive Summary")).
Proof.
  destruct (callbacks_touch_own_key_only paper_stage_context)
    as ((_ & Hother & Hown & _) & (_ & _ & Htrim & _)).
  split; [|split].
  - rewrite (Hown _ (lit "papers_result")
               (lit "```json" ++ nl ++ jlit "{'papers':[]}" ++ nl ++ lit "```")
               eq_refl eq_refl ltac:(discriminate) eq_refl).
    vm_compute. reflexivity.
  - rewrite (Hother (lit "plan_json")); [reflexivity|].
    intros a E. inversion E; subst. discriminate.
  - unfold final_summary_key in Htrim.
    rewrite (Htrim (lit "  # Executive Summary  ") eq_refl).
    vm_compute. reflexivity.
Defined.

#[local] Existing Instance text_float_ops.

(** X1, witness. *)
Lemma extract_first_json_value_container_witness :
  extract_first_json_value (PStr chatty_answer)
  = Ok (PDict [(lit "a", PList [PInt 1; PInt 2])])
  /\ is_container (PDict [(lit "a", PList [PInt 1; PInt 2])]) = true.
Proof.
  split; [vm_compute; reflexivity|].
  apply (extract_first_json_value_container (PStr chatty_answer)).
  vm_compute. reflexivity.
Defined.

(** X2, witness: commentary before the object and a question after it. *)
Lemma extract_first_json_value_of_encoding_witness :
  extract_first_json_value (PStr chatty_answer)
  = Ok (PDict [(lit "a", PList [PInt 1; PInt 2])]).
Proof.
  apply (extract_first_json_value_of_encoding chatty_answer
           (lit "Here you go: ") (lit " - anything else?")).
  - discriminate.
  - vm_compute. reflexivity.
  - vm_compute. intuition discriminate.
  - vm_compute. intuition discriminate.
  - reflexivity.
  - cbn. repeat constructor. intros [].
  - constructor.
Defined.

(** X3, witness: the fences on lines of their own. *)
Lemma extract_first_json_value_fenced_witness :
  extract_first_json_value
    (PStr (lit "```json" ++ nl ++ jlit "{'papers':[]}" ++ nl ++ lit "```"))
  = Ok (PDict [(lit "papers", PList [])]).
Proof.
  apply (extract_first_json_value_fenced (PDict [(lit "papers", PList [])]) nl nl).
  - reflexivity.
  - cbn. repeat constructor. intros [].
  - constructor.
  - repeat constructor.
  - repeat constructor.
Defined.

(** X4, witness. *)
Lemma sanitize_json_str_output_parses_witness :
  sanitize_json_str (PStr fenced_links)
  = PStr (jlit "{'url':'https://example.com/page','refs':[{'url':'x'},1]}")
  /\ raw_decode (jlit "{'url':'https://example.com/page','refs':[{'url':'x'},1]}")
     = Ok (PDict [ (lit "url", PStr (lit "https://example.com/page"));
                   (lit "refs", PList [PDict [(lit "url", PStr (lit "x"))];
                                       PInt 1]) ], []).
Proof.
  destruct (sanitize_json_str_output_parses (PStr fenced_links)
              (PDict [ (lit "url", PStr (lit "https://example.com/page)."));
                       (lit "refs", PList [PDict [(lit "url", PStr (lit " x "))];
                                           PInt 1]) ])
              ltac:(vm_compute; reflexivity) (Forall_nil _))
    as (out & E1 & E2 & _).
  assert (Eo : PStr out
               = PStr (jlit "{'url':'https://example.com/page','refs':[{'url':'x'},1]}"))
    by (rewrite <- E1; vm_compute; reflexivity).
  injection Eo as Eo.
  subst out. split; [exact E1|]. rewrite E2. vm_compute. reflexivity.
Defined.

(** X5, witness. *)
Lemma sanitize_json_str_of_encoding_witness :
  sanitize_json_str
    (PStr (jlit "{'url':'https://example.com/page','stars':3}"))
  = PStr (jlit "{'url':'https://example.com/page','stars':3}").
Proof.
  apply (sanitize_json_str_of_encoding clean_links).
  - reflexivity.
  - cbn. repeat constructor; cbn; intuition discriminate.
  - constructor.
  - repeat constructor.
Defined.

(** X6, witness. *)
Lemma sanitize_links_touches_urls_only_witness :
  without_urls (sanitize_links spaced_links) = without_urls spaced_links
  /\ url_strings (sanitize_links spaced_links) = [lit "a."; lit "a{"].
Proof.
  apply (sanitize_links_touches_urls_only spaced_links).
  cbn. repeat constructor; cbn; intuition discriminate.
Defined.

(** X7, witness: a clean url, and one that ends in a full stop. *)
Lemma normalize_url_fixed_iff_witness :
  normalize_url (Some (lit "https://example.com/a(b)c"))
  = lit "https://example.com/a(b)c"
  /\ normalize_url (Some (lit "https://example.com/.")) <> lit "https://example.com/.".
Proof.
  split.
  - apply (normalize_url_fixed_iff (lit "https://example.com/a(b)c")). right.
    repeat split; try reflexivity. vm_compute. intuition discriminate.
  - intros E. apply (normalize_url_fixed_iff (lit "https://example.com/.")) in E.
    destruct E as [E|(_ & _ & E)]; [discriminate E|].
    apply E. vm_compute. tauto.
Defined.

(** X8, witness: the three agents of the parallel stage, last first. *)
Lemma sanitize_hooks_any_order_witness :
  run_sanitize_hooks parallel_research_agents state_after_research
  = run_sanitize_hooks [blog_agent; repo_agent; paper_agent] state_after_research
  /\ state_get (lit "repos_result")
       (run_sanitize_hooks parallel_research_agents state_after_research)
     = Some (PStr (jlit "{'repos':[{'url':'https://x.org/'}]}")).
Proof.
  split; [|vm_compute; reflexivity].
  apply (sanitize_hooks_any_order parallel_research_agents
           [blog_agent; repo_agent; paper_agent] state_after_research).
  - repeat constructor; cbn; intuition discriminate.
  - apply (Permutation.Permutation_rev parallel_research_agents).
Defined.

(** X9, witness. *)
Lemma trim_hook_composes_witness :
  after_agent_trim_final_summary
    (context_for analyst_agent
       (after_agent_sanitize_json (context_for paper_agent state_after_research)))
  = after_agent_sanitize_json
      (context_for paper_agent
         (after_agent_trim_final_summary
            (context_for analyst_agent state_after_research))).
Proof.
  apply (trim_hook_composes analyst_agent paper_agent state_after_research).
  discriminate.
Defined.

(** X10, witness. *)
Lemma published_dt_iso_witness :
  published_dt entry_29_days_old
  = Some {| year := 2024; month := 3; day := 2 |}.
Proof.
  apply (published_dt_iso entry_29_days_old
           {| year := 2024; month := 3; day := 2 |} (lit "T09:00:00Z"));
    reflexivity.
Defined.

(** X11, witness. *)
Lemma search_papers_func_records_witness :
  search_papers_func feed today (lit "llm agents") 30 5
  = Ok (PDict [(lit "papers",
                PList [ paper entry_29_days_old 2024 [PStr (lit "Ada")];
                        paper entry_undated 2024 [] ])]).
Proof.
  rewrite (search_papers_func_records feed today (lit "llm agents") 30 5
             [entry_31_days_old; entry_29_days_old; entry_undated]
             (738946%Z, 18000000000%Z)).
  - vm_compute. reflexivity.
  - reflexivity.
  - vm_compute. reflexivity.
  - repeat constructor; discriminate.
Defined.

(** X12, witness: eight hundred thousand days back from 2024. *)
Lemma search_papers_func_days_back_overflow_witness :
  search_papers_func feed today (lit "llm agents") 800000 5
  = Raise OverflowError.
Proof.
  apply (search_papers_func_days_back_overflow feed today (lit "llm agents")
           800000 5 [entry_31_days_old; entry_29_days_old; entry_undated]).
  - reflexivity.
  - left. vm_compute. discriminate.
Defined.

(** X13, witness: a request for 500 results reaches the feed as one for
    20. *)
Lemma search_papers_func_request_witness :
  search_papers_func feed_strict today (lit "llm agents") 30 500
  = search_papers_func feed today (lit "llm agents") 30 500.
Proof.
  apply (search_papers_func_request feed_strict feed).
  intros search_query n _ _ Hn. unfold feed_strict.
  destruct (Z.leb_spec n 20); [reflexivity | lia].
Defined.

(** X14, witness: no result asked for, one returned. *)
Lemma search_repos_func_result_witness :
  exists repos,
    PDict [(lit "repos", PList [repo_of [] 0])]
    = PDict [(lit "repos", PList repos)]
    /\ length repos <= 10
    /\ (Z.of_nat (length repos) <= Z.max 1 0)%Z
    /\ Forall repo_record repos.
Proof.
  apply (search_repos_func_result
           (fun _ _ => Ok (PDict [(lit "items", PList [PDict []; PNone])]))
           [] (lit "agents") 0 (PDict [(lit "repos", PList [repo_of [] 0])])).
  vm_compute. reflexivity.
Defined.

(** X15, witness: two items asked for, the first two returned. *)
Lemma search_repos_func_schema_witness :
  search_repos_func github [] (lit "agents") 2
  = Done (PDict [(lit "repos",
                  PList [ PDict [ (lit "name", PStr (lit "owner/project"));
                                  (lit "url", PStr (lit "https://github.com/owner/project"));
                                  (lit "description", PStr []);
                                  (lit "stars", PInt 42);
                                  (lit "last_updated", PStr (lit "2024-05-04T01:44:09Z")) ];
                          PDict [ (lit "name", PStr (lit "a/b"));
                                  (lit "url", PStr []);
                                  (lit "description", PStr []);
                                  (lit "stars", PInt 0);
                                  (lit "last_updated", PStr []) ] ])]).
Proof.
  apply (search_repos_func_schema github [] (lit "agents") 2 github_response
           [item_full; item_bare; PNone]).
  - reflexivity.
  - left. reflexivity.
  - repeat constructor.
    + eexists _, 42%Z. repeat split.
    + eexists _, 0%Z. repeat split.
Defined.

(** X16, witness: the null in the third place is not looked at. *)
Lemma search_repos_func_first_items_witness :
  search_repos_func github [] (lit "agents") 2
  = search_repos_func github_short [] (lit "agents") 2.
Proof.
  apply (search_repos_func_first_items github github_short [] (lit "agents") 2
           github_response [(lit "items", PList [item_full; item_bare])]
           [item_full; item_bare; PNone] [item_full; item_bare]);
    reflexivity.
Defined.

(** X17, witness: with three items asked for, the null is reached. *)
Lemma search_repos_func_bad_item_witness :
  search_repos_func github [] (lit "agents") 3
  = Failed (Exn (AttributeError "object has no attribute 'get'")).
Proof.
  apply (search_repos_func_bad_item github [] (lit "agents") 3 github_response
           [item_full; item_bare; PNone] [item_full; item_bare] [] PNone).
  - reflexivity.
  - reflexivity.
  - reflexivity.
  - repeat constructor.
    + eexists _, _, 42%Z. repeat split.
    + eexists _, _, 0%Z. repeat split.
  - discriminate.
Defined.

(** X18, witness: a request for 50 results reaches the provider as one
    for 10. *)
Lemma search_repos_func_request_witness :
  search_repos_func github_strict [(lit "GITHUB_TOKEN", [])] (lit "agents") 50
  = search_repos_func github [(lit "GITHUB_TOKEN", [])] (lit "agents") 50.
Proof.
  apply (search_repos_func_request github_strict github).
  intros params headers (_ & _ & _ & (n & Hn & Hb) & _).
  unfold github_strict. rewrite Hn.
  destruct (Z.leb_spec n 10); [reflexivity | lia].
Defined.

(** X19, witness. *)
Lemma log_state_appends_one_line_witness :
  exists line,
    file_content (lit "run_log.jsonl")
      (files (log_state today (lit "agents?") final_state_without_plan
                (lit "run_log.jsonl") one_line_logged))
    = Some (match file_content (lit "run_log.jsonl") (files one_line_logged) with
            | Some old => old
            | None => []
            end ++ line ++ nl)
    /\ Forall (fun c => printable c = true) line
    /\ ~ In 10%N line
    /\ forall other, other <> lit "run_log.jsonl" ->
         file_content other
           (files (log_state today (lit "agents?") final_state_without_plan
                     (lit "run_log.jsonl") one_line_logged))
         = file_content other (files one_line_logged).
Proof.
  apply (log_state_appends_one_line today (lit "agents?")
           final_state_without_plan (lit "run_log.jsonl") one_line_logged).
  - reflexivity.
  - repeat constructor.
  - cbn. repeat constructor.
  - constructor.
Defined.

(** X20, witness. *)
Lemma log_state_line_reads_back_witness :
  exists line,
    file_content (lit "run_log.jsonl")
      (files (log_state today (lit "agents?") final_state_without_plan
                (lit "run_log.jsonl") one_line_logged))
    = Some (match file_content (lit "run_log.jsonl") (files one_line_logged) with
            | Some old => old
            | None => []
            end ++ line ++ nl)
    /\ raw_decode line
       = Ok (PDict [ (lit "timestamp", PStr (isoformat today));
                     (lit "user_request", PStr (lit "agents?"));
                     (lit "final_summary",
                       match dict_get (lit "final_summary") final_state_without_plan with
                       | Some v => v
                       | None => PStr (lit "N/A")
                       end);
                     (lit "plan_generated",
                       match dict_get (lit "plan_json") final_state_without_plan with
                       | Some v => v
                       | None => PStr (lit "N/A")
                       end) ], []).
Proof.
  apply (log_state_line_reads_back today (lit "agents?")
           final_state_without_plan (lit "run_log.jsonl") one_line_logged).
  - reflexivity.
  - repeat constructor.
  - cbn. repeat constructor.
  - cbn. repeat constructor. intros [].
  - constructor.
Defined.

(** X21, witness. *)
Lemma extract_first_json_value_bare_fence_witness :
  extract_first_json_value
    (PStr (lit "```" ++ nl ++ jlit "{'papers':[]}" ++ nl ++ lit "```"))
  = Ok (PDict [(lit "papers", PList [])]).
Proof.
  apply (extract_first_json_value_bare_fence
           (PDict [(lit "papers", PList [])]) nl nl).
  - reflexivity.
  - cbn. repeat constructor. intros [].
  - constructor.
  - repeat constructor.
  - repeat constructor.
  - vm_compute. reflexivity.
Defined.

(** X22, witness: the encoding of a value cut in the middle of a url. *)
Lemma sanitize_json_str_truncated_witness :
  sanitize_json_str (PStr (jlit "{'url':'https://example.com/pa"))
  = PStr (jlit "{'url':'https://example.com/pa").
Proof.
  apply (sanitize_json_str_truncated clean_links
           (jlit "{'url':'https://example.com/pa") (jlit "ge','stars':3}")).
  - reflexivity.
  - cbn. repeat constructor; cbn; intuition discriminate.
  - constructor.
  - vm_compute. reflexivity.
  - discriminate.
Defined.

(** X23, witness. *)
Lemma log_state_keeps_json_lines_witness :
  exists new,
    file_content (lit "run_log.jsonl")
      (files (log_state today (lit "agents?") final_state_without_plan
                (lit "run_log.jsonl") one_line_logged)) = Some new
    /\ json_lines new.
Proof.
  apply (log_state_keeps_json_lines today (lit "agents?")
           final_state_without_plan (lit "run_log.jsonl") one_line_logged).
  - reflexivity.
  - repeat constructor.
  - cbn. repeat constructor.
  - cbn. repeat constructor. intros [].
  - constructor.
  - constructor.
  - exists [jlit "{'timestamp': 'earlier'}"]. split; [vm_compute; reflexivity|].
    constructor; [|constructor]. split.
    + vm_compute. intuition discriminate.
    + eexists. vm_compute. reflexivity.
Defined.

(** X24, witness: the fenced answer of 75 characters comes back in 57. *)
Lemma sanitize_json_str_no_longer_witness :
  exists text out,
    PStr fenced_links = PStr text
    /\ sanitize_json_str (PStr fenced_links) = PStr out
    /\ length out <= length text.
Proof.
  apply (sanitize_json_str_no_longer (PStr fenced_links)
           (PDict [ (lit "url", PStr (lit "https://example.com/page)."));
                    (lit "refs", PList [PDict [(lit "url", PStr (lit " x "))];
                                        PInt 1]) ])).
  - vm_compute. reflexivity.
  - reflexivity.
Defined.
